(** * Text-generation pipeline: session cache orchestration and masks

    A shallow embedding of

      - [deepsparse/transformers/utils/helpers.py]
        ([repeat_inputs], [validate_session_ids], [pad_to_fixed_length],
        [create_causal_mask]) and
      - [deepsparse/transformers/pipelines/text_generation.py]
        ([TextGenerationPipeline]: construction, the positions of
        [process_inputs], [engine_forward], [prompt_inference],
        [autoregressive_inference], [engine_inputs_for_prefill],
        [synchronize_engines], [split_engine_inputs], [join_engine_outputs]),

    followed by the properties of the design document that concern them
    and by further properties of the same functions.

    Conventions.  A numpy array is a nested list, outermost axis first; its
    integer entries are [Z].  A call that raises is [None] in the helpers,
    [Exc e] in pure pipeline code and [Raise e w] in code that runs on the
    engines, [w] being the state of the engines at that point.  Python's
    [None] in a position that otherwise holds an [int] is [None : option Z].
    What belongs to the repository but not to the two files above (the
    session store of an engine, the generic splitter of arrays) is modelled
    from the design document and marked as such; the engine itself is a
    parameter ([EngineModel]). *)

From Stdlib Require Import ZArith Lia.
From stdpp Require Import base option list strings gmap.

Local Open Scope Z_scope.

(** ** Nested-list arrays *)

Module Np.

(** A 2-d integer array, [shape = (nrows, ncols)]. *)
Abbreviation matrix := (list (list Z)) (only parsing).
(** A 4-d integer array. *)
Abbreviation tensor4 := (list (list (list (list Z)))) (only parsing).

Definition shape0 {A} (a : list A) : nat := length a.
Definition shape1 {A} (a : list (list A)) : nat := length (List.hd [] a).

(** All rows have [k] entries: the array is rectangular. *)
Definition rectangular {A} (k : nat) (a : list (list A)) : Prop :=
  Forall (λ r, length r = k) a.

(** [n] consecutive pieces of [k] entries each. *)
Fixpoint chunks {A} (n k : nat) (l : list A) : list (list A) :=
  match n with
  | O => []
  | S n' => take k l :: chunks n' k (drop k l)
  end.

(** [numpy.reshape(a, (b, c, r, k))] on the row-major flattening [flat]
    of [a]; a size mismatch raises. *)
Definition reshape4 (b c r k : nat) (flat : list Z) : option tensor4 :=
  if decide (length flat = (b * c * r * k)%nat)
  then Some (chunks b c (chunks (b * c) r (chunks (b * c * r) k flat)))
  else None.

(** [numpy.ones((b, c, r, k))] *)
Definition ones4 (b c r k : nat) : tensor4 :=
  replicate b (replicate c (replicate r (replicate k 1))).

(** [numpy.tril(t, 0)]: on the last two axes, keep entry [(i, j)] when
    [j <= i], zero it otherwise. *)
Definition tril_row (i : nat) (row : list Z) : list Z :=
  imap (λ j x, if (j <=? i)%nat then x else 0) row.
Definition tril4 (t : tensor4) : tensor4 :=
  fmap (M:=list) (fmap (M:=list) (imap tril_row)) t.

(** [numpy.concatenate((p, q), axis=-1)] *)
Definition concat_last (p q : tensor4) : tensor4 :=
  zip_with (zip_with (zip_with app)) p q.

(** [numpy.count_nonzero(m == 0)] *)
Definition count_zeros (m : matrix) : nat :=
  length (filter (λ x, x = 0) (concat m)).

(** The slice assignment [row[:n] = 0]. *)
Definition zero_left (n : nat) (row : list Z) : list Z :=
  replicate (n `min` length row) 0 ++ drop n row.
(** [t[:, :, :, :n] = 0] *)
Definition zero_left_columns (n : nat) (t : tensor4) : tensor4 :=
  fmap (M:=list) (fmap (M:=list) (fmap (M:=list) (zero_left n))) t.

(** Entry [t[b, c, i, j]], when in range. *)
Definition get4 (t : list (list (list (list Z)))) (b c i j : nat) : option Z :=
  plane ← t !! b; block ← plane !! c; row ← block !! i; row !! j.

End Np.

(** ** helpers.py *)

Module Helpers.
Import Np.

(** [input_ids : Union[numpy.ndarray, List[int]]]; the array may be an
    array of objects ([None] among them), of which only the shape is read. *)
Inductive ids_arg : Type :=
| IdsArray (a : matrix)
| IdsList (l : list Z)
| IdsObjects (a : list (list (option Z))).

(** [attention_mask : Union[numpy.ndarray, List[int]]] *)
Inductive mask_arg : Type :=
| MaskArray (a : matrix)
| MaskList (l : list Z).

(** [batch_size, input_ids_length = input_ids.shape], or [1, len(input_ids)]. *)
Definition ids_shape (input_ids : ids_arg) : nat * nat :=
  match input_ids with
  | IdsArray a => (shape0 a, shape1 a)
  | IdsList l => (1%nat, length l)
  | IdsObjects a => (shape0 a, shape1 a)
  end.

(** [sequence_length], and [attention_mask] as an array
    ([numpy.array(attention_mask)[None, ...]] for a list). *)
Definition mask_shape (attention_mask : mask_arg) : nat * matrix :=
  match attention_mask with
  | MaskArray a => (shape1 a, a)
  | MaskList l => (length l, [l])
  end.

(** The array of [create_causal_mask] just before its left columns are
    zeroed: the past block of ones followed by the lower-triangular block.
    A negative dimension [sequence_length - input_ids_length] raises. *)
Definition causal_mask_unzeroed (batch_size input_ids_length sequence_length : nat)
  : option tensor4 :=
  if decide (sequence_length < input_ids_length)%nat then None
  else
    let causal_mask :=
      tril4 (ones4 batch_size 1 input_ids_length input_ids_length) in
    let past_causal_mask :=
      ones4 batch_size 1 input_ids_length (sequence_length - input_ids_length) in
    Some (concat_last past_causal_mask causal_mask).

Definition create_causal_mask (input_ids : ids_arg) (attention_mask : mask_arg)
  : option tensor4 :=
  let '(batch_size, input_ids_length) := ids_shape input_ids in
  let '(sequence_length, attention_mask) := mask_shape attention_mask in
  if decide (input_ids_length = 1%nat) then
    reshape4 batch_size 1 1 sequence_length (concat attention_mask)
  else
    causal_mask ← causal_mask_unzeroed batch_size input_ids_length sequence_length;
    let num_zeros := count_zeros attention_mask in
    Some (zero_left_columns num_zeros causal_mask).

(** [pad_to_fixed_length(array, max_len, axis=1, value)] on an array whose
    axis 1 holds entries of type [A]: right-pad every row with [value];
    a negative pad width raises. *)
Definition pad_to_fixed_length {A} (array : list (list A)) (max_len : nat) (value : A)
  : option (list (list A)) :=
  if decide (max_len < shape1 array)%nat then None
  else Some ((λ row, row ++ replicate (max_len - shape1 array) value) <$> array).

End Helpers.

(** ** The session store of an engine *)

Module SessionStore.

(** Modelled from the spec: the cache entry ("Session") of an engine's
    [kv_cache_storage]; its class is not part of the sources at hand.
    It has an id, a timestamp (a write counter) and the number of
    non-blank cache rows. *)
Record session : Type := Session {
  id : string;
  timestamp : Z;
  valid_row_count : Z;
}.

#[global] Instance session_eq_dec : EqDecision session.
Proof. solve_decision. Defined.

(** Modelled from the spec: [kv_cache_storage.get(session_id)], the entry
    or absent. *)
Definition get (store : gmap string session) (session_id : string)
  : option session :=
  store !! session_id.

(** Modelled from the spec: [kv_cache_storage.has_session(session_id)]. *)
Definition has_session (store : gmap string session) (session_id : string)
  : bool :=
  bool_decide (is_Some (store !! session_id)).

(** Modelled from the spec: the timestamp of an entry, an absent entry
    counting as minus infinity ([None]). *)
Definition timestamp_of (entry : option session) : option Z :=
  timestamp <$> entry.

(** [a > b] on timestamps with [None] as minus infinity. *)
Definition ts_gt (a b : option Z) : bool :=
  match a, b with
  | Some x, Some y => bool_decide (x > y)
  | Some _, None => true
  | None, _ => false
  end.

(** Modelled from the spec: [transfer(entry)] replaces this store's entry
    for the entry's session id when the provided entry's timestamp is not
    older; with a stale timestamp, and for an absent entry, it is a no-op.
    The boolean tells whether the store was written. *)
Definition transfer (store : gmap string session) (provided : option session)
  : gmap string session * bool :=
  match provided with
  | None => (store, false)
  | Some s =>
      if ts_gt (timestamp_of (store !! id s)) (Some (timestamp s))
      then (store, false)
      else (<[id s := s]> store, true)
  end.

(** Modelled from the spec: [non_blank_row_count(session_id)]; no rows
    for an absent session. *)
Definition non_blank_row_count (store : gmap string session)
  (session_id : string) : Z :=
  from_option valid_row_count 0 (store !! session_id).

End SessionStore.

(** ** Python values and exceptions *)

Module Py.
Import Np.

Inductive exn : Type :=
| ValueError | TypeError | IndexError | KeyError | AttributeError
| ZeroDivisionError | StopIteration | UnboundLocalError.

(** The result of pure code that may raise. *)
Inductive pyres (A : Type) : Type :=
| Val (a : A)
| Exc (e : exn).
Arguments Val {A} a.
Arguments Exc {A} e.

#[global] Instance pyres_ret : MRet pyres := λ A a, Val a.
#[global] Instance pyres_bind : MBind pyres := λ A B f r,
  match r with Val a => f a | Exc e => Exc e end.

Definition of_option {A} (e : exn) (o : option A) : pyres A :=
  match o with Some a => Val a | None => Exc e end.

(** A token id; [None] is Python's [None]. *)
Abbreviation token := (option Z) (only parsing).

(** The array of tokens that [engine_forward] returns: 1-d,
    [numpy.array([token])], or 2-d, [numpy.array([generated_tokens])]. *)
Inductive tokens_array : Type :=
| Tokens1 (l : list token)
| Tokens2 (a : list (list token)).

(** An array among the engine inputs: [input_ids], [attention_mask] and
    [positions] are 2-d, [causal_mask] is 4-d.  A 2-d array that numpy builds
    from tokens of which one is [None] is an array of objects. *)
Inductive ndarray : Type :=
| Arr2 (a : list (list Z))
| Arr4 (a : list (list (list (list Z))))
| ArrObj (a : list (list token)).

(** An entry of the list handed to the engine: an array, the list of
    session ids of the whole batch, or the session id of one sub-batch. *)
Inductive item : Type :=
| ItemArray (a : ndarray)
| ItemIds (session_ids : list string)
| ItemId (session_id : string).

(** [isinstance(item, list)] and [isinstance(item, str)] *)
Definition is_list (i : item) : bool :=
  match i with ItemIds _ => true | _ => false end.
Definition is_str (i : item) : bool :=
  match i with ItemId _ => true | _ => false end.

(** The integers of a list of tokens, when none of them is [None]. *)
Fixpoint int_row (tokens : list token) : option (list Z) :=
  match tokens with
  | [] => Some []
  | Some z :: rest => row ← int_row rest; Some (z :: row)
  | None :: _ => None
  end.

(** [numpy.array([tokens])]: an integer array of one row, or an array of
    objects when one of the tokens is [None].  Building it never raises. *)
Definition token_array (tokens : list token) : ndarray :=
  match int_row tokens with
  | Some row => Arr2 [row]
  | None => ArrObj [tokens]
  end.

(** The first index of a slice [a[start:]] on [len] entries, with Python's
    rule for a negative start. *)
Definition slice_start (len : nat) (start : Z) : nat :=
  if decide (start < 0) then Z.to_nat (Z.max 0 (Z.of_nat len + start))
  else Nat.min (Z.to_nat start) len.

(** [a = numpy.zeros((1, len)); a[:, -n:] = 1]; a negative [len] raises.
    Note that [-n] is [0] for [n = 0], so the whole row is set. *)
Definition ones_from_right (len n : Z) : pyres (list (list Z)) :=
  if decide (len < 0) then Exc ValueError
  else
    let k := slice_start (Z.to_nat len) (- n) in
    Val [replicate k 0 ++ replicate (Z.to_nat len - k) 1].

(** [tokens[start:stop]] for non-negative bounds. *)
Definition slice {A} (l : list A) (start stop : nat) : list A :=
  take (stop - start) (drop start l).

(** [numpy.arange(start, stop)] *)
Definition arange (start stop : Z) : list Z :=
  (λ i, start + Z.of_nat i) <$> seq 0 (Z.to_nat (stop - start)).

End Py.

(** ** text_generation.py *)

Module TextGeneration.
Import Np Py SessionStore.

(** *** The engines

    [NLDecoderEngine] and the model behind it are external to the pipeline.
    The object carries its session store, the names of its ONNX inputs
    (cache inputs left out), the number of tokens it takes per call, and
    whatever else it keeps (weights, cache tensors, sampler state). *)
Record NLDecoderEngine (internals : Type) : Type := {
  kv_cache_storage : gmap string session;
  onnx_input_names_no_cache : list string;
  input_ids_length : Z;
  engine_internals : internals;
}.
Arguments kv_cache_storage {internals} _.
Arguments onnx_input_names_no_cache {internals} _.
Arguments input_ids_length {internals} _.
Arguments engine_internals {internals} _.

(** What the pipeline needs from the external engine: its constructor (from
    the sequence length, the input length and [use_deepsparse_cache]) and
    its call, which returns the next token and the logits (the array of
    shape [[1, n, vocab]], kept as its [n] rows) and leaves the engine with
    a new session store and new internals. *)
Class EngineModel : Type := {
  logit_row : Type;
  zero_row : logit_row;
  internals : Type;
  construct : Z → Z → bool → NLDecoderEngine internals;
  invoke : NLDecoderEngine internals → list item → option string →
           (gmap string session * internals) * (token * list logit_row);
}.

(** [deepsparse.pipeline.DEEPSPARSE_ENGINE] *)
Definition DEEPSPARSE_ENGINE : string := "deepsparse".

(** *** The pipeline object: the attributes that the methods read *)
Record TextGenerationPipeline : Type := {
  engine_type : string;
  sequence_length : Z;
  enable_multitoken_prefill : bool;
  cache_support_enabled : bool;
  deterministic : bool;
  max_generated_tokens : option Z;
  prompt_processing_sequence_length : Z;
  force_max_tokens : bool;
  use_deepsparse_cache : bool;
  (** [self.tokenizer.eos_token_id], [self.tokenizer.pad_token_id] and
      [hasattr(self.tokenizer, "add_bos_token")] *)
  eos_token_id : token;
  pad_token_id : token;
  has_add_bos_token : bool;
}.

(** The arguments of the constructor, with what it learns from the model
    file ([causal_mask_input_present], [is_cache_support_enabled]) and
    from the tokenizer. *)
Record init_args : Type := {
  arg_deterministic : bool;
  arg_max_generated_tokens : option Z;
  arg_prompt_processing_sequence_length : Z;
  arg_force_max_tokens : bool;
  arg_use_deepsparse_cache : bool;
  arg_engine_type : option string;
  arg_sequence_length : Z;
  causal_mask_input_present : bool;
  is_cache_support_enabled : bool;
  tokenizer_eos_token_id : token;
  tokenizer_pad_token_id : token;
  tokenizer_has_add_bos_token : bool;
}.

(** The keyword arguments of a request that [engine_forward] reads. *)
Record context : Type := {
  streamer : bool;
  include_prompt_logits : bool;
}.

Section WithEngine.
Context `{EngineModel}.

Inductive which_engine : Type := SingleToken | Multitoken.

#[global] Instance which_engine_eq_dec : EqDecision which_engine.
Proof. solve_decision. Defined.

(** What is observable of a run, in order: engine calls, cache-session
    transfers (with whether the target store was written) and the calls
    of the streamer. *)
Inductive event : Type :=
| Invoke (target : which_engine) (engine_inputs : list item)
         (session_id : option string)
| Transfer (target : which_engine) (provided : option session)
           (written : bool)
| StreamerPut (tokens : list token)
| StreamerEnd.

(** The mutable part: the two engine objects ([None] when the pipeline
    has not built one) and the events so far. *)
Record world : Type := World {
  engine : option (NLDecoderEngine internals);
  multitoken_engine : option (NLDecoderEngine internals);
  trace : list event;
}.

Inductive outcome (A : Type) : Type :=
| Ok (a : A) (w : world)
| Raise (e : exn) (w : world)
| OutOfFuel.
Arguments Ok {A} a w.
Arguments Raise {A} e w.
Arguments OutOfFuel {A}.

Definition M (A : Type) : Type := world → outcome A.

#[global] Instance M_ret : MRet M := λ A a w, Ok a w.
#[global] Instance M_bind : MBind M := λ A B f c w,
  match c w with
  | Ok a w' => f a w'
  | Raise e w' => Raise e w'
  | OutOfFuel => OutOfFuel
  end.

Definition raise {A} (e : exn) : M A := λ w, Raise e w.

Definition lift {A} (r : pyres A) : M A :=
  match r with Val a => mret a | Exc e => raise e end.

Definition log (ev : event) : M unit := λ w,
  Ok () (World (engine w) (multitoken_engine w) (trace w ++ [ev])).

Definition get_engine (target : which_engine) : M (option (NLDecoderEngine internals)) :=
  λ w, Ok (match target with
           | SingleToken => engine w
           | Multitoken => multitoken_engine w
           end) w.

Definition set_engine (target : which_engine) (e : NLDecoderEngine internals)
  : M unit := λ w,
  Ok () (match target with
         | SingleToken => World (Some e) (multitoken_engine w) (trace w)
         | Multitoken => World (engine w) (Some e) (trace w)
         end).

(** [self.engine.<attribute>]: an [AttributeError] on [None]. *)
Definition attr_of (target : which_engine) : M (NLDecoderEngine internals) :=
  o ← get_engine target;
  match o with Some e => mret e | None => raise AttributeError end.

(** [self.engine(engine_inputs, session_id)]; [None] is not callable. *)
Definition call_engine (target : which_engine) (engine_inputs : list item)
  (session_id : option string) : M (token * list logit_row) :=
  o ← get_engine target;
  match o with
  | None => raise TypeError
  | Some e =>
      let '(store, state, out) := invoke e engine_inputs session_id in
      set_engine target
        {| kv_cache_storage := store;
           onnx_input_names_no_cache := onnx_input_names_no_cache e;
           input_ids_length := input_ids_length e;
           engine_internals := state |};;
      log (Invoke target engine_inputs session_id);;
      mret out
  end.

(** Modelled from the spec: [NLDecoderEngine.transfer_cache_session],
    the store's [transfer] on the engine's [kv_cache_storage]. *)
Definition transfer_cache_session (target : which_engine)
  (provided : option session) : M unit :=
  e ← attr_of target;
  let '(store, written) := transfer (kv_cache_storage e) provided in
  set_engine target
    {| kv_cache_storage := store;
       onnx_input_names_no_cache := onnx_input_names_no_cache e;
       input_ids_length := input_ids_length e;
       engine_internals := engine_internals e |};;
  log (Transfer target provided written).

(** Modelled from the spec: [NLDecoderEngine.num_non_blank_cache_entries]. *)
Definition num_non_blank_cache_entries (e : NLDecoderEngine internals)
  (session_id : string) : Z :=
  non_blank_row_count (kv_cache_storage e) session_id.

(** [synchronize_engines].  The timestamp of an absent session is minus
    infinity, as the design document has it. *)
Definition synchronize_engines (session_id : string) : M unit :=
  e ← attr_of SingleToken;
  let engine_session := get (kv_cache_storage e) session_id in
  m ← attr_of Multitoken;
  let multitoken_session := get (kv_cache_storage m) session_id in
  let engine_session_timestamp := timestamp_of engine_session in
  let multitoken_session_timestamp := timestamp_of multitoken_session in
  (if ts_gt engine_session_timestamp multitoken_session_timestamp
   then transfer_cache_session Multitoken engine_session
   else mret ());;
  transfer_cache_session SingleToken multitoken_session.

(** [_remove_bos_token_if_applicable] *)
Definition _remove_bos_token_if_applicable (self : TextGenerationPipeline)
  (tokens : list token) : list token :=
  if has_add_bos_token self then drop 1 tokens else tokens.

(** The dictionary [engine_inputs_map] of [autoregressive_inference]. *)
Definition engine_inputs_map (input_ids : ndarray) (attention_mask : matrix)
  (causal_mask : tensor4) (positions : matrix) (name : string)
  : pyres item :=
  if decide (name = "input_ids") then Val (ItemArray input_ids)
  else if decide (name = "attention_mask") then Val (ItemArray (Arr2 attention_mask))
  else if decide (name = "causal_mask") then Val (ItemArray (Arr4 causal_mask))
  else if decide (name = "positions") then Val (ItemArray (Arr2 positions))
  else Exc KeyError.

Fixpoint lookup_all (f : string → pyres item) (names : list string)
  : pyres (list item) :=
  match names with
  | [] => Val []
  | name :: rest => x ← f name; xs ← lookup_all f rest; Val (x :: xs)
  end.

(** An array as the argument [input_ids] of [create_causal_mask], which
    unpacks its shape in two. *)
Definition ids_of (a : ndarray) : pyres Helpers.ids_arg :=
  match a with
  | Arr2 a => Val (Helpers.IdsArray a)
  | ArrObj a => Val (Helpers.IdsObjects a)
  | Arr4 _ => Exc ValueError
  end.

(** [autoregressive_inference] *)
Definition autoregressive_inference (self : TextGenerationPipeline)
  (tokens : list token) (session_id : string)
  : M (token * list logit_row) :=
  e ← attr_of SingleToken;
  let num_cached_entries := num_non_blank_cache_entries e session_id in
  new_token ← lift (of_option IndexError (last tokens));
  let num_tokens_processed :=
    Z.min (num_cached_entries + 1) (sequence_length self) in
  attention_mask ←
    lift (ones_from_right (sequence_length self) num_tokens_processed);
  let positions := [[num_cached_entries + 1 - 1]] in
  let input_ids := token_array [new_token] in
  causal_mask ←
    lift (ids ← ids_of input_ids;
          of_option ValueError
            (Helpers.create_causal_mask ids (Helpers.MaskArray attention_mask)));
  e ← attr_of SingleToken;
  engine_inputs ←
    lift (lookup_all
            (engine_inputs_map input_ids attention_mask causal_mask positions)
            (onnx_input_names_no_cache e));
  call_engine SingleToken engine_inputs (Some session_id).

(** *** The prefill generator [engine_inputs_for_prefill] *)

(** [token_batches]: the full chunks of the prompt.  The floor division
    by zero raises; for a negative chunk length the range is empty. *)
Definition token_batches (self : TextGenerationPipeline) (tokens : list token)
  : pyres (list (list token)) :=
  let p := prompt_processing_sequence_length self in
  if decide (p = 0) then Exc ZeroDivisionError
  else
    let num_batches := Z.of_nat (length tokens) `div` p in
    Val ((λ i, slice tokens (i * Z.to_nat p) ((i + 1) * Z.to_nat p))
           <$> seq 0 (Z.to_nat num_batches)).

(** One turn of the loop over the input names.  [engine_input] is the
    local variable of that name: it keeps its value when a name matches
    no branch, and is unbound before its first assignment. *)
Definition prefill_input (self : TextGenerationPipeline)
  (num_cached_entries : Z) (idx : nat) (token_batch : list token)
  (acc : list item * option item) (name : string)
  : pyres (list item * option item) :=
  let '(engine_inputs, engine_input) := acc in
  let p := prompt_processing_sequence_length self in
  if decide (name = "causal_mask") then Val acc
  else
    engine_input ←
      (if decide (name = "input_ids") then
         Val (Some (ItemArray (token_array token_batch)))
       else if decide (name = "attention_mask") then
         a ← ones_from_right (sequence_length self) (p + num_cached_entries);
         Val (Some (ItemArray (Arr2 a)))
       else if decide (name = "positions") then
         if decide (p = 1) then Val (Some (ItemArray (Arr2 [[Z.of_nat idx]])))
         else Val (Some (ItemArray
                           (Arr2 [arange num_cached_entries
                                    (num_cached_entries + p)])))
       else Val engine_input);
    x ← of_option UnboundLocalError engine_input;
    Val (engine_inputs ++ [x], engine_input).

Fixpoint prefill_inputs (self : TextGenerationPipeline)
  (num_cached_entries : Z) (idx : nat) (token_batch : list token)
  (acc : list item * option item) (names : list string)
  : pyres (list item * option item) :=
  match names with
  | [] => Val acc
  | name :: rest =>
      acc' ← prefill_input self num_cached_entries idx token_batch acc name;
      prefill_inputs self num_cached_entries idx token_batch acc' rest
  end.

(** The first two engine inputs of a chunk as the arguments of
    [create_causal_mask]; they are 2-d arrays built by the loop above.  Of an
    attention mask of objects [create_causal_mask] reads the shape and the
    number of entries equal to zero, which [None] is not; for one input id it
    reshapes the mask and then converts it to integers, which raises on
    [None]. *)
Definition as_ids (x : item) : pyres Helpers.ids_arg :=
  match x with
  | ItemArray a => ids_of a
  | _ => Exc ValueError
  end.

Definition as_mask (input_ids : Helpers.ids_arg) (x : item)
  : pyres Helpers.mask_arg :=
  match x with
  | ItemArray (Arr2 a) => Val (Helpers.MaskArray a)
  | ItemArray (ArrObj a) =>
      match mapM int_row a with
      | Some m => Val (Helpers.MaskArray m)
      | None =>
          let m := fmap (M:=list) (default 1) <$> a in
          if decide ((Helpers.ids_shape input_ids).2 = 1%nat) then
            of_option ValueError
              (Helpers.create_causal_mask input_ids (Helpers.MaskArray m));;
            Exc TypeError
          else Val (Helpers.MaskArray m)
      end
  | _ => Exc ValueError
  end.

(** The body of the generator for the chunk [idx]: the engine inputs it
    yields, and the local [engine_input] it leaves behind. *)
Definition prefill_chunk (self : TextGenerationPipeline) (session_id : string)
  (idx : nat) (token_batch : list token) (engine_input : option item)
  : M (list item * option item) :=
  m ← attr_of Multitoken;
  let num_cached_entries := num_non_blank_cache_entries m session_id in
  m ← attr_of Multitoken;
  '(engine_inputs, engine_input) ←
    lift (prefill_inputs self num_cached_entries idx token_batch
            ([], engine_input) (onnx_input_names_no_cache m));
  m ← attr_of Multitoken;
  if bool_decide ("causal_mask" ∈ onnx_input_names_no_cache m) then
    causal_mask ←
      lift (x0 ← of_option IndexError (engine_inputs !! 0%nat);
            x1 ← of_option IndexError (engine_inputs !! 1%nat);
            input_ids ← as_ids x0;
            attention_mask ← as_mask input_ids x1;
            of_option ValueError
              (Helpers.create_causal_mask input_ids attention_mask));
    mret (engine_inputs ++ [ItemArray (Arr4 causal_mask)], engine_input)
  else mret (engine_inputs, engine_input).

(** The state of the loop over the generator in [prompt_inference]. *)
Record prefill_state : Type := {
  new_token : token;
  num_tokens_processed : Z;
  prompt_logits : list (list logit_row);
  engine_input_local : option item;
}.

(** [for engine_inputs in self.engine_inputs_for_prefill(tokens, session_id)]
    from the chunk [idx] on. *)
Fixpoint prefill_loop (self : TextGenerationPipeline) (session_id : string)
  (idx : nat) (batches : list (list token)) (st : prefill_state)
  : M prefill_state :=
  match batches with
  | [] => mret st
  | token_batch :: rest =>
      '(engine_inputs, engine_input) ←
        prefill_chunk self session_id idx token_batch (engine_input_local st);
      '(new_token, new_logits) ←
        call_engine Multitoken engine_inputs (Some session_id);
      prefill_loop self session_id (S idx) rest
        {| new_token := new_token;
           num_tokens_processed :=
             num_tokens_processed st + prompt_processing_sequence_length self;
           prompt_logits := prompt_logits st ++ [new_logits];
           engine_input_local := engine_input |}
  end.

(** [for token in tokens[num_tokens_processed:]] of [prompt_inference]. *)
Fixpoint single_token_loop (self : TextGenerationPipeline) (session_id : string)
  (rest run_tokens : list token) (new_token : token)
  (prompt_logits : list (list logit_row))
  : M (token * list (list logit_row)) :=
  match rest with
  | [] => mret (new_token, prompt_logits)
  | token :: rest =>
      let run_tokens := run_tokens ++ [token] in
      '(new_token, new_logits) ←
        autoregressive_inference self run_tokens session_id;
      single_token_loop self session_id rest run_tokens new_token
        (prompt_logits ++ [new_logits])
  end.

(** [engine_inputs[0][engine_inputs[1].nonzero()].tolist()]: the entries
    of the first array at the positions where the second is not zero, in
    row-major order. *)
Definition masked_row (r : nat) (ids : matrix) (mask_row : list Z)
  : pyres (list token) :=
  foldr (λ '(c, m) acc,
           if decide (m = 0) then acc
           else
             x ← of_option IndexError (row ← ids !! r; row !! c);
             xs ← acc;
             Val (Some x :: xs))
        (Val []) (imap pair mask_row).

Fixpoint masked_rows (r : nat) (ids mask : matrix) : pyres (list token) :=
  match mask with
  | [] => Val []
  | mask_row :: rest =>
      xs ← masked_row r ids mask_row;
      ys ← masked_rows (S r) ids rest;
      Val (xs ++ ys)
  end.

(** The same for a first array of objects, whose entries may be [None]. *)
Definition masked_row_objects (r : nat) (ids : list (list token))
  (mask_row : list Z) : pyres (list token) :=
  foldr (λ '(c, m) acc,
           if decide (m = 0) then acc
           else
             x ← of_option IndexError (row ← ids !! r; row !! c);
             xs ← acc;
             Val (x :: xs))
        (Val []) (imap pair mask_row).

Fixpoint masked_rows_objects (r : nat) (ids : list (list token)) (mask : matrix)
  : pyres (list token) :=
  match mask with
  | [] => Val []
  | mask_row :: rest =>
      xs ← masked_row_objects r ids mask_row;
      ys ← masked_rows_objects (S r) ids rest;
      Val (xs ++ ys)
  end.

(** [nonzero()] of an array of objects goes by the truth of the entries:
    [None] counts as zero. *)
Definition truth_mask (mask : list (list token)) : matrix :=
  fmap (M:=list) (default 0) <$> mask.

(** The first line of [prompt_inference].  [engine_inputs[0]] is evaluated
    first, then [engine_inputs[1].nonzero()], which a list or a string has
    not, then the subscription, which a list or a string does not support
    with a tuple.  With a 4-d array as the second of the two the subscription
    has too many indices; 4-d input ids are outside the model, which raises
    for them as well. *)
Definition prompt_tokens (engine_inputs : list item) : pyres (list token) :=
  x0 ← of_option IndexError (engine_inputs !! 0%nat);
  x1 ← of_option IndexError (engine_inputs !! 1%nat);
  match x1 with
  | ItemArray mask =>
      match x0 with
      | ItemArray ids =>
          match ids, mask with
          | Arr2 ids, Arr2 mask => masked_rows 0 ids mask
          | Arr2 ids, ArrObj mask => masked_rows 0 ids (truth_mask mask)
          | ArrObj ids, Arr2 mask => masked_rows_objects 0 ids mask
          | ArrObj ids, ArrObj mask =>
              masked_rows_objects 0 ids (truth_mask mask)
          | _, _ => Exc IndexError
          end
      | _ => Exc TypeError
      end
  | _ => Exc AttributeError
  end.

(** [prompt_inference] *)
Definition prompt_inference (self : TextGenerationPipeline)
  (engine_inputs : list item) (session_id : string)
  : M (list token * list (list logit_row)) :=
  tokens ← lift (prompt_tokens engine_inputs);
  let st0 := {| new_token := None; num_tokens_processed := 0;
                prompt_logits := []; engine_input_local := None |} in
  '(tokens, st) ←
    (if bool_decide (Z.of_nat (length tokens)
                     > prompt_processing_sequence_length self)
        && enable_multitoken_prefill self
     then
       synchronize_engines session_id;;
       m ← attr_of Multitoken;
       let tokens :=
         if has_session (kv_cache_storage m) session_id
         then _remove_bos_token_if_applicable self tokens
         else tokens in
       batches ← lift (token_batches self tokens);
       st ← prefill_loop self session_id 0 batches st0;
       mret (tokens, st)
     else mret (tokens, st0));
  let run_tokens :=
    if decide (num_tokens_processed st = 0) then []
    else take (Z.to_nat (num_tokens_processed st)) tokens in
  synchronize_engines session_id;;
  e ← attr_of SingleToken;
  let tokens :=
    if has_session (kv_cache_storage e) session_id
       && bool_decide (num_tokens_processed st = 0)
    then _remove_bos_token_if_applicable self tokens
    else tokens in
  '(new_token, prompt_logits) ←
    single_token_loop self session_id
      (drop (Z.to_nat (num_tokens_processed st)) tokens) run_tokens
      (new_token st) (prompt_logits st);
  mret (tokens ++ [new_token], prompt_logits).

(** *** [engine_forward] *)

(** [engine_inputs.pop(next(idx for idx, item in enumerate(engine_inputs)
    if isinstance(item, str)))]: the first string and the list without
    it; [next] raises when there is none. *)
Fixpoint pop_session_id (engine_inputs : list item)
  : pyres (string * list item) :=
  match engine_inputs with
  | [] => Exc StopIteration
  | ItemId s :: rest => Val (s, rest)
  | x :: rest => '(s, rest') ← pop_session_id rest; Val (s, x :: rest')
  end.

(** The safety bound [max_tokens]. *)
Definition max_tokens (self : TextGenerationPipeline) : Z :=
  match max_generated_tokens self with
  | Some n =>
      if bool_decide (n ≠ 0) && bool_decide (n > 0) then n
      else 100 * sequence_length self
  | None => 100 * sequence_length self
  end.

Definition streamer_put (ctx : context) (tokens : list token) : M unit :=
  if streamer ctx then log (StreamerPut tokens) else mret ().

(** The variables of the generation loop. *)
Record generation : Type := {
  tokens : list token;
  generated_tokens : list token;
  generated_logits : list (list logit_row);
}.

(** [while len(generated_tokens) <= max_tokens: ...], with [fuel]
    bounding the number of turns of the model. *)
Fixpoint generate_loop (fuel : nat) (self : TextGenerationPipeline)
  (ctx : context) (session_id : string) (g : generation) : M generation :=
  if decide (Z.of_nat (length (generated_tokens g)) ≤ max_tokens self) then
    match fuel with
    | O => λ _, OutOfFuel
    | S fuel' =>
        '(token, logits) ←
          autoregressive_inference self (tokens g) session_id;
        let g' := {| tokens := tokens g ++ [token];
                     generated_tokens := generated_tokens g ++ [token];
                     generated_logits := generated_logits g ++ [logits] |} in
        streamer_put ctx [token];;
        if bool_decide (token = eos_token_id self)
           && negb (force_max_tokens self)
        then mret g'
        else generate_loop fuel' self ctx session_id g'
    end
  else mret g.

(** [numpy.concatenate(arrays, axis=1)] of arrays with one batch row;
    an empty list raises. *)
Definition concatenate_axis1 {A} (arrays : list (list A))
  : pyres (list (list A)) :=
  match arrays with
  | [] => Exc ValueError
  | _ => Val [concat arrays]
  end.

(** What [engine_forward] returns: the array of tokens, the array of
    logits with one batch row, and the array of one session id. *)
Definition engine_output : Type :=
  tokens_array * list (list logit_row) * list (option string).

Definition engine_forward (fuel : nat) (self : TextGenerationPipeline)
  (engine_inputs : list item) (ctx : context) : M engine_output :=
  if cache_support_enabled self then
    '(session_id, engine_inputs) ← lift (pop_session_id engine_inputs);
    '(tokens0, prompt_logits) ← prompt_inference self engine_inputs session_id;
    streamer_put ctx tokens0;;
    last_token ← lift (of_option IndexError (last tokens0));
    let g := {| tokens := tokens0;
                generated_tokens := [last_token];
                generated_logits :=
                  if include_prompt_logits ctx then prompt_logits else [] |} in
    g ← generate_loop fuel self ctx session_id g;
    autoregressive_inference self (tokens g) session_id;;
    (if streamer ctx then log StreamerEnd else mret ());;
    logits ← lift (concatenate_axis1 (generated_logits g));
    mret (Tokens2 [generated_tokens g], logits, [Some session_id])
  else
    '(tokens, prompt_logits) ← call_engine Multitoken engine_inputs None;
    mret (Tokens1 [tokens], [prompt_logits], [None]).

(** *** Construction *)

(** [initialize_engines] *)
Definition initialize_engines (self : TextGenerationPipeline)
  : pyres (option (NLDecoderEngine internals)
           * option (NLDecoderEngine internals)) :=
  (if cache_support_enabled self then
     if bool_decide (engine_type self = DEEPSPARSE_ENGINE)
        && bool_decide (sequence_length self
                        ≤ prompt_processing_sequence_length self)
        && enable_multitoken_prefill self
     then Exc ValueError
     else Val ()
   else Val ());;
  let multitoken_engine :=
    if (cache_support_enabled self && enable_multitoken_prefill self)
       || negb (cache_support_enabled self)
    then Some (construct (sequence_length self)
                 (prompt_processing_sequence_length self)
                 (use_deepsparse_cache self))
    else None in
  let engine :=
    if cache_support_enabled self
    then Some (construct (sequence_length self) 1 (use_deepsparse_cache self))
    else None in
  Val (engine, multitoken_engine).

(** [__init__]: the pipeline object and its engines, or the exception.
    [self.engine_type], set by the parent constructor, is the [engine_type]
    keyword argument; a tokenizer without pad token gets its end-of-sequence
    token as pad token. *)
Definition init (args : init_args) : pyres (TextGenerationPipeline * world) :=
  let kwargs_engine_type := default DEEPSPARSE_ENGINE (arg_engine_type args) in
  let use_deepsparse_cache :=
    if arg_use_deepsparse_cache args
    then bool_decide (kwargs_engine_type = DEEPSPARSE_ENGINE)
    else false in
  let enable_multitoken_prefill := causal_mask_input_present args in
  let cache_support_enabled := is_cache_support_enabled args in
  (if negb cache_support_enabled then
     match arg_max_generated_tokens args with
     | None => Exc TypeError
     | Some n => if decide (n > 1) then Exc ValueError else Val ()
     end
   else Val ());;
  let self :=
    {| engine_type := kwargs_engine_type;
       sequence_length := arg_sequence_length args;
       enable_multitoken_prefill := enable_multitoken_prefill;
       cache_support_enabled := cache_support_enabled;
       deterministic := arg_deterministic args;
       max_generated_tokens := arg_max_generated_tokens args;
       prompt_processing_sequence_length :=
         arg_prompt_processing_sequence_length args;
       force_max_tokens := arg_force_max_tokens args;
       use_deepsparse_cache := use_deepsparse_cache;
       eos_token_id := tokenizer_eos_token_id args;
       pad_token_id :=
         match tokenizer_pad_token_id args with
         | None => tokenizer_eos_token_id args
         | Some t => Some t
         end;
       has_add_bos_token := tokenizer_has_add_bos_token args |} in
  '(engine, multitoken_engine) ← initialize_engines self;
  Val (self, World engine multitoken_engine []).

(** *** Splitting a batch and joining the outputs *)

Section Split.
(** The function [split_engine_inputs] that the method calls is the
    generic splitter of arrays, [deepsparse.utils.data.split_engine_inputs],
    imported from outside the sources at hand: a parameter here. *)
Variable generic_split :
  list item → Z → pyres (list (list item) * Z).

(** [batch + [session_ids[i]]]; [session_ids] is [None] when the
    items hold no list. *)
Definition with_session_id (session_ids : option (list string))
  (i : nat) (batch : list item) : pyres (list item) :=
  match session_ids with
  | None => Exc TypeError
  | Some ids => s ← of_option IndexError (ids !! i); Val (batch ++ [ItemId s])
  end.

Fixpoint distribute (session_ids : option (list string)) (i : nat)
  (batches : list (list item)) : pyres (list (list item)) :=
  match batches with
  | [] => Val []
  | batch :: rest =>
      b ← with_session_id session_ids i batch;
      bs ← distribute session_ids (S i) rest;
      Val (b :: bs)
  end.

(** [next((item for item in items if isinstance(item, list)), None)] *)
Fixpoint first_list (items : list item) : option (list string) :=
  match items with
  | [] => None
  | ItemIds l :: _ => Some l
  | _ :: rest => first_list rest
  end.

Definition split_engine_inputs (items : list item) (batch_size : Z)
  : pyres (list (list item) * Z) :=
  let session_ids := first_list items in
  let items := filter (λ x, is_list x = false) items in
  '(batches, orig_batch_size) ← generic_split items batch_size;
  batches_w_session_ids ← distribute session_ids 0 batches;
  Val (batches_w_session_ids, orig_batch_size).
End Split.

(** [tokens, logits, session_ids = zip] of the starred [batch_outputs]:
    unpacking raises on an empty list. *)
Definition unzip3 (batch_outputs : list engine_output)
  : pyres (list tokens_array * list (list (list logit_row))
           * list (list (option string))) :=
  match batch_outputs with
  | [] => Exc ValueError
  | _ => Val ((λ o, o.1.1) <$> batch_outputs,
              (λ o, o.1.2) <$> batch_outputs,
              (λ o, o.2) <$> batch_outputs)
  end.

(** [max([a.shape[1] for a in arrays])] on a non-empty list *)
Definition max_len {A} (arrays : list (list (list A))) : nat :=
  foldr Nat.max 0%nat (shape1 <$> arrays).

Fixpoint pad_all {A} (arrays : list (list (list A))) (len : nat) (value : A)
  : pyres (list (list (list A))) :=
  match arrays with
  | [] => Val []
  | a :: rest =>
      x ← of_option ValueError (Helpers.pad_to_fixed_length a len value);
      xs ← pad_all rest len value;
      Val (x :: xs)
  end.

(** [numpy.concatenate(arrays, axis=0)] of 2-d or 3-d arrays: their
    sizes on axis 1 have to agree. *)
Definition concatenate_axis0 {A} (arrays : list (list (list A)))
  : pyres (list (list A)) :=
  match arrays with
  | [] => Exc ValueError
  | a :: _ =>
      if decide (Forall (λ b, shape1 b = shape1 a) arrays)
      then Val (concat arrays)
      else Exc ValueError
  end.

(** [[token.shape[1] for token in tokens]] needs 2-d arrays: a 1-d array
    has no axis 1. *)
Fixpoint as_2d (arrays : list tokens_array) : pyres (list (list (list token))) :=
  match arrays with
  | [] => Val []
  | Tokens2 a :: rest => xs ← as_2d rest; Val (a :: xs)
  | Tokens1 _ :: _ => Exc IndexError
  end.

(** [pad_to_fixed_length(array=prediction, max_len=max_len,
    value=self.tokenizer.pad_token_id, axis=1)]: after the pad width has
    been checked, [numpy.pad] assigns the constant to the padded area, of
    whatever width, and on an array of integers the constant [None] is
    rejected; an array that holds a [None] is an array of objects and takes
    it. *)
Definition pad_tokens (array : list (list token)) (max_len : nat) (value : token)
  : pyres (list (list token)) :=
  padded ← of_option ValueError (Helpers.pad_to_fixed_length array max_len value);
  match value with
  | Some _ => Val padded
  | None =>
      if bool_decide (None ∈ concat array) then Val padded else Exc TypeError
  end.

Fixpoint pad_all_tokens (arrays : list (list (list token))) (len : nat)
  (value : token) : pyres (list (list (list token))) :=
  match arrays with
  | [] => Val []
  | a :: rest =>
      x ← pad_tokens a len value;
      xs ← pad_all_tokens rest len value;
      Val (x :: xs)
  end.

(** [numpy.concatenate(tokens, axis=0)]: the arrays have to be all 1-d or
    all 2-d, the latter with the same size on axis 1. *)
Definition row_of_tokens (a : tokens_array) : option (list token) :=
  match a with Tokens1 l => Some l | Tokens2 _ => None end.
Definition rows_of_tokens (a : tokens_array) : option (list (list token)) :=
  match a with Tokens2 a => Some a | Tokens1 _ => None end.

Definition concatenate_tokens (arrays : list tokens_array) : pyres tokens_array :=
  match arrays with
  | [] => Exc ValueError
  | Tokens1 _ :: _ =>
      rows ← of_option ValueError (mapM row_of_tokens arrays);
      Val (Tokens1 (concat rows))
  | Tokens2 _ :: _ =>
      arrays ← of_option ValueError (mapM rows_of_tokens arrays);
      a ← concatenate_axis0 arrays;
      Val (Tokens2 a)
  end.

(** [join_engine_outputs] *)
Definition join_engine_outputs (self : TextGenerationPipeline)
  (batch_outputs : list engine_output) (orig_batch_size : Z)
  : pyres engine_output :=
  '(tokens, logits, session_ids) ← unzip3 batch_outputs;
  '(tokens, logits) ←
    (if cache_support_enabled self then
       arrays ← as_2d tokens;
       arrays ← pad_all_tokens arrays (max_len arrays) (pad_token_id self);
       logits ← pad_all logits (max_len logits) zero_row;
       Val (fmap (M:=list) Tokens2 arrays, logits)
     else Val (tokens, logits));
  tokens ← concatenate_tokens tokens;
  logits ← concatenate_axis0 logits;
  Val (tokens, logits, concat session_ids).

End WithEngine.

Arguments Ok {_ A} a w.
Arguments Raise {_ A} e w.
Arguments OutOfFuel {_ A}.

(** Modelled from the spec: [deepsparse.utils.data.split_engine_inputs],
    which partitions the arrays along the batch axis into sub-batches of the
    fixed size [batch_size] and returns them with the original batch size.
    When [batch_size] does not divide the batch, the last sub-batch is
    filled up to [batch_size] rows by repeating its last row.  Its code is
    not part of the sources at hand. *)
Definition rows_of (x : item) : pyres nat :=
  match x with
  | ItemArray (Arr2 a) => Val (length a)
  | ItemArray (Arr4 a) => Val (length a)
  | ItemArray (ArrObj a) => Val (length a)
  | _ => Exc AttributeError
  end.

Definition slice_item (start stop : nat) (x : item) : pyres item :=
  match x with
  | ItemArray (Arr2 a) => Val (ItemArray (Arr2 (slice a start stop)))
  | ItemArray (Arr4 a) => Val (ItemArray (Arr4 (slice a start stop)))
  | ItemArray (ArrObj a) => Val (ItemArray (ArrObj (slice a start stop)))
  | _ => Exc TypeError
  end.

Fixpoint slice_items (start stop : nat) (items : list item) : pyres (list item) :=
  match items with
  | [] => Val []
  | x :: rest =>
      y ← slice_item start stop x; ys ← slice_items start stop rest; Val (y :: ys)
  end.

Definition fill_rows {A} (k : nat) (a : list A) : list A :=
  match last a with
  | Some row => a ++ replicate (k - length a) row
  | None => a
  end.

Definition fill_item (k : nat) (x : item) : item :=
  match x with
  | ItemArray (Arr2 a) => ItemArray (Arr2 (fill_rows k a))
  | ItemArray (Arr4 a) => ItemArray (Arr4 (fill_rows k a))
  | ItemArray (ArrObj a) => ItemArray (ArrObj (fill_rows k a))
  | _ => x
  end.

Fixpoint sub_batches (n : nat) (start k : nat) (items : list item)
  : pyres (list (list item)) :=
  match n with
  | O => Val []
  | S n' =>
      b ← slice_items start (start + k) items;
      bs ← sub_batches n' (start + k) k items;
      Val ((match n' with
            | O => fmap (M:=list) (fill_item k) b
            | S _ => b
            end) :: bs)
  end.

Definition data_split_engine_inputs (items : list item) (batch_size : Z)
  : pyres (list (list item) * Z) :=
  x0 ← of_option IndexError (items !! 0%nat);
  total_batch_size ← rows_of x0;
  if decide (batch_size = 0) then Exc ValueError
  else if decide (batch_size < 0) then Val ([], Z.of_nat total_batch_size)
  else
    let k := Z.to_nat batch_size in
    batches ← sub_batches ((total_batch_size + k - 1) `div` k) 0 k items;
    Val (batches, Z.of_nat total_batch_size).

End TextGeneration.

(** ** A small engine to run the pipeline on

    Its internal state is the list of tokens it will emit, one per call (then
    [0] for ever); the logits of a call are one row per input token, holding
    the emitted token.  A call under a session id adds its input tokens to the
    rows of that session and advances its timestamp. *)

Module Toy.
Import Np Py SessionStore TextGeneration.

Definition all_names : list string :=
  ["input_ids"; "attention_mask"; "positions"; "causal_mask"].

Definition toy_construct (sequence_length input_ids_length : Z)
  (use_deepsparse_cache : bool) : NLDecoderEngine (list Z) :=
  {| kv_cache_storage := ∅;
     onnx_input_names_no_cache := all_names;
     input_ids_length := input_ids_length;
     engine_internals := [] |}.

Definition touch (store : gmap string session) (session_id : option string)
  (rows : Z) : gmap string session :=
  match session_id with
  | None => store
  | Some s =>
      let old := default (Session s 0 0) (store !! s) in
      <[s := Session s (timestamp old + 1) (valid_row_count old + rows)]> store
  end.

Definition toy_invoke (e : NLDecoderEngine (list Z)) (engine_inputs : list item)
  (session_id : option string)
  : (gmap string session * list Z) * (token * list Z) :=
  let t := List.hd 0 (engine_internals e) in
  ((touch (kv_cache_storage e) session_id (input_ids_length e),
    drop 1 (engine_internals e)),
   (Some t, replicate (Z.to_nat (input_ids_length e)) t)).

Definition toy : EngineModel :=
  {| logit_row := Z;
     zero_row := 0;
     internals := list Z;
     construct := toy_construct;
     invoke := toy_invoke |}.

(** An engine object that will emit [script]. *)
Definition scripted (input_ids_length : Z) (store : gmap string session)
  (script : list Z) : NLDecoderEngine (list Z) :=
  {| kv_cache_storage := store;
     onnx_input_names_no_cache := all_names;
     input_ids_length := input_ids_length;
     engine_internals := script |}.

(** A cache-enabled pipeline with multitoken prefill: sequence length 8,
    chunks of 4 tokens, at most 10 generated tokens, end of sequence 2. *)
Definition pipeline (has_bos : bool) : TextGenerationPipeline :=
  {| engine_type := DEEPSPARSE_ENGINE;
     sequence_length := 8;
     enable_multitoken_prefill := true;
     cache_support_enabled := true;
     deterministic := true;
     max_generated_tokens := Some 10;
     prompt_processing_sequence_length := 4;
     force_max_tokens := false;
     use_deepsparse_cache := true;
     eos_token_id := Some 2;
     pad_token_id := Some 2;
     has_add_bos_token := has_bos |}.

(** The engine inputs of a left-padded prompt of three tokens. *)
Definition prompt3 : list item :=
  [ ItemArray (Arr2 [[0; 0; 0; 0; 0; 11; 12; 13]]);
    ItemArray (Arr2 [[0; 0; 0; 0; 0; 1; 1; 1]]) ].

Definition no_streamer : context :=
  {| streamer := false; include_prompt_logits := false |}.

End Toy.

(** ** Request inputs: session ids, repeated sequences, positions *)

Module Inputs.
Import Np Py.

(** [repeat_inputs]: [numpy.repeat([seq], n)] is [n] copies of [seq], and
    raises for a negative [n]. *)
Fixpoint repeat_inputs (input_sequences : list string)
  (num_generated_predictions : Z) : pyres (list string) :=
  match input_sequences with
  | [] => Val []
  | seq :: rest =>
      if decide (num_generated_predictions < 0) then Exc ValueError
      else
        repeated ← repeat_inputs rest num_generated_predictions;
        Val (replicate (Z.to_nat num_generated_predictions) seq ++ repeated)
  end.

(** [session_ids : Union[None, List[str], str]] *)
Inductive session_ids_arg : Type :=
| NoIds
| OneId (s : string)
| IdList (l : list string).

(** [sequences : Union[str, List[str]]] *)
Inductive sequences_arg : Type :=
| OneSequence (s : string)
| Sequences (l : list string).

(** [validate_session_ids(session_ids, other_attributes)];
    [other_attributes["sequences"]] raises [KeyError] when the dictionary
    has no such key ([None]).  [len(set(session_ids))] is the number of
    distinct ids. *)
Definition validate_session_ids (session_ids : session_ids_arg)
  (sequences : option sequences_arg) : pyres (option (list string)) :=
  match session_ids with
  | NoIds => Val None
  | _ =>
      let session_ids :=
        match session_ids with
        | IdList l => l
        | OneId s => [s]
        | NoIds => []
        end in
      seqs ← of_option KeyError sequences;
      (match seqs with
       | OneSequence _ =>
           if decide (length session_ids ≠ 1%nat) then Exc ValueError else Val ()
       | Sequences l =>
           if decide (length session_ids ≠ length l) then Exc ValueError
           else Val ()
       end);;
      if decide (length session_ids ≠ length (remove_dups session_ids))
      then Exc ValueError
      else Val (Some session_ids)
  end.

(** [numpy.cumsum] of a row, started from [acc]. *)
Fixpoint cumsum_from (acc : Z) (row : list Z) : list Z :=
  match row with
  | [] => []
  | x :: rest => (acc + x) :: cumsum_from (acc + x) rest
  end.

(** The positions that [process_inputs] derives from the attention mask:
    [positions = attention_mask.cumsum(1) * attention_mask; positions -= 1]. *)
Definition positions_row (mask_row : list Z) : list Z :=
  zip_with (λ c m, c * m - 1) (cumsum_from 0 mask_row) mask_row.

Definition positions (attention_mask : list (list Z)) : list (list Z) :=
  positions_row <$> attention_mask.

End Inputs.

(** ** Notions used to state the properties *)

Module Notions.
Import Np Py SessionStore TextGeneration.

(** The number of zeros at the left end of a row. *)
Fixpoint leading_zeros (row : list Z) : nat :=
  match row with
  | 0 :: rest => S (leading_zeros rest)
  | _ => 0%nat
  end.

(** The entry of the causal mask before zeroing at row [i], column [j],
    for [input_ids_length] new tokens out of [sequence_length]: one on the
    past columns and on the lower triangle of the last columns. *)
Definition past_or_lower (input_ids_length sequence_length i j : nat) : Z :=
  if decide (j < sequence_length - input_ids_length)%nat then 1
  else if decide (j - (sequence_length - input_ids_length) ≤ i)%nat then 1
  else 0.

(** The statement "the first [z] columns are zero and the columns from
    [z] on are as before the zeroing", for a mask and a number [z]. *)
Definition zeroes_first_columns_only (input_ids : Helpers.ids_arg)
  (attention_mask : list (list Z)) (z : nat) : Prop :=
  ∀ cm unz,
    Helpers.create_causal_mask input_ids (Helpers.MaskArray attention_mask) = Some cm →
    Helpers.causal_mask_unzeroed (Helpers.ids_shape input_ids).1 (Helpers.ids_shape input_ids).2
      (shape1 attention_mask) = Some unz →
    ∀ b i j x, get4 cm b 0 i j = Some x →
      ((j < z)%nat → x = 0) ∧ ((z ≤ j)%nat → get4 unz b 0 i j = Some x).




(** The number of rows of an array, and its row [i] as an array of one row. *)
Definition rows (a : ndarray) : nat :=
  match a with
  | Arr2 r => length r
  | Arr4 r => length r
  | ArrObj r => length r
  end.



(** A row padded on the right up to [len] entries. *)
Definition padded {A} (len : nat) (value : A) (row : list A) : list A :=
  row ++ replicate (len - length row) value.

(** The session ids of a request as a list, a single id being a list of
    one, and the number of input sequences, one for a single string. *)
Definition id_list (session_ids : Inputs.session_ids_arg) : list string :=
  match session_ids with
  | Inputs.NoIds => []
  | Inputs.OneId s => [s]
  | Inputs.IdList l => l
  end.

Definition num_sequences (sequences : Inputs.sequences_arg) : nat :=
  match sequences with
  | Inputs.OneSequence _ => 1%nat
  | Inputs.Sequences l => length l
  end.

(** The number of entries of [l] equal to [x]. *)
Definition occurrences (x : string) (l : list string) : nat :=
  length (filter (λ y, y = x) l).

(** The number of non-zero entries of a row. *)
Definition count_nonzero (row : list Z) : nat :=
  length (filter (λ x, x ≠ 0) row).

(** A 4-d array has the shape [(b, c, r, k)]. *)
Definition has_shape4 (b c r k : nat) (t : list (list (list (list Z)))) : Prop :=
  length t = b
  ∧ Forall (λ plane, length plane = c
                     ∧ Forall (λ block, length block = r
                                        ∧ Forall (λ row, length row = k) block)
                         plane) t.

(** The entries of [ids_row] at the columns where [mask_row] is not zero. *)
Definition attended (ids_row mask_row : list Z) : list Z :=
  fst <$> filter (λ p, p.2 ≠ 0) (zip ids_row mask_row).

(** Every entry of a session store is kept under its own session id. *)
Definition keyed_by_id (store : gmap string session) : Prop :=
  ∀ k s, store !! k = Some s → id s = k.

(** The newer of the entries of the single-token and of the multitoken
    engine, an absent entry being older than any; the entry of the
    multitoken engine when they are equally old. *)
Definition newest (engine_session multitoken_session : option session)
  : option session :=
  if ts_gt (timestamp_of engine_session) (timestamp_of multitoken_session)
  then engine_session else multitoken_session.

Section WithEngine.
Context `{EngineModel}.

(** The calls of one engine among the events. *)
Definition is_invoke (target : which_engine) (ev : event) : bool :=
  match ev with
  | Invoke t _ _ => bool_decide (t = target)
  | _ => false
  end.

Definition invocations (target : which_engine) (evs : list event) : list event :=
  filter (λ ev, is_invoke target ev = true) evs.

(** The number of calls of one engine so far. *)
Definition calls (target : which_engine) (w : world) : nat :=
  length (invocations target (trace w)).

(** The input names that [autoregressive_inference] can serve. *)
Definition known_name (name : string) : Prop :=
  name = "input_ids" ∨ name = "attention_mask" ∨ name = "causal_mask"
  ∨ name = "positions".

(** The single-token engine exists, asks for known inputs only, and the
    sequence length is a length. *)
Definition ready (self : TextGenerationPipeline) (w : world) : Prop :=
  ∃ e, engine w = Some e
       ∧ Forall known_name (onnx_input_names_no_cache e)
       ∧ 0 ≤ sequence_length self.

(** The engine inputs of a single-token call on the token [z]: there are a
    mask and a position such that the inputs are those of the input names,
    [input_ids] being [[z]]. *)
Definition single_token_inputs (names : list string) (z : Z)
  (engine_inputs : list item) : Prop :=
  ∃ attention_mask causal_mask positions,
    lookup_all
      (engine_inputs_map (Arr2 [[z]]) attention_mask causal_mask positions)
      names = Val engine_inputs.

(** The same for a token that may be [None]: [input_ids] is then the array
    of objects [[None]]. *)
Definition step_inputs (names : list string) (t : token)
  (engine_inputs : list item) : Prop :=
  ∃ attention_mask causal_mask positions,
    lookup_all
      (engine_inputs_map (token_array [t]) attention_mask causal_mask positions)
      names = Val engine_inputs.

(** The world after a call of the single-token engine on [inputs]. *)
Definition after_call (e : NLDecoderEngine internals) (inputs : list item)
  (sid : string) (w : world) : world :=
  World (Some {| kv_cache_storage := (invoke e inputs (Some sid)).1.1;
                 onnx_input_names_no_cache := onnx_input_names_no_cache e;
                 input_ids_length := input_ids_length e;
                 engine_internals := (invoke e inputs (Some sid)).1.2 |})
        (multitoken_engine w)
        (trace w ++ [Invoke SingleToken inputs (Some sid)]).

(** An engine object with another session store. *)
Definition with_store (e : NLDecoderEngine internals)
  (store : gmap string session) : NLDecoderEngine internals :=
  {| kv_cache_storage := store;
     onnx_input_names_no_cache := onnx_input_names_no_cache e;
     input_ids_length := input_ids_length e;
     engine_internals := engine_internals e |}.

(** The world after [synchronize_engines session_id] when the engines are
    [e] (single-token) and [m] (multitoken). *)
Definition synced (session_id : string) (e m : NLDecoderEngine internals)
  (w : world) : world :=
  let engine_session := kv_cache_storage e !! session_id in
  let multitoken_session := kv_cache_storage m !! session_id in
  let newer :=
    ts_gt (timestamp_of engine_session) (timestamp_of multitoken_session) in
  World
    (Some (with_store e (transfer (kv_cache_storage e) multitoken_session).1))
    (Some (if newer
           then with_store m (transfer (kv_cache_storage m) engine_session).1
           else m))
    (trace w
     ++ (if newer
         then [Transfer Multitoken engine_session
                 (transfer (kv_cache_storage m) engine_session).2]
         else [])
     ++ [Transfer SingleToken multitoken_session
           (transfer (kv_cache_storage e) multitoken_session).2]).

(** The stores of the two engines, when both exist. *)
Definition stores (w : world)
  : option (gmap string session * gmap string session) :=
  e ← engine w; m ← multitoken_engine w;
  Some (kv_cache_storage e, kv_cache_storage m).

(** The transfers among the events that wrote a store. *)
Definition is_write (ev : event) : bool :=
  match ev with
  | Transfer _ _ written => written
  | _ => false
  end.

Definition writes (evs : list event) : list event :=
  filter (λ ev, is_write ev = true) evs.

(** The world with one more event. *)
Definition logged (ev : event) (w : world) : world :=
  World (engine w) (multitoken_engine w) (trace w ++ [ev]).

(** The world after [streamer.put(tokens)] and after [streamer.end()], for a
    request with or without a streamer. *)
Definition put_world (ctx : context) (tokens : list token) (w : world) : world :=
  if streamer ctx then logged (StreamerPut tokens) w else w.

Definition end_world (ctx : context) (w : world) : world :=
  if streamer ctx then logged StreamerEnd w else w.

(** The generation steps that start from the context [tokens] in the world
    [w] produce the tokens and logits [outs] in turn, each token being
    appended to the context and put to the streamer, and leave the world
    [w_final]. *)
Fixpoint generates (self : TextGenerationPipeline) (ctx : context)
  (session_id : string) (tokens : list token) (w : world)
  (outs : list (Z * list logit_row)) (w_final : world) : Prop :=
  match outs with
  | [] => w_final = w
  | out :: rest =>
      ∃ w', autoregressive_inference self tokens session_id w
            = Ok (Some out.1, out.2) w'
            ∧ generates self ctx session_id (tokens ++ [Some out.1])
                (put_world ctx [Some out.1] w') rest w_final
  end.

(** The input names of the single-token engine, if there is one. *)
Definition engine_names (w : world) : list string :=
  from_option onnx_input_names_no_cache [] (engine w).

(** The events [evs] are single-token calls under [session_id], one per
    token of [tokens] and in their order, the call for a token [z] having
    [[z]] as its [input_ids]. *)
Definition one_call_per_token (names : list string) (session_id : string)
  (tokens : list token) (evs : list event) : Prop :=
  Forall2 (λ t ev, ∃ z inputs,
             t = Some z ∧ ev = Invoke SingleToken inputs (Some session_id)
             ∧ single_token_inputs names z inputs)
    tokens evs.

(** Whether the prompt is processed in chunks by the multitoken engine. *)
Definition chunked (self : TextGenerationPipeline) (tokens : list token) : bool :=
  bool_decide (Z.of_nat (length tokens) > prompt_processing_sequence_length self)
  && enable_multitoken_prefill self.


(** The value and the world of an outcome; there is none when the fuel of
    the model was exhausted, and no value when an exception was raised. *)
Definition result_of {A} (o : outcome A) : option A :=
  match o with
  | Ok a _ => Some a
  | _ => None
  end.

Definition world_of {A} (o : outcome A) : option world :=
  match o with
  | Ok _ w => Some w
  | Raise _ w => Some w
  | OutOfFuel => None
  end.

(** A computation never exhausts the fuel of the model. *)
Definition terminates {A} (c : M A) : Prop := ∀ w, c w ≠ OutOfFuel.

(** The calls of the streamer among the events, in order. *)
Definition is_streamer_call (ev : event) : bool :=
  match ev with
  | StreamerPut _ | StreamerEnd => true
  | _ => false
  end.

Definition streamer_calls (evs : list event) : list event :=
  filter (λ ev, is_streamer_call ev = true) evs.

(** The events of the generation steps that produce the tokens [more] under
    [session_id], in order: for each token the call of the single-token
    engine and then, when the request has a streamer, the [put] of that
    token. *)
Fixpoint generation_events (ctx : context) (session_id : string)
  (more : list token) (evs : list event) : Prop :=
  match more with
  | [] => evs = []
  | t :: more =>
      ∃ inputs evs',
        evs = Invoke SingleToken inputs (Some session_id)
              :: (if streamer ctx then [StreamerPut [t]] else []) ++ evs'
        ∧ generation_events ctx session_id more evs'
  end.

End WithEngine.

End Notions.

(** * Properties *)
Module HelpersFacts.
Import Np Helpers Notions.

Lemma chunks_concat {A} (k : nat) (m : list (list A)) :
  rectangular k m → chunks (length m) k (concat m) = m.
Proof.
  induction 1 as [|r m Hr _ IH]; [done|].
  cbn [length chunks concat]. subst k.
  by rewrite take_app_length, drop_app_length, IH.
Qed.

Lemma chunks_singletons {A} (l : list A) :
  chunks (length l) 1 l = (λ x, [x]) <$> l.
Proof.
  induction l as [|x l IH]; [done|].
  change (chunks (length (x :: l)) 1 (x :: l)) with ([x] :: chunks (length l) 1 l).
  by rewrite IH.
Qed.

Lemma length_concat_rectangular {A} (k : nat) (m : list (list A)) :
  rectangular k m → length (concat m) = (length m * k)%nat.
Proof.
  induction 1 as [|r m Hr _ IH]; [done|].
  cbn [concat length]. rewrite length_app, IH. lia.
Qed.

Lemma reshape_rows (k : nat) (m : list (list Z)) :
  rectangular k m →
  reshape4 (length m) 1 1 k (concat m) = Some ((λ row, [[row]]) <$> m).
Proof.
  intros Hm. unfold reshape4.
  rewrite (length_concat_rectangular k m Hm).
  rewrite decide_True by lia.
  replace (length m * 1 * 1)%nat with (length m) by lia.
  replace (length m * 1)%nat with (length m) by lia.
  rewrite (chunks_concat k m Hm).
  rewrite chunks_singletons.
  replace (length m) with (length ((λ x : list Z, [x]) <$> m)) at 1
    by apply length_fmap.
  rewrite chunks_singletons, <- list_fmap_compose. done.
Qed.

Lemma lookup_zero_left (n : nat) (row : list Z) (j : nat) :
  zero_left n row !! j
  = if decide (j < n)%nat then (λ _, 0) <$> row !! j else row !! j.
Proof.
  unfold zero_left. rewrite lookup_app, length_replicate.
  case_decide as Hj.
  - destruct (row !! j) as [x|] eqn:Hx.
    + apply lookup_lt_Some in Hx.
      rewrite lookup_replicate_2 by lia. done.
    + apply lookup_ge_None in Hx.
      rewrite (proj1 (lookup_replicate_None _ _ _)) by lia.
      rewrite lookup_drop. replace (n `min` length row)%nat with (length row) by lia.
      cbn. apply lookup_ge_None. lia.
  - rewrite (proj1 (lookup_replicate_None _ _ _)) by lia.
    rewrite lookup_drop.
    destruct (decide (n ≤ length row)%nat).
    + f_equal. lia.
    + rewrite !(proj2 (lookup_ge_None _ _)); [done| lia | lia].
Qed.

Lemma get4_zero_left_columns (n : nat) (t : list (list (list (list Z)))) b c i j :
  get4 (zero_left_columns n t) b c i j
  = if decide (j < n)%nat then (λ _, 0) <$> get4 t b c i j else get4 t b c i j.
Proof.
  unfold get4, zero_left_columns.
  rewrite list_lookup_fmap. destruct (t !! b) as [plane|]; cbn; [|by case_decide].
  rewrite list_lookup_fmap. destruct (plane !! c) as [block|]; cbn; [|by case_decide].
  rewrite list_lookup_fmap. destruct (block !! i) as [row|]; cbn; [|by case_decide].
  apply lookup_zero_left.
Qed.

Lemma lookup_replicate_dec {A} (n : nat) (x : A) (i : nat) :
  replicate n x !! i = if decide (i < n)%nat then Some x else None.
Proof.
  case_decide.
  - by apply lookup_replicate_2.
  - apply lookup_replicate_None. lia.
Qed.

Lemma get4_unzeroed (b l s : nat) (unz : list (list (list (list Z)))) bi i j :
  causal_mask_unzeroed b l s = Some unz →
  get4 unz bi 0 i j
  = if decide (bi < b ∧ i < l ∧ j < s)%nat then Some (past_or_lower l s i j)
    else None.
Proof.
  unfold causal_mask_unzeroed. case_decide as Hs; [done|].
  intros [= <-]. unfold get4, concat_last, ones4, tril4, past_or_lower.
  rewrite lookup_zip_with, !list_lookup_fmap, !lookup_replicate_dec.
  destruct (decide (bi < b)%nat) as [Hb|Hb]; cbn;
    [|rewrite decide_False by lia; done].
  rewrite lookup_zip_with, list_lookup_imap, !lookup_replicate_dec.
  destruct (decide (i < l)%nat) as [Hi|Hi]; cbn;
    [|rewrite decide_False by lia; done].
  unfold tril_row.
  rewrite lookup_app, length_replicate, list_lookup_imap, !lookup_replicate_dec.
  destruct (decide (j < s - l)%nat) as [Hj|Hj].
  { rewrite decide_True by lia. done. }
  destruct (decide (j - (s - l) < l)%nat) as [Hj'|Hj']; cbn.
  - rewrite decide_True by lia.
    destruct (Nat.leb_spec (j - (s - l)) i); case_decide; (done || lia).
  - rewrite decide_False by lia. done.
Qed.

Lemma leading_zeros_lookup (row : list Z) (j : nat) :
  (j < leading_zeros row)%nat → row !! j = Some 0.
Proof.
  revert j. induction row as [|x row IH]; intros j; cbn; [lia|].
  destruct x; try (cbn; lia).
  destruct j as [|j]; [done|]. cbn. intros Hj. apply IH. lia.
Qed.

Lemma count_zeros_left_padded (z : nat) (rest : list Z) :
  Forall (λ x, x ≠ 0) rest → count_zeros [replicate z 0 ++ rest] = z.
Proof.
  intros Hrest. unfold count_zeros. cbn [concat].
  rewrite app_nil_r, filter_app, length_app.
  assert (filter (λ x, x = 0) (replicate z 0) = replicate z 0) as ->.
  { induction z as [|z IH]; [done|]. cbn [replicate].
    rewrite filter_cons_True by done. by rewrite IH. }
  assert (filter (λ x, x = 0) rest = []) as ->.
  { induction Hrest as [|x rest Hx _ IH]; [done|].
    by rewrite filter_cons_False. }
  rewrite length_replicate. cbn. lia.
Qed.

Lemma create_causal_mask_single_token
  (input_ids : ids_arg) (attention_mask : mask_arg) :
  (ids_shape input_ids).2 = 1%nat →
  length (mask_shape attention_mask).2 = (ids_shape input_ids).1 →
  rectangular (mask_shape attention_mask).1 (mask_shape attention_mask).2 →
  create_causal_mask input_ids attention_mask
  = Some ((λ row, [[row]]) <$> (mask_shape attention_mask).2).
Proof.
  unfold create_causal_mask.
  destruct (ids_shape input_ids) as [batch_size input_ids_length].
  destruct (mask_shape attention_mask) as [sequence_length mask].
  cbn [fst snd]. intros -> <- Hrect.
  rewrite decide_True by done. by apply reshape_rows.
Qed.

Lemma create_causal_mask_multi_token
  (input_ids : ids_arg) (attention_mask : mask_arg)
  (cm : list (list (list (list Z)))) b i j :
  (ids_shape input_ids).2 ≠ 1%nat →
  create_causal_mask input_ids attention_mask = Some cm →
  get4 cm b 0 i j
  = if decide (b < (ids_shape input_ids).1 ∧ i < (ids_shape input_ids).2
               ∧ j < (mask_shape attention_mask).1)%nat
    then Some (if decide (j < count_zeros (mask_shape attention_mask).2)%nat
               then 0
               else past_or_lower (ids_shape input_ids).2
                      (mask_shape attention_mask).1 i j)
    else None.
Proof.
  unfold create_causal_mask.
  destruct (ids_shape input_ids) as [batch_size input_ids_length].
  destruct (mask_shape attention_mask) as [sequence_length mask].
  cbn [fst snd]. intros HL Hcm. rewrite decide_False in Hcm by done.
  destruct (causal_mask_unzeroed batch_size input_ids_length sequence_length)
    as [unz|] eqn:Hunz; [|done].
  cbn in Hcm. injection Hcm as <-.
  rewrite get4_zero_left_columns, (get4_unzeroed _ _ _ _ _ _ _ Hunz).
  repeat case_decide; done.
Qed.

End HelpersFacts.

Module HelpersSpec.
Import Np Helpers Notions HelpersFacts.

(** The two examples of the docstring of [create_causal_mask]. *)
Example docstring_1 :
  create_causal_mask (IdsArray [[1;2;3;4]]) (MaskArray [[1;1;1;1;1;1]])
  = Some [[[ [1;1;1;0;0;0]; [1;1;1;1;0;0]; [1;1;1;1;1;0]; [1;1;1;1;1;1] ]]].
Proof. reflexivity. Qed.

Example docstring_2 :
  create_causal_mask (IdsArray [[1;2;3;4]]) (MaskArray [[0;0;1;1;1;1;1;1]])
  = Some [[[ [0;0;1;1;1;0;0;0]; [0;0;1;1;1;1;0;0];
             [0;0;1;1;1;1;1;0]; [0;0;1;1;1;1;1;1] ]]].
Proof. reflexivity. Qed.

(** C4.  With one new token per item ([input_ids_length = 1]) and an
    attention mask of [batch_size] rows of [sequence_length] entries,
    [create_causal_mask] returns the attention mask reshaped to
    [[batch, 1, 1, S]]: entry [[b, 0, 0, s]] is entry [[b, s]] of the
    attention mask, and no triangular block is computed. *)
Theorem single_token_mask_is_reshaped_attention_mask
  (input_ids : ids_arg) (attention_mask : mask_arg) :
  (ids_shape input_ids).2 = 1%nat →
  length (mask_shape attention_mask).2 = (ids_shape input_ids).1 →
  rectangular (mask_shape attention_mask).1 (mask_shape attention_mask).2 →
  create_causal_mask input_ids attention_mask
  = reshape4 (ids_shape input_ids).1 1 1 (mask_shape attention_mask).1
      (concat (mask_shape attention_mask).2)
  ∧ create_causal_mask input_ids attention_mask
    = Some ((λ row, [[row]]) <$> (mask_shape attention_mask).2).
Proof.
  intros HL Hlen Hrect. split.
  - unfold create_causal_mask.
    destruct (ids_shape input_ids) as [batch_size input_ids_length].
    destruct (mask_shape attention_mask) as [sequence_length mask].
    cbn [fst snd] in *. by rewrite decide_True.
  - by apply create_causal_mask_single_token.
Qed.

Lemma single_token_mask_witness :
  create_causal_mask (IdsArray [[7]; [8]]) (MaskArray [[0;1;1]; [1;1;1]])
  = Some [ [[ [0;1;1] ]]; [[ [1;1;1] ]] ].
Proof.
  apply (single_token_mask_is_reshaped_attention_mask
           (IdsArray [[7]; [8]]) (MaskArray [[0;1;1]; [1;1;1]]));
    [reflexivity | reflexivity | repeat constructor].
Defined.

(** C3, as stated, fails.  A batch of two left-padded rows, each with one
    leading zero and no other zero: two zero entries are counted, so two
    columns are zeroed, and column 1 does not keep its value.  The same
    happens for a single row with one leading zero and a zero further to
    the right. *)
Lemma zeroed_columns_exceed_leading_zeros :
  (Forall (λ row, leading_zeros row = 1%nat) [[0;1;1]; [0;1;1]]
   ∧ create_causal_mask (IdsArray [[5;6]; [7;8]]) (MaskArray [[0;1;1]; [0;1;1]])
     = Some [ [[ [0;0;0]; [0;0;1] ]]; [[ [0;0;0]; [0;0;1] ]] ]
   ∧ ¬ zeroes_first_columns_only (IdsArray [[5;6]; [7;8]]) [[0;1;1]; [0;1;1]] 1)
  ∧ (leading_zeros [0;1;0;1] = 1%nat
     ∧ create_causal_mask (IdsArray [[5;6]]) (MaskArray [[0;1;0;1]])
       = Some [ [[ [0;0;1;0]; [0;0;1;1] ]] ]
     ∧ ¬ zeroes_first_columns_only (IdsArray [[5;6]]) [[0;1;0;1]] 1).
Proof.
  split; (split; [by repeat constructor|]); (split; [reflexivity|]);
    intros Hclaim.
  - destruct (Hclaim _ _ eq_refl eq_refl 0%nat 0%nat 1%nat 0 eq_refl)
      as [_ Hkeep].
    specialize (Hkeep (le_n _)). discriminate Hkeep.
  - destruct (Hclaim _ _ eq_refl eq_refl 0%nat 0%nat 1%nat 0 eq_refl)
      as [_ Hkeep].
    specialize (Hkeep (le_n _)). discriminate Hkeep.
Qed.

(** C3, amended.  For [input_ids_length ≠ 1], the first [n0] columns of
    the causal mask are zero across all rows, where [n0] is the number of
    zero entries of the whole attention mask, and every column from [n0] on
    keeps the value it had before the zeroing (one on the past columns and
    on the lower triangle).  For an attention mask of one row whose zeros
    are exactly its [z] leading entries, [n0 = z].  For
    [input_ids_length = 1] nothing is zeroed: row [b] of the result is row
    [b] of the attention mask, so its first entries are zero as far as the
    leading zeros of that row go. *)
Theorem causal_mask_zeroes_counted_columns
  (input_ids : ids_arg) (attention_mask : mask_arg)
  (cm : list (list (list (list Z)))) :
  create_causal_mask input_ids attention_mask = Some cm →
  let batch_size := (ids_shape input_ids).1 in
  let input_ids_length := (ids_shape input_ids).2 in
  let sequence_length := (mask_shape attention_mask).1 in
  let mask := (mask_shape attention_mask).2 in
  let n0 := count_zeros mask in
  (input_ids_length ≠ 1%nat →
     (∀ b i j, (b < batch_size)%nat → (i < input_ids_length)%nat →
               (j < sequence_length)%nat →
        get4 cm b 0 i j
        = Some (if decide (j < n0)%nat then 0
                else past_or_lower input_ids_length sequence_length i j))
     ∧ (∀ z rest, mask = [replicate z 0 ++ rest] →
                  Forall (λ x, x ≠ 0) rest → n0 = z))
  ∧ (input_ids_length = 1%nat → length mask = batch_size →
     rectangular sequence_length mask →
     ∀ b row, mask !! b = Some row →
       (∀ j, get4 cm b 0 0 j = row !! j)
       ∧ (∀ j, (j < leading_zeros row)%nat → get4 cm b 0 0 j = Some 0)).
Proof.
  intros Hcm. cbn zeta. split.
  - intros HL. split.
    + intros b i j Hb Hi Hj.
      rewrite (create_causal_mask_multi_token _ _ _ b i j HL Hcm).
      by rewrite decide_True.
    + intros z rest -> Hrest. by apply count_zeros_left_padded.
  - intros HL Hlen Hrect b row Hrow.
    rewrite (create_causal_mask_single_token _ _ HL Hlen Hrect) in Hcm.
    injection Hcm as <-.
    assert (∀ j, get4 ((λ row, [[row]]) <$> (mask_shape attention_mask).2) b 0 0 j
                 = row !! j) as Hget.
    { intros j. unfold get4. rewrite list_lookup_fmap, Hrow. done. }
    split; [done|].
    intros j Hj. rewrite Hget. by apply leading_zeros_lookup.
Qed.

Lemma causal_mask_zeroes_counted_columns_witness :
  get4 [[[ [0;0;1;1;1;0;0;0]; [0;0;1;1;1;1;0;0];
           [0;0;1;1;1;1;1;0]; [0;0;1;1;1;1;1;1] ]]] 0 0 1 5
  = Some (if decide (5 < 2)%nat then 0 else past_or_lower 4 8 1 5).
Proof.
  apply (causal_mask_zeroes_counted_columns
           (IdsArray [[1;2;3;4]]) (MaskArray [[0;0;1;1;1;1;1;1]]) _ eq_refl);
    [discriminate | cbn; lia | cbn; lia | cbn; lia].
Defined.

End HelpersSpec.

Module RunFacts.
Import Np Py SessionStore TextGeneration Notions HelpersFacts.

Section WithEngine.
Context `{EngineModel}.

Lemma bind_eq {A B} (c : M A) (f : A → M B) (w : world) :
  (c ≫= f) w
  = match c w with
    | Ok a w' => f a w'
    | Raise e w' => Raise e w'
    | OutOfFuel => OutOfFuel
    end.
Proof. reflexivity. Qed.

(** Unfold the monad and split on every test in sight. *)
Ltac run_cases :=
  unfold lift, attr_of, get_engine, set_engine, log, raise in *;
  unfold mbind, M_bind, mret, M_ret in *;
  repeat (case_match; simplify_eq/=; try done).

Lemma invocations_app target (evs evs' : list event) :
  invocations target (evs ++ evs') = invocations target evs ++ invocations target evs'.
Proof. apply filter_app. Qed.

Lemma calls_log target (w : world) (ev : event) :
  calls target (World (engine w) (multitoken_engine w) (trace w ++ [ev]))
  = (calls target w + if is_invoke target ev then 1 else 0)%nat.
Proof.
  unfold calls, invocations. cbn [trace]. rewrite filter_app, length_app.
  f_equal. destruct (is_invoke target ev) eqn:Hev.
  - by rewrite filter_cons_True.
  - rewrite filter_cons_False; [done|]. by rewrite Hev.
Qed.

(** *** [ones_from_right] and the single-token mask *)

Lemma ones_from_right_row (len n : Z) :
  0 ≤ len →
  ∃ row, ones_from_right len n = Val [row] ∧ length row = Z.to_nat len.
Proof.
  intros Hlen. unfold ones_from_right. rewrite decide_False by lia.
  eexists. split; [done|].
  rewrite length_app, !length_replicate.
  unfold slice_start. case_decide; lia.
Qed.

Lemma single_token_causal_mask (z : Z) (row : list Z) :
  Helpers.create_causal_mask (Helpers.IdsArray [[z]]) (Helpers.MaskArray [row])
  = Some [[[row]]].
Proof.
  apply (create_causal_mask_single_token (Helpers.IdsArray [[z]])
           (Helpers.MaskArray [row])); [done | done | by repeat constructor].
Qed.

Lemma step_causal_mask (t : token) (row : list Z) :
  (ids ← ids_of (token_array [t]);
   of_option ValueError
     (Helpers.create_causal_mask ids (Helpers.MaskArray [row])))
  = Val [[[row]]].
Proof.
  destruct t as [z|]; cbn [token_array int_row mbind option_bind ids_of pyres_bind].
  - by rewrite single_token_causal_mask.
  - rewrite (create_causal_mask_single_token (Helpers.IdsObjects [[None]])
               (Helpers.MaskArray [row])); [done | done | done | by repeat constructor].
Qed.

Lemma lookup_all_known (f_ids : ndarray) (f_mask : list (list Z)) cm pos
  (names : list string) :
  Forall known_name names →
  ∃ inputs, lookup_all (engine_inputs_map f_ids f_mask cm pos) names = Val inputs.
Proof.
  induction 1 as [|name names Hname _ [inputs IH]]; [by eexists|].
  cbn [lookup_all]. rewrite IH.
  unfold engine_inputs_map.
  destruct Hname as [-> | [-> | [-> | ->]]]; cbn; by eexists.
Qed.

Lemma engine_inputs_map_known (f_ids : ndarray) (f_mask : list (list Z)) cm pos
  name x :
  engine_inputs_map f_ids f_mask cm pos name = Val x → known_name name.
Proof.
  unfold engine_inputs_map, known_name. repeat case_decide; auto. done.
Qed.

Lemma lookup_all_Val_known (f_ids : ndarray) (f_mask : list (list Z)) cm pos
  (names : list string) inputs :
  lookup_all (engine_inputs_map f_ids f_mask cm pos) names = Val inputs →
  Forall known_name names.
Proof.
  revert inputs. induction names as [|name names IH]; intros inputs; [done|].
  cbn [lookup_all].
  destruct (engine_inputs_map f_ids f_mask cm pos name) as [x|] eqn:Hx; [|done].
  destruct (lookup_all _ names) as [l|] eqn:Hnames; [|done].
  intros _. constructor; [by eapply engine_inputs_map_known | by eapply IH].
Qed.

(** *** [autoregressive_inference] *)

Lemma autoregressive_inference_Ok_inv self tokens sid w out w' :
  autoregressive_inference self tokens sid w = Ok out w' →
  ∃ e t inputs,
    engine w = Some e ∧ last tokens = Some t
    ∧ Forall known_name (onnx_input_names_no_cache e)
    ∧ 0 ≤ sequence_length self
    ∧ step_inputs (onnx_input_names_no_cache e) t inputs
    ∧ out = (invoke e inputs (Some sid)).2
    ∧ w' = after_call e inputs sid w.
Proof.
  unfold autoregressive_inference, call_engine.
  intros Hrun. run_cases.
  match goal with Hl : lookup_all _ _ = Val _ |- _ =>
    pose proof (lookup_all_Val_known _ _ _ _ _ _ Hl) as Hknown end.
  match goal with Ho : ones_from_right _ _ = Val _ |- _ =>
    unfold ones_from_right in Ho; case_decide; [done|] end.
  match goal with Hi : invoke _ _ _ = _ |- _ => rename Hi into Hinv end.
  eexists _, _, _. repeat split; try done; try lia.
  - match goal with Hl : of_option IndexError _ = _ |- _ =>
      by destruct (last tokens); simplify_eq/= end.
  - by eexists _, _, _.
  - by rewrite Hinv.
  - unfold after_call. by rewrite Hinv.
Qed.

Lemma autoregressive_inference_ready self tokens sid w z :
  ready self w → last tokens = Some (Some z) →
  ∃ e inputs,
    engine w = Some e
    ∧ single_token_inputs (onnx_input_names_no_cache e) z inputs
    ∧ autoregressive_inference self tokens sid w
      = Ok (invoke e inputs (Some sid)).2 (after_call e inputs sid w).
Proof.
  intros (e & He & Hnames & HS) Hlast.
  destruct (autoregressive_inference self tokens sid w) as [out w'|x w'|] eqn:Hrun.
  - apply autoregressive_inference_Ok_inv in Hrun
      as (e' & z' & inputs & He' & Hlast' & _ & _ & Hin & -> & ->).
    simplify_eq. by exists e, inputs.
  - exfalso.
    unfold autoregressive_inference, call_engine in Hrun.
    run_cases;
      try (rewrite Hlast in *; simplify_eq/=);
      try (match goal with
           | Ho : ones_from_right _ _ = _ |- _ =>
               unfold ones_from_right in Ho; case_decide; [lia|]; simplify_eq/=
           end);
      try (match goal with
           | Hc : of_option _ (Helpers.create_causal_mask _ _) = _ |- _ =>
               rewrite single_token_causal_mask in Hc; simplify_eq/=
           end);
      try (match goal with
           | Hl : lookup_all (engine_inputs_map ?i ?m ?c ?p) _ = Exc _ |- _ =>
               destruct (lookup_all_known i m c p _ Hnames); congruence
           end).
  - unfold autoregressive_inference, call_engine in Hrun. by run_cases.
Qed.

Lemma ready_after_call self e inputs sid w :
  ready self w → engine w = Some e → ready self (after_call e inputs sid w).
Proof.
  intros (e' & He' & Hnames & HS) He. simplify_eq.
  eexists. split; [done|]. by split.
Qed.

Lemma calls_after_call e inputs sid w :
  calls SingleToken (after_call e inputs sid w) = S (calls SingleToken w)
  ∧ calls Multitoken (after_call e inputs sid w) = calls Multitoken w.
Proof.
  unfold after_call, calls, invocations. cbn [trace].
  rewrite !filter_app, !length_app. split.
  - rewrite filter_cons_True by reflexivity. cbn. lia.
  - rewrite filter_cons_False by (by vm_compute). cbn. lia.
Qed.

Lemma autoregressive_inference_calls self tokens sid w :
  match autoregressive_inference self tokens sid w with
  | Ok _ w' => calls SingleToken w' = S (calls SingleToken w)
               ∧ calls Multitoken w' = calls Multitoken w
  | Raise _ w' => w' = w
  | OutOfFuel => False
  end.
Proof.
  destruct (autoregressive_inference self tokens sid w) as [out w'|e w'|] eqn:Hrun.
  - apply autoregressive_inference_Ok_inv in Hrun
      as (e & z & inputs & _ & _ & _ & _ & _ & _ & ->).
    apply calls_after_call.
  - unfold autoregressive_inference, call_engine in Hrun. by run_cases.
  - unfold autoregressive_inference, call_engine in Hrun. by run_cases.
Qed.

(** *** [synchronize_engines] *)

Lemma synchronize_engines_eq sid w e m :
  engine w = Some e → multitoken_engine w = Some m →
  synchronize_engines sid w = Ok () (synced sid e m w).
Proof.
  intros He Hm.
  unfold synchronize_engines, transfer_cache_session, synced, with_store, get.
  unfold lift, attr_of, get_engine, set_engine, log, raise.
  unfold mbind, M_bind, mret, M_ret.
  rewrite He, Hm.
  destruct (ts_gt _ _) eqn:Hnewer; cbn [engine multitoken_engine trace].
  - rewrite Hm.
    destruct (transfer (kv_cache_storage m) _) as [store written].
    cbn [engine multitoken_engine trace]. rewrite He.
    destruct (transfer (kv_cache_storage e) _) as [store' written'].
    cbn [engine multitoken_engine trace fst snd].
    by rewrite <- app_assoc.
  - rewrite He.
    destruct (transfer (kv_cache_storage e) _) as [store' written'].
    cbn [engine multitoken_engine trace fst snd].
    by rewrite Hm.
Qed.

Lemma synchronize_engines_inv sid w :
  match synchronize_engines sid w with
  | Ok _ w' => ∃ e m, engine w = Some e ∧ multitoken_engine w = Some m
                      ∧ w' = synced sid e m w
  | Raise _ w' => w' = w
  | OutOfFuel => False
  end.
Proof.
  destruct (engine w) as [e|] eqn:He; [destruct (multitoken_engine w) as [m|] eqn:Hm|].
  - rewrite (synchronize_engines_eq sid w e m He Hm). by exists e, m.
  - unfold synchronize_engines. unfold attr_of, get_engine, raise.
    unfold mbind, M_bind, mret, M_ret. by rewrite He, Hm.
  - unfold synchronize_engines. unfold attr_of, get_engine, raise.
    unfold mbind, M_bind, mret, M_ret. by rewrite He.
Qed.

Lemma invocations_synced target sid e m w :
  invocations target (trace (synced sid e m w)) = invocations target (trace w).
Proof.
  unfold synced, invocations. cbn [trace]. rewrite !filter_app.
  destruct (ts_gt _ _); cbn; by rewrite ?app_nil_r.
Qed.

Lemma ready_synced self sid e m w :
  engine w = Some e → ready self w → ready self (synced sid e m w).
Proof.
  intros He (e' & He' & Hnames & HS). simplify_eq.
  eexists. split; [done|]. by split.
Qed.

End WithEngine.
End RunFacts.

(** ** Synchronizing the engines *)

Module SynchronizeSpec.
Import Np Py SessionStore TextGeneration Notions RunFacts Toy.

(** C2, as stated, fails.  Both stores hold an entry for ["s"] with timestamp
    5: [synchronize_engines] still transfers the multitoken engine's entry to
    the single-token engine, the transfer writes that store (the provided
    timestamp is not older), and here the entry changes from 3 to 7 rows. *)
Lemma resynchronizing_equal_timestamps_writes :
  let es := Session "s" 5 3 in
  let ms := Session "s" 5 7 in
  let w := @World toy (Some (scripted 1 {["s" := es]} []))
             (Some (scripted 4 {["s" := ms]} [])) [] in
  timestamp es = timestamp ms
  ∧ stores w = Some ({["s" := es]}, {["s" := ms]})
  ∧ ∃ w', @synchronize_engines toy "s" w = Ok () w'
          ∧ writes (trace w') = [Transfer SingleToken (Some ms) true]
          ∧ stores w' = Some ({["s" := ms]}, {["s" := ms]}).
Proof.
  cbv zeta. split; [done|]. split; [done|].
  eexists. split; [by apply (@synchronize_engines_eq toy)|].
  split; by vm_compute.
Qed.

(** C2, amended.  When both stores hold an entry for the session id and the
    two timestamps are equal, [synchronize_engines] does not write the
    multitoken engine's store and makes exactly one transfer: the multitoken
    engine's entry goes to the single-token engine, whose store is written
    with it.  The stores are left as they were when the two entries were
    equal already. *)
Theorem resynchronizing_equal_timestamps `{EngineModel}
  (sid : string) (w : world) (e m : NLDecoderEngine internals) (es ms : session) :
  engine w = Some e → multitoken_engine w = Some m →
  kv_cache_storage e !! sid = Some es →
  kv_cache_storage m !! sid = Some ms →
  id ms = sid →
  timestamp es = timestamp ms →
  ∃ w', synchronize_engines sid w = Ok () w'
        ∧ trace w' = trace w ++ [Transfer SingleToken (Some ms) true]
        ∧ multitoken_engine w' = Some m
        ∧ engine w' = Some (with_store e (<[sid := ms]> (kv_cache_storage e)))
        ∧ (es = ms → stores w' = stores w).
Proof.
  intros He Hm Hes Hms Hid Hts.
  exists (synced sid e m w). split; [by apply synchronize_engines_eq|].
  unfold synced, transfer, timestamp_of, ts_gt. rewrite Hes, Hms. cbn [fmap option_fmap option_map].
  rewrite Hts, Hid, Hes. cbn [fmap option_fmap option_map].
  rewrite Hts.
  rewrite !bool_decide_eq_false_2 by lia.
  cbn [engine multitoken_engine trace fst snd app].
  repeat split.
  intros ->. unfold stores. cbn [engine multitoken_engine]. rewrite He, Hm. cbn.
  by rewrite insert_id.
Qed.

Lemma resynchronizing_equal_timestamps_witness :
  ∃ w', @synchronize_engines toy "s"
          (@World toy (Some (scripted 1 {["s" := Session "s" 5 3]} []))
             (Some (scripted 4 {["s" := Session "s" 5 7]} [])) []) = Ok () w'
        ∧ trace w' = [Transfer SingleToken (Some (Session "s" 5 7)) true].
Proof.
  assert (({["s" := Session "s" 5 3]} : gmap string session) !! "s"
          = Some (Session "s" 5 3)) as Hes by (by vm_compute).
  assert (({["s" := Session "s" 5 7]} : gmap string session) !! "s"
          = Some (Session "s" 5 7)) as Hms by (by vm_compute).
  destruct (@resynchronizing_equal_timestamps toy "s"
              (@World toy (Some (scripted 1 {["s" := Session "s" 5 3]} []))
                 (Some (scripted 4 {["s" := Session "s" 5 7]} [])) [])
              _ _ (Session "s" 5 3) (Session "s" 5 7)
              eq_refl eq_refl Hes Hms eq_refl eq_refl)
    as (w' & Hrun & Htrace & _).
  exists w'. by split.
Defined.

End SynchronizeSpec.

(** ** Construction *)

Module ConstructionSpec.
Import Np Py SessionStore TextGeneration Notions Toy.

(** C8, as stated, fails.  With the engine type ["onnxruntime"] a chunk
    length equal to the sequence length is accepted although the model has a
    causal-mask input and cache support: the pipeline is built with both
    engines. *)
Lemma chunk_length_not_checked_for_other_engine_types :
  let args :=
    {| arg_deterministic := true;
       arg_max_generated_tokens := Some 1024;
       arg_prompt_processing_sequence_length := 8;
       arg_force_max_tokens := false;
       arg_use_deepsparse_cache := true;
       arg_engine_type := Some "onnxruntime";
       arg_sequence_length := 8;
       causal_mask_input_present := true;
       is_cache_support_enabled := true;
       tokenizer_eos_token_id := Some 2;
       tokenizer_pad_token_id := None;
       tokenizer_has_add_bos_token := false |} in
  arg_sequence_length args ≤ arg_prompt_processing_sequence_length args
  ∧ causal_mask_input_present args = true
  ∧ ∃ self w, @init toy args = Val (self, w)
              ∧ enable_multitoken_prefill self = true
              ∧ is_Some (engine w) ∧ is_Some (multitoken_engine w).
Proof.
  cbv zeta. split; [done|]. split; [done|].
  eexists _, _. split; [reflexivity|]. by repeat split.
Qed.

(** C8, amended.  When the chunk length is not smaller than the sequence
    length while the model has a causal-mask input (multitoken prefill), the
    model has cache support and the engine type is the DeepSparse one, the
    constructor raises [ValueError]: no pipeline object and no engine come
    into being.  With cache support and another engine type the check is
    not made and the construction succeeds. *)
Theorem chunk_length_checked_at_construction `{EngineModel} (args : init_args) :
  is_cache_support_enabled args = true →
  (arg_sequence_length args ≤ arg_prompt_processing_sequence_length args →
   causal_mask_input_present args = true →
   default DEEPSPARSE_ENGINE (arg_engine_type args) = DEEPSPARSE_ENGINE →
   init args = Exc ValueError)
  ∧ (default DEEPSPARSE_ENGINE (arg_engine_type args) ≠ DEEPSPARSE_ENGINE →
     ∃ self w, init args = Val (self, w) ∧ trace w = []).
Proof.
  intros Hcache. split.
  - intros Hlen Hmask Htype.
    unfold init, initialize_engines. rewrite Hcache, Hmask, Htype. cbn.
    rewrite !bool_decide_eq_true_2 by done. done.
  - intros Htype.
    unfold init, initialize_engines. rewrite Hcache. cbn.
    rewrite (bool_decide_eq_false_2 _ Htype). cbn.
    by eexists _, _.
Qed.

Lemma chunk_length_checked_at_construction_witness :
  @init toy
    {| arg_deterministic := true;
       arg_max_generated_tokens := Some 1024;
       arg_prompt_processing_sequence_length := 8;
       arg_force_max_tokens := false;
       arg_use_deepsparse_cache := true;
       arg_engine_type := None;
       arg_sequence_length := 8;
       causal_mask_input_present := true;
       is_cache_support_enabled := true;
       tokenizer_eos_token_id := Some 2;
       tokenizer_pad_token_id := None;
       tokenizer_has_add_bos_token := false |} = Exc ValueError.
Proof.
  apply (@chunk_length_checked_at_construction toy); [reflexivity | | | ];
    cbn; (lia || reflexivity).
Defined.

End ConstructionSpec.

(** ** Splitting a batch and joining the outputs *)

Module BatchFacts.
Import Np Py SessionStore TextGeneration Notions.

Lemma distribute_lookup (ids : list string) (i : nat) (batches bs' : list (list item)) :
  distribute (Some ids) i batches = Val bs' →
  length bs' = length batches
  ∧ ∀ j batch, batches !! j = Some batch →
      ∃ sid, ids !! (i + j)%nat = Some sid ∧ bs' !! j = Some (batch ++ [ItemId sid]).
Proof.
  revert i bs'. induction batches as [|b batches IH]; intros i bs'; cbn.
  - intros [= <-]. split; [done|]. intros j batch Hj. by rewrite lookup_nil in Hj.
  - destruct (ids !! i) as [sid|] eqn:Hsid; cbn; [|done].
    destruct (distribute (Some ids) (S i) batches) as [bs|] eqn:Hrest; cbn; [|done].
    intros [= <-]. destruct (IH _ _ Hrest) as [Hlen Hlook].
    split; [cbn; by rewrite Hlen|].
    intros [|j] batch Hj; cbn in *.
    + simplify_eq. exists sid. by rewrite Nat.add_0_r.
    + destruct (Hlook j batch Hj) as (sid' & Hsid' & Hb).
      exists sid'. split; [|done]. by rewrite <- Nat.add_succ_comm.
Qed.

Lemma distribute_total (ids : list string) (i : nat) (batches : list (list item)) :
  (i + length batches ≤ length ids)%nat →
  ∃ bs', distribute (Some ids) i batches = Val bs'.
Proof.
  revert i. induction batches as [|b batches IH]; intros i Hlen; cbn in *.
  - by eexists.
  - destruct (lookup_lt_is_Some_2 ids i) as [sid Hsid]; [lia|].
    rewrite Hsid. cbn. destruct (IH (S i)) as [bs Hbs]; [lia|].
    rewrite Hbs. cbn. by eexists.
Qed.

Lemma distribute_short (ids : list string) (i : nat) (batches : list (list item)) :
  (i ≤ length ids)%nat → (length ids < i + length batches)%nat →
  distribute (Some ids) i batches = Exc IndexError.
Proof.
  revert i. induction batches as [|b batches IH]; intros i Hi Hlen; cbn in *; [lia|].
  destruct (ids !! i) as [sid|] eqn:Hsid; cbn; [|done].
  apply lookup_lt_Some in Hsid.
  rewrite IH by lia. done.
Qed.

End BatchFacts.

Module BatchSpec.
Import Np Py SessionStore TextGeneration Notions BatchFacts Toy.

(** C10.  Whatever the generic splitter of arrays returns for the items
    without their lists, [split_engine_inputs] appends to its sub-batch
    number [i] one string, the session id at index [i] of the list of session
    ids, however many items the sub-batch holds; it returns as soon as there
    are as many session ids as sub-batches, and raises otherwise. *)
Theorem sub_batch_carries_the_id_at_its_index
  (data_split : list item → Z → pyres (list (list item) * Z))
  (items : list item) (batch_size : Z) (session_ids : list string)
  (batches : list (list item)) (n : Z) :
  first_list items = Some session_ids →
  data_split (filter (λ x, is_list x = false) items) batch_size = Val (batches, n) →
  ((length batches ≤ length session_ids)%nat →
   ∃ batches',
     split_engine_inputs data_split items batch_size = Val (batches', n)
     ∧ length batches' = length batches
     ∧ ∀ i batch, batches !! i = Some batch →
         ∃ sid, session_ids !! i = Some sid
                ∧ batches' !! i = Some (batch ++ [ItemId sid]))
  ∧ ((length session_ids < length batches)%nat →
     split_engine_inputs data_split items batch_size = Exc IndexError).
Proof.
  intros Hids Hsplit. unfold split_engine_inputs. rewrite Hids, Hsplit. cbn.
  split; intros Hlen.
  - destruct (distribute_total session_ids 0 batches) as [bs' Hbs']; [lia|].
    rewrite Hbs'. cbn. exists bs'. split; [done|].
    by apply (distribute_lookup session_ids 0).
  - rewrite distribute_short by lia. done.
Qed.

Lemma sub_batch_carries_the_id_at_its_index_witness :
  ∃ batches',
    split_engine_inputs data_split_engine_inputs
      [ItemArray (Arr2 [[11;12]; [21;22]; [31;32]; [41;42]]);
       ItemIds ["a"; "b"; "c"; "d"]] 2
    = Val (batches', 4)
    ∧ length batches' = 2%nat
    ∧ ∀ i batch,
        [[ItemArray (Arr2 [[11;12]; [21;22]])];
         [ItemArray (Arr2 [[31;32]; [41;42]])]] !! i
        = Some batch →
        ∃ sid, ["a"; "b"; "c"; "d"] !! i = Some sid
               ∧ batches' !! i = Some (batch ++ [ItemId sid]).
Proof.
  apply (sub_batch_carries_the_id_at_its_index data_split_engine_inputs
           [ItemArray (Arr2 [[11;12]; [21;22]; [31;32]; [41;42]]);
            ItemIds ["a"; "b"; "c"; "d"]]
           2 ["a"; "b"; "c"; "d"]
           [[ItemArray (Arr2 [[11;12]; [21;22]])];
            [ItemArray (Arr2 [[31;32]; [41;42]])]] 4);
    [reflexivity | reflexivity | cbn; lia].
Defined.

End BatchSpec.

Module RoundTripFacts.
Import Np Py SessionStore TextGeneration Notions RunFacts BatchFacts.










(** *** Joining outputs of one row each *)

Section Rows.
Context {R A : Type} (f : R → list A).





End Rows.


Section WithEngine.
Context `{EngineModel}.

Lemma as_2d_Tokens2 (arrays : list (list (list token))) :
  as_2d (Tokens2 <$> arrays) = Val arrays.
Proof. induction arrays as [|a arrays IH]; [done|]. cbn. by rewrite IH. Qed.

Lemma pad_all_tokens_Some (arrays : list (list (list token))) (len : nat) (p : Z) :
  pad_all_tokens arrays len (Some p) = pad_all arrays len (Some p).
Proof.
  induction arrays as [|a arrays IH]; [done|].
  cbn [pad_all_tokens pad_all]. unfold pad_tokens. rewrite IH.
  by destruct (Helpers.pad_to_fixed_length a len (Some p)).
Qed.

Lemma concatenate_tokens_Tokens2 (arrays : list (list (list token))) :
  concatenate_tokens (Tokens2 <$> arrays)
  = a ← concatenate_axis0 arrays; Val (Tokens2 a).
Proof.
  assert (mapM rows_of_tokens (Tokens2 <$> arrays) = Some arrays) as Hm.
  { induction arrays as [|a arrays IH]; [done|]. cbn. by rewrite IH. }
  destruct arrays as [|a arrays]; [done|].
  unfold concatenate_tokens. rewrite fmap_cons, <- fmap_cons. by rewrite Hm.
Qed.



End WithEngine.

End RoundTripFacts.

Module RoundTripSpec.
Import Np Py SessionStore TextGeneration Notions RunFacts BatchFacts RoundTripFacts Toy.




End RoundTripSpec.

Module DecodeFacts.
Import Np Py SessionStore TextGeneration Notions HelpersFacts RunFacts.

Section WithEngine.
Context `{EngineModel}.

(** *** The streamer *)

Lemma streamer_put_eq ctx toks w :
  streamer_put ctx toks w = Ok () (put_world ctx toks w).
Proof. unfold streamer_put, put_world. by destruct (streamer ctx). Qed.

Lemma calls_logged target ev w :
  is_invoke target ev = false → calls target (logged ev w) = calls target w.
Proof.
  intros Hev. unfold logged, calls, invocations. cbn [trace].
  rewrite filter_app, filter_cons_False by (by rewrite Hev).
  by rewrite app_nil_r.
Qed.

Lemma calls_put_world target ctx toks w :
  calls target (put_world ctx toks w) = calls target w.
Proof. unfold put_world. destruct (streamer ctx); [by apply calls_logged|done]. Qed.

Lemma calls_end_world target ctx w :
  calls target (end_world ctx w) = calls target w.
Proof. unfold end_world. destruct (streamer ctx); [by apply calls_logged|done]. Qed.

Lemma ready_put_world self ctx toks w :
  ready self w → ready self (put_world ctx toks w).
Proof. unfold put_world, logged. by destruct (streamer ctx). Qed.

(** *** The generation loop: a bound on its turns *)

Lemma generate_loop_bounded self ctx sid (fuel : nat) (g : generation) (w : world) :
  (Z.to_nat (max_tokens self + 1 - Z.of_nat (length (generated_tokens g))) ≤ fuel)%nat →
  match generate_loop fuel self ctx sid g w with
  | Ok g' w' =>
      ∃ k : nat,
        Z.of_nat (length (generated_tokens g)) + Z.of_nat k ≤ Z.max (max_tokens self + 1) (Z.of_nat (length (generated_tokens g)))
        ∧ length (generated_tokens g') = (length (generated_tokens g) + k)%nat
        ∧ calls SingleToken w' = (calls SingleToken w + k)%nat
  | Raise _ w' =>
      ∃ k : nat,
        Z.of_nat (length (generated_tokens g)) + Z.of_nat k ≤ Z.max (max_tokens self + 1) (Z.of_nat (length (generated_tokens g)))
        ∧ calls SingleToken w' = (calls SingleToken w + k)%nat
  | OutOfFuel => False
  end.
Proof.
  revert g w. induction fuel as [|fuel IH]; intros g w Hfuel.
  - cbn [generate_loop]. case_decide; [lia|].
    exists 0%nat. repeat split; lia.
  - cbn [generate_loop]. case_decide as Hcond.
    2:{ exists 0%nat. repeat split; lia. }
    rewrite bind_eq.
    pose proof (autoregressive_inference_calls self (tokens g) sid w) as Hcall.
    destruct (autoregressive_inference self (tokens g) sid w)
      as [[token logits] w1|e w1|]; [|subst; exists 0%nat; split; lia|done].
    destruct Hcall as [Hcall _].
    rewrite bind_eq, streamer_put_eq.
    set (g' := {| tokens := tokens g ++ [token];
                  generated_tokens := generated_tokens g ++ [token];
                  generated_logits := generated_logits g ++ [logits] |}).
    assert (length (generated_tokens g') = S (length (generated_tokens g))) as Hlen.
    { cbn. rewrite length_app. cbn. lia. }
    destruct (bool_decide (token = eos_token_id self) && negb (force_max_tokens self)).
    + exists 1%nat. rewrite calls_put_world. repeat split; lia.
    + specialize (IH g' (put_world ctx [token] w1)).
      rewrite Hlen in IH.
      destruct (generate_loop fuel self ctx sid g' (put_world ctx [token] w1))
        as [g'' w2|e w2|].
      * destruct IH as (k & Hk & Hg & Hc); [lia|].
        exists (S k). rewrite calls_put_world in Hc. repeat split; lia.
      * destruct IH as (k & Hk & Hc); [lia|].
        exists (S k). rewrite calls_put_world in Hc. split; lia.
      * apply IH. lia.
Qed.

(** *** No part of the pipeline but the generation loop can run for ever *)

Lemma terminates_ret {A} (a : A) : terminates (mret a).
Proof. by intros w. Qed.

Lemma terminates_raise {A} (e : exn) : terminates (raise (A:=A) e).
Proof. by intros w. Qed.

Lemma terminates_lift {A} (r : pyres A) : terminates (lift r).
Proof. destruct r; [apply terminates_ret | apply terminates_raise]. Qed.

Lemma terminates_bind {A B} (c : M A) (f : A → M B) :
  terminates c → (∀ a, terminates (f a)) → terminates (c ≫= f).
Proof.
  intros Hc Hf w. rewrite bind_eq.
  destruct (c w) as [a w'|e w'|] eqn:Hcw; [apply Hf | done | by apply Hc in Hcw].
Qed.

Lemma terminates_log ev : terminates (log ev).
Proof. by intros w. Qed.

Lemma terminates_get_engine target : terminates (get_engine target).
Proof. by intros w. Qed.

Lemma terminates_set_engine target e : terminates (set_engine target e).
Proof. by intros w. Qed.

Ltac terminates_step :=
  first
    [ apply terminates_ret | apply terminates_raise | apply terminates_lift
    | apply terminates_log | apply terminates_get_engine
    | apply terminates_set_engine
    | apply terminates_bind; [|intros ?]
    | progress case_match ].

Lemma terminates_attr_of target : terminates (attr_of target).
Proof. unfold attr_of. repeat terminates_step. Qed.

Lemma terminates_call_engine target inputs sid :
  terminates (call_engine target inputs sid).
Proof. unfold call_engine. repeat terminates_step. Qed.

Lemma terminates_transfer_cache_session target provided :
  terminates (transfer_cache_session target provided).
Proof.
  unfold transfer_cache_session.
  apply terminates_bind; [apply terminates_attr_of|intros e].
  repeat terminates_step.
Qed.

Lemma terminates_synchronize_engines sid : terminates (synchronize_engines sid).
Proof.
  intros w. pose proof (synchronize_engines_inv sid w) as Hs.
  by destruct (synchronize_engines sid w).
Qed.

Lemma terminates_autoregressive_inference self tokens sid :
  terminates (autoregressive_inference self tokens sid).
Proof.
  intros w. pose proof (autoregressive_inference_calls self tokens sid w) as Hs.
  by destruct (autoregressive_inference self tokens sid w).
Qed.

Lemma terminates_streamer_put ctx toks : terminates (streamer_put ctx toks).
Proof. intros w. by rewrite streamer_put_eq. Qed.

Lemma terminates_prefill_chunk self sid idx batch local :
  terminates (prefill_chunk self sid idx batch local).
Proof.
  unfold prefill_chunk.
  repeat first [ apply terminates_attr_of | terminates_step ].
Qed.

Lemma terminates_prefill_loop self sid idx batches st :
  terminates (prefill_loop self sid idx batches st).
Proof.
  revert idx st. induction batches as [|b batches IH]; intros idx st; cbn.
  - apply terminates_ret.
  - apply terminates_bind; [apply terminates_prefill_chunk|intros [inputs local]].
    apply terminates_bind; [apply terminates_call_engine|intros [t l]].
    apply IH.
Qed.

Lemma terminates_single_token_loop self sid rest run nt pl :
  terminates (single_token_loop self sid rest run nt pl).
Proof.
  revert run nt pl. induction rest as [|t rest IH]; intros run nt pl; cbn.
  - apply terminates_ret.
  - apply terminates_bind; [apply terminates_autoregressive_inference|intros [t' l]].
    apply IH.
Qed.

Lemma terminates_prompt_inference self inputs sid :
  terminates (prompt_inference self inputs sid).
Proof.
  unfold prompt_inference.
  repeat first
    [ apply terminates_attr_of | apply terminates_synchronize_engines
    | apply terminates_prefill_loop | apply terminates_single_token_loop
    | terminates_step ].
Qed.

Lemma terminates_engine_forward self inputs ctx (fuel : nat) :
  (Z.to_nat (max_tokens self) ≤ fuel)%nat →
  terminates (engine_forward fuel self inputs ctx).
Proof.
  intros Hfuel. unfold engine_forward.
  destruct (cache_support_enabled self).
  - apply terminates_bind; [apply terminates_lift|intros [sid rest]].
    apply terminates_bind; [apply terminates_prompt_inference|intros [toks pl]].
    apply terminates_bind; [apply terminates_streamer_put|intros _].
    apply terminates_bind; [apply terminates_lift|intros last_token].
    apply terminates_bind.
    + intros w.
      pose proof (generate_loop_bounded self ctx sid fuel
                    {| tokens := toks; generated_tokens := [last_token];
                       generated_logits :=
                         if include_prompt_logits ctx then pl else [] |} w) as Hb.
      cbn [generated_tokens length] in Hb.
      destruct (generate_loop _ _ _ _ _ _); [done|done|].
      exfalso. apply Hb. lia.
    + intros g.
      repeat first [ apply terminates_autoregressive_inference | terminates_step ].
  - repeat first [ apply terminates_call_engine | terminates_step ].
Qed.

(** *** Inversion of the monad *)

Lemma ret_eq {A} (a : A) (w : world) : (mret a : M A) w = Ok a w.
Proof. reflexivity. Qed.

Lemma bind_Ok_inv {A B} (c : M A) (f : A → M B) w b w' :
  (c ≫= f) w = Ok b w' → ∃ a w1, c w = Ok a w1 ∧ f a w1 = Ok b w'.
Proof.
  rewrite bind_eq. destruct (c w) as [a w1|e w1|]; [|done|done].
  intros Hf. by exists a, w1.
Qed.

Lemma lift_Ok_inv {A} (r : pyres A) w a w' :
  lift r w = Ok a w' → r = Val a ∧ w' = w.
Proof. destruct r; cbn; [|done]. by intros [= -> ->]. Qed.

Lemma attr_of_Ok_inv target w e w' :
  attr_of target w = Ok e w' →
  w' = w ∧ match target with
           | SingleToken => engine w = Some e
           | Multitoken => multitoken_engine w = Some e
           end.
Proof.
  unfold attr_of, get_engine, raise. unfold mbind, M_bind, mret, M_ret.
  destruct target; case_match; intros ?; by simplify_eq.
Qed.

Lemma attr_of_eq target w e :
  match target with
  | SingleToken => engine w = Some e
  | Multitoken => multitoken_engine w = Some e
  end →
  attr_of target w = Ok e w.
Proof.
  unfold attr_of, get_engine, raise. unfold mbind, M_bind, mret, M_ret.
  by destruct target; intros ->.
Qed.

(** *** The loop over single tokens of [prompt_inference] *)

Lemma engine_names_after_call e inputs sid w :
  engine w = Some e → engine_names (after_call e inputs sid w) = engine_names w.
Proof. intros He. unfold engine_names, after_call. by rewrite He. Qed.

Lemma single_token_loop_ok self sid (rest run : list token) nt pl w :
  ready self w → Forall is_Some rest →
  ∃ nt' logs w' evs,
    single_token_loop self sid rest run nt pl w = Ok (nt', pl ++ logs) w'
    ∧ length logs = length rest
    ∧ ready self w'
    ∧ trace w' = trace w ++ evs
    ∧ one_call_per_token (engine_names w) sid rest evs.
Proof.
  revert run nt pl w. induction rest as [|t rest IH]; intros run nt pl w Hready Hrest.
  - exists nt, [], w, []. rewrite !app_nil_r. repeat split; try done. constructor.
  - apply Forall_cons in Hrest as [[z ->] Hrest].
    cbn [single_token_loop]. rewrite bind_eq.
    destruct (autoregressive_inference_ready self (run ++ [Some z]) sid w z Hready)
      as (e & inputs & He & Hin & ->); [by rewrite last_snoc|].
    destruct (invoke e inputs (Some sid)) as [[store st] [t' l]] eqn:Hinv. cbn [snd].
    destruct (IH (run ++ [Some z]) t' (pl ++ [l]) (after_call e inputs sid w))
      as (nt' & logs & w' & evs & Hrun & Hlen & Hready' & Htrace & Hcalls);
      [by apply ready_after_call | done |].
    exists nt', (l :: logs), w', (Invoke SingleToken inputs (Some sid) :: evs).
    rewrite Hrun, <- app_assoc. repeat split; try done.
    + cbn. by rewrite Hlen.
    + rewrite Htrace. unfold after_call. cbn [trace]. by rewrite <- app_assoc.
    + constructor.
      * exists z, inputs. repeat split; try done.
        unfold engine_names. by rewrite He.
      * by rewrite (engine_names_after_call _ _ _ _ He) in Hcalls.
Qed.

(** *** The loop over the chunks of [prompt_inference] *)

Lemma prefill_loop_processed self sid idx batches st w st' w' :
  prefill_loop self sid idx batches st w = Ok st' w' →
  num_tokens_processed st'
  = num_tokens_processed st
    + prompt_processing_sequence_length self * Z.of_nat (length batches).
Proof.
  revert idx st w. induction batches as [|b batches IH]; intros idx st w; cbn [prefill_loop].
  - intros [= -> ->]. cbn. lia.
  - intros Hrun.
    apply bind_Ok_inv in Hrun as ([inputs local] & w1 & _ & Hrun).
    apply bind_Ok_inv in Hrun as ([t l] & w2 & _ & Hrun).
    apply IH in Hrun. rewrite Hrun. cbn [num_tokens_processed length]. lia.
Qed.

Lemma token_batches_length self (tokens : list token) batches :
  0 < prompt_processing_sequence_length self →
  token_batches self tokens = Val batches →
  Z.of_nat (length batches)
  = Z.of_nat (length tokens) `div` prompt_processing_sequence_length self.
Proof.
  intros Hp. unfold token_batches. rewrite decide_False by lia.
  intros [= <-]. rewrite length_fmap, length_seq.
  apply Z2Nat.id. apply Z.div_pos; lia.
Qed.

(** *** Runs of the generation loop that end with the end-of-sequence token *)

Lemma streamer_end_eq ctx w :
  (if streamer ctx then log StreamerEnd else mret ()) w = Ok () (end_world ctx w).
Proof. unfold end_world. by destruct (streamer ctx). Qed.

Lemma prompt_inference_snoc self inputs sid w out logits w' :
  prompt_inference self inputs sid w = Ok (out, logits) w' →
  ∃ toks nt, out = toks ++ [nt].
Proof.
  intros Hrun. unfold prompt_inference in Hrun.
  apply bind_Ok_inv in Hrun as (toks & w0 & _ & Hrun).
  apply bind_Ok_inv in Hrun as ([tokens1 st] & w2 & _ & Hrun).
  cbn zeta in Hrun.
  apply bind_Ok_inv in Hrun as ([] & w3 & _ & Hrun).
  apply bind_Ok_inv in Hrun as (e2 & w4 & _ & Hrun).
  apply bind_Ok_inv in Hrun as ([nt pl] & w5 & _ & Hrun).
  injection Hrun as <- <- <-. by eexists _, _.
Qed.

Lemma generates_ready self ctx sid tokens w o outs w3 :
  generates self ctx sid tokens w (o :: outs) w3 →
  ready self w3
  ∧ calls SingleToken w3 = (calls SingleToken w + S (length outs))%nat.
Proof.
  revert o tokens w. induction outs as [|o' outs IH]; intros o tokens w.
  - cbn [generates]. intros (w' & Hrun & ->).
    apply autoregressive_inference_Ok_inv in Hrun
      as (e & z & inputs & He & _ & Hnames & HS & _ & _ & ->).
    split.
    + apply ready_put_world. by eexists.
    + rewrite calls_put_world.
      destruct (calls_after_call e inputs sid w) as [-> _]. cbn. lia.
  - intros (w' & Hrun & Hrest).
    apply IH in Hrest as [Hready Hcalls]. split; [done|].
    rewrite Hcalls, calls_put_world.
    apply autoregressive_inference_Ok_inv in Hrun
      as (e & z & inputs & _ & _ & _ & _ & _ & _ & ->).
    destruct (calls_after_call e inputs sid w) as [-> _]. cbn. lia.
Qed.

Lemma generate_loop_run self ctx sid (zeos : Z) l
  (outs : list (Z * list logit_row)) (g : generation) (w w3 : world) (fuel : nat) :
  force_max_tokens self = false →
  eos_token_id self = Some zeos →
  generates self ctx sid (tokens g) w (outs ++ [(zeos, l)]) w3 →
  Forall (λ o, o.1 ≠ zeos) outs →
  Z.of_nat (length (generated_tokens g)) + Z.of_nat (length outs) ≤ max_tokens self →
  (length outs + 1 ≤ fuel)%nat →
  generate_loop fuel self ctx sid g w
  = Ok {| tokens := tokens g ++ ((λ o, Some o.1) <$> outs) ++ [Some zeos];
          generated_tokens :=
            generated_tokens g ++ ((λ o, Some o.1) <$> outs) ++ [Some zeos];
          generated_logits := generated_logits g ++ (snd <$> outs) ++ [l] |}
       w3.
Proof.
  intros Hforce Heos. revert g w fuel.
  induction outs as [|o outs IH]; intros g w fuel Hgen Hne Hmax Hfuel.
  - destruct fuel as [|fuel]; [cbn in Hfuel; lia|].
    cbn [app generates] in Hgen. destruct Hgen as (w' & Hrun & ->).
    cbn [generate_loop]. rewrite decide_True by (cbn in Hmax; lia).
    cbn [fst snd] in Hrun. rewrite bind_eq, Hrun. cbv beta iota.
    rewrite bind_eq, streamer_put_eq. cbv beta iota.
    rewrite Heos, Hforce, bool_decide_eq_true_2 by done. done.
  - destruct fuel as [|fuel]; [cbn in Hfuel; lia|].
    cbn [app generates] in Hgen. destruct Hgen as (w' & Hrun & Hgen).
    apply Forall_cons in Hne as [Ho Hne].
    cbn [generate_loop]. rewrite decide_True by (cbn in Hmax; lia).
    rewrite bind_eq, Hrun. cbv beta iota.
    rewrite bind_eq, streamer_put_eq. cbv beta iota.
    rewrite Heos, bool_decide_eq_false_2 by congruence.
    cbn [andb].
    rewrite (IH _ (put_world ctx [Some o.1] w') fuel).
    + cbn [tokens generated_tokens generated_logits fmap list_fmap].
      by rewrite <- !app_assoc.
    + done.
    + done.
    + cbn [generated_tokens]. rewrite length_app. cbn in *. lia.
    + cbn in Hfuel. lia.
Qed.

Lemma outcome_of_result {A} (o : outcome A) (a : A) (w0 : world) :
  result_of o = Some a → o = Ok a (default w0 (world_of o)).
Proof. destruct o; cbn; [|done|done]. by intros [= ->]. Qed.

Lemma generates_ready_snoc self ctx sid tokens w outs o w3 :
  generates self ctx sid tokens w (outs ++ [o]) w3 →
  ready self w3
  ∧ calls SingleToken w3 = (calls SingleToken w + length outs + 1)%nat.
Proof.
  intros Hgen.
  destruct (outs ++ [o]) as [|o' outs'] eqn:Houts; [by destruct outs|].
  apply generates_ready in Hgen as [Hready Hcalls]. split; [done|].
  apply (f_equal length) in Houts. rewrite length_app in Houts.
  cbn in Houts. lia.
Qed.

End WithEngine.
End DecodeFacts.

(** ** Prefill and generation *)

Module DecodeSpec.
Import Np Py SessionStore TextGeneration Notions HelpersFacts RunFacts DecodeFacts Toy.

(** C7.  The bound of the generation loop is [max_generated_tokens] when it
    is set and positive, and [100 * sequence_length] otherwise.  Entered
    with the one token of the prefill in [generated_tokens], the loop makes
    at most that many turns, each with one call of the single-token engine,
    and then ends, normally or with an exception: with fuel for that many
    turns the model of the loop never runs out of fuel, and neither does
    [engine_forward]. *)
Theorem generation_loop_is_bounded `{EngineModel} (self : TextGenerationPipeline)
  (ctx : context) (sid : string) (g : generation) (w : world) (fuel : nat) :
  0 ≤ sequence_length self →
  length (generated_tokens g) = 1%nat →
  (Z.to_nat (max_tokens self) ≤ fuel)%nat →
  max_tokens self
  = match max_generated_tokens self with
    | Some n => if decide (0 < n) then n else 100 * sequence_length self
    | None => 100 * sequence_length self
    end
  ∧ match generate_loop fuel self ctx sid g w with
    | Ok g' w' =>
        ∃ k : nat, Z.of_nat k ≤ max_tokens self
                   ∧ length (generated_tokens g') = (1 + k)%nat
                   ∧ calls SingleToken w' = (calls SingleToken w + k)%nat
    | Raise _ w' =>
        ∃ k : nat, Z.of_nat k ≤ max_tokens self
                   ∧ calls SingleToken w' = (calls SingleToken w + k)%nat
    | OutOfFuel => False
    end
  ∧ ∀ engine_inputs, terminates (engine_forward fuel self engine_inputs ctx).
Proof.
  intros HS Hlen Hfuel.
  assert (max_tokens self
          = match max_generated_tokens self with
            | Some n => if decide (0 < n) then n else 100 * sequence_length self
            | None => 100 * sequence_length self
            end) as Hmax.
  { unfold max_tokens. destruct (max_generated_tokens self) as [n|]; [|done].
    destruct (decide (0 < n)).
    - rewrite !bool_decide_eq_true_2 by lia. done.
    - destruct (bool_decide (n ≠ 0)); [|done].
      rewrite bool_decide_eq_false_2 by lia. done. }
  assert (0 ≤ max_tokens self) as Hpos.
  { rewrite Hmax. destruct (max_generated_tokens self) as [n|]; [|lia].
    case_decide; lia. }
  split; [done|]. split; [|intros; by apply terminates_engine_forward].
  pose proof (generate_loop_bounded self ctx sid fuel g w) as Hloop.
  rewrite Hlen in Hloop.
  destruct (generate_loop fuel self ctx sid g w) as [g' w'|e w'|].
  - destruct Hloop as (k & Hk & Hg & Hc); [lia|]. exists k. repeat split; lia.
  - destruct Hloop as (k & Hk & Hc); [lia|]. exists k. split; lia.
  - apply Hloop. lia.
Qed.

Lemma generation_loop_is_bounded_witness :
  max_tokens (pipeline true) = 10
  ∧ ∃ k : nat,
      Z.of_nat k ≤ 10
      ∧ length [Some 7; Some 8; Some 9; Some 9; Some 2] = (1 + k)%nat.
Proof.
  pose proof (@generation_loop_is_bounded toy (pipeline true) no_streamer "s"
                {| tokens := [Some 11; Some 7]; generated_tokens := [Some 7];
                   generated_logits := [] |}
                (@World toy (Some (scripted 1 ∅ [8; 9; 9; 2; 9]))
                   (Some (scripted 4 ∅ [])) [])
                10 ltac:(by vm_compute) eq_refl ltac:(vm_compute; lia))
    as (Hmax & Hloop & _).
  split; [exact Hmax|].
  assert (generated_tokens
            <$> result_of
                  (@generate_loop toy 10 (pipeline true) no_streamer "s"
                     {| tokens := [Some 11; Some 7]; generated_tokens := [Some 7];
                        generated_logits := [] |}
                     (@World toy (Some (scripted 1 ∅ [8; 9; 9; 2; 9]))
                        (Some (scripted 4 ∅ [])) []))
          = Some [Some 7; Some 8; Some 9; Some 9; Some 2]) as Hres
    by (vm_compute; reflexivity).
  destruct (generate_loop _ _ _ _ _ _) as [g' w'|e w'|];
    [|discriminate Hres|discriminate Hres].
  injection Hres as Hres. rewrite Hres in Hloop.
  destruct Hloop as (k & Hk & Hlen & _).
  exists k. split; [exact Hk | exact Hlen].
Defined.

(** C5, as stated, fails when the session is resumed and the tokenizer has the
    attribute [add_bos_token]: the single-token engine already holds a session
    for the id, the first prompt token is dropped, two tokens are processed
    and the result has three tokens and two logits entries. *)
Lemma resumed_session_prefill_drops_first_token :
  let w := @World toy (Some (scripted 1 {["s" := Session "s" 3 5]} [5; 6; 7]))
             (Some (scripted 4 ∅ [])) [] in
  (cache_support_enabled (pipeline true) = true
   ∧ prompt_processing_sequence_length (pipeline true) = 4
   ∧ prompt_tokens prompt3 = Val [Some 11; Some 12; Some 13])
  ∧ result_of (@prompt_inference toy (pipeline true) prompt3 "s" w)
    = Some ([Some 12; Some 13; Some 6], [[5]; [6]])
  ∧ calls SingleToken
      <$> world_of (@prompt_inference toy (pipeline true) prompt3 "s" w)
    = Some 2%nat.
Proof.
  cbv zeta. split; [by repeat split|].
  split; vm_compute; reflexivity.
Qed.

(** C5, amended.  On a cache-enabled model with both engines, a chunk length
    of 4 and a prompt of three tokens, when no leading token is to be
    dropped (the tokenizer has no [add_bos_token] attribute, or neither
    engine holds a session for the id): the prompt is not chunked and the
    planner has no chunk for it; each of the three tokens is processed by one
    call of the single-token engine, in order, and the multitoken engine is
    not called; [prompt_inference] returns the three prompt tokens followed
    by one new token, with three logits entries. *)
Theorem short_prompt_is_processed_token_by_token `{EngineModel}
  (self : TextGenerationPipeline) (engine_inputs : list item) (sid : string)
  (w : world) (e m : NLDecoderEngine internals) (a b c : Z) :
  cache_support_enabled self = true →
  prompt_processing_sequence_length self = 4 →
  prompt_tokens engine_inputs = Val [Some a; Some b; Some c] →
  engine w = Some e → multitoken_engine w = Some m →
  Forall known_name (onnx_input_names_no_cache e) →
  0 ≤ sequence_length self →
  (has_add_bos_token self = false
   ∨ (kv_cache_storage e !! sid = None ∧ kv_cache_storage m !! sid = None)) →
  chunked self [Some a; Some b; Some c] = false
  ∧ token_batches self [Some a; Some b; Some c] = Val []
  ∧ ∃ t l1 l2 l3 w' evs,
      prompt_inference self engine_inputs sid w
      = Ok ([Some a; Some b; Some c; t], [l1; l2; l3]) w'
      ∧ trace w' = trace (synced sid e m w) ++ evs
      ∧ one_call_per_token (onnx_input_names_no_cache e) sid
          [Some a; Some b; Some c] evs
      ∧ calls Multitoken w' = calls Multitoken w
      ∧ calls SingleToken w' = (calls SingleToken w + 3)%nat.
Proof.
  intros _ Hp Htokens He Hm Hnames HS Hfresh.
  assert (chunked self [Some a; Some b; Some c] = false) as Hchunked.
  { unfold chunked. rewrite Hp. done. }
  split; [done|]. split.
  { unfold token_batches. rewrite Hp. done. }
  assert (ready self (synced sid e m w)) as Hready.
  { apply ready_synced; [done|]. by exists e. }
  destruct (single_token_loop_ok self sid [Some a; Some b; Some c] [] None []
              (synced sid e m w) Hready)
    as (t & logs & w' & evs & Hloop & Hlen & _ & Htrace & Hcalls).
  { repeat constructor; by eexists. }
  destruct logs as [|l1 [|l2 [|l3 [|]]]]; try done.
  exists t, l1, l2, l3, w', evs.
  assert (engine_names (synced sid e m w) = onnx_input_names_no_cache e) as Hn by done.
  rewrite Hn in Hcalls.
  assert (invocations SingleToken evs = evs ∧ invocations Multitoken evs = []) as [Hs Hmu].
  { clear -Hcalls. unfold one_call_per_token in Hcalls.
    induction Hcalls as [|t ev ts evs (z & inputs & _ & -> & _) _ [IH1 IH2]]; [done|].
    unfold invocations in *. split.
    - rewrite filter_cons_True by reflexivity. by rewrite IH1.
    - rewrite filter_cons_False by (by vm_compute). done. }
  repeat split; try done.
  - unfold prompt_inference. rewrite bind_eq, Htokens. cbn [lift].
    unfold chunked in Hchunked.
    rewrite ret_eq. cbv beta iota. rewrite bind_eq, Hchunked, ret_eq.
    cbv beta iota zeta. cbn [num_tokens_processed new_token prompt_logits].
    rewrite bind_eq, (synchronize_engines_eq sid w e m He Hm).
    rewrite bind_eq, (attr_of_eq SingleToken (synced sid e m w) _ eq_refl).
    rewrite decide_True by done.
    rewrite bool_decide_eq_true_2 by done. rewrite andb_true_r.
    assert ((if has_session
                  (kv_cache_storage
                     (with_store e
                        (transfer (kv_cache_storage e) (kv_cache_storage m !! sid)).1))
                  sid
             then _remove_bos_token_if_applicable self [Some a; Some b; Some c]
             else [Some a; Some b; Some c]) = [Some a; Some b; Some c]) as ->.
    { destruct Hfresh as [Hbos|[Hes Hms]].
      - unfold _remove_bos_token_if_applicable. rewrite Hbos. by case_match.
      - rewrite Hms. cbn [transfer fst with_store kv_cache_storage].
        unfold has_session. rewrite Hes.
        by rewrite bool_decide_eq_false_2 by (by intros [? ?]). }
    change (drop (Z.to_nat 0) [Some a; Some b; Some c]) with [Some a; Some b; Some c].
    rewrite bind_eq, Hloop. done.
  - unfold calls. rewrite Htrace, invocations_app, invocations_synced, Hmu.
    by rewrite app_nil_r.
  - unfold calls. rewrite Htrace, invocations_app, invocations_synced, Hs.
    rewrite length_app. apply Forall2_length in Hcalls. cbn in Hcalls.
    rewrite <- Hcalls. done.
Qed.

Lemma short_prompt_is_processed_token_by_token_witness :
  ∃ t l1 l2 l3 w',
    @prompt_inference toy (pipeline true) prompt3 "s"
      (@World toy (Some (scripted 1 ∅ [5; 6; 7])) (Some (scripted 4 ∅ [])) [])
    = Ok ([Some 11; Some 12; Some 13; t], [l1; l2; l3]) w'
    ∧ calls SingleToken w' = 3%nat.
Proof.
  destruct (@short_prompt_is_processed_token_by_token toy (pipeline true) prompt3 "s"
              (@World toy (Some (scripted 1 ∅ [5; 6; 7])) (Some (scripted 4 ∅ [])) [])
              (scripted 1 ∅ [5; 6; 7]) (scripted 4 ∅ []) 11 12 13
              eq_refl eq_refl eq_refl eq_refl eq_refl)
    as (_ & _ & t & l1 & l2 & l3 & w' & evs & Hrun & _ & _ & _ & Hcalls).
  - cbn. unfold all_names, known_name. repeat (constructor; [auto 10|]). constructor.
  - by vm_compute.
  - right. split; vm_compute; reflexivity.
  - by exists t, l1, l2, l3, w'.
Defined.

(** A pipeline that [initialize_engines] builds without a multitoken engine
    (cache support, no causal-mask input) cannot process a prompt:
    [synchronize_engines] reads [self.multitoken_engine.kv_cache_storage],
    which raises [AttributeError] on [None]. *)
Remark prompt_inference_without_multitoken_engine `{EngineModel}
  (self : TextGenerationPipeline) (engine_inputs : list item) (sid : string)
  (w : world) (e : NLDecoderEngine internals) (tokens : list token) :
  prompt_tokens engine_inputs = Val tokens →
  enable_multitoken_prefill self = false →
  engine w = Some e → multitoken_engine w = None →
  prompt_inference self engine_inputs sid w = Raise AttributeError w.
Proof.
  intros Htokens Hmulti He Hm. unfold prompt_inference.
  rewrite bind_eq, Htokens. cbn [lift]. rewrite ret_eq. cbv beta iota.
  rewrite bind_eq, Hmulti, andb_false_r, ret_eq. cbv beta iota zeta.
  rewrite bind_eq. unfold synchronize_engines.
  rewrite bind_eq, (attr_of_eq SingleToken w e He). cbv beta iota zeta.
  rewrite bind_eq. unfold attr_of at 1, get_engine.
  rewrite bind_eq. by rewrite Hm.
Qed.



(** C6.  With [force_max_tokens = False], when the generation steps produce
    the end-of-sequence token for the first time at a step within the budget
    [max_tokens] (for a budget of 10 and the end of sequence at step 2: one
    other token, then the end of sequence), the loop stops after that step;
    the tokens and logits that the generation steps produced are exactly those
    up to and including that step (two tokens in the scenario), appended to
    the token that the prefill generated; and exactly one more call of the
    single-token engine follows, whose token and logits are not part of the
    result. *)
Theorem decoding_stops_at_end_of_sequence `{EngineModel}
  (self : TextGenerationPipeline) (engine_inputs rest : list item)
  (ctx : context) (sid : string) (w0 w1 w3 : world)
  (tokens0 : list token) (prompt_logits : list (list logit_row))
  (outs : list (Z * list logit_row)) (zeos : Z) (l : list logit_row)
  (fuel : nat) :
  cache_support_enabled self = true →
  force_max_tokens self = false →
  eos_token_id self = Some zeos →
  pop_session_id engine_inputs = Val (sid, rest) →
  prompt_inference self rest sid w0 = Ok (tokens0, prompt_logits) w1 →
  generates self ctx sid tokens0 (put_world ctx tokens0 w1)
    (outs ++ [(zeos, l)]) w3 →
  Forall (λ o, o.1 ≠ zeos) outs →
  Z.of_nat (length outs) + 1 ≤ max_tokens self →
  (length outs + 1 ≤ fuel)%nat →
  ∃ t0 extra w4,
    last tokens0 = Some t0
    ∧ autoregressive_inference self
        (tokens0 ++ ((λ o, Some o.1) <$> outs) ++ [Some zeos]) sid w3
      = Ok extra w4
    ∧ engine_forward fuel self engine_inputs ctx w0
      = Ok (Tokens2 [t0 :: ((λ o, Some o.1) <$> outs) ++ [Some zeos]],
            [concat ((if include_prompt_logits ctx then prompt_logits else [])
                     ++ (snd <$> outs) ++ [l])],
            [Some sid])
           (end_world ctx w4)
    ∧ calls SingleToken (end_world ctx w4)
      = (calls SingleToken w1 + length outs + 2)%nat.
Proof.
  intros Hcache Hforce Heos Hpop Hprefill Hgen Hne Hmax Hfuel.
  destruct (prompt_inference_snoc _ _ _ _ _ _ _ Hprefill) as (toks & nt & ->).
  assert (last (toks ++ [nt]) = Some nt) as Hlast by apply last_snoc.
  set (toks' := ((λ o : Z * list logit_row, Some o.1) <$> outs) ++ [Some zeos]) in *.
  destruct (generates_ready_snoc _ _ _ _ _ _ _ _ Hgen) as [Hready Hcalls].
  destruct (autoregressive_inference_ready self ((toks ++ [nt]) ++ toks') sid w3 zeos
              Hready) as (e & inputs & He & _ & Hextra).
  { unfold toks'. by rewrite !app_assoc, last_snoc. }
  exists nt, (invoke e inputs (Some sid)).2, (after_call e inputs sid w3).
  split; [done|]. split; [done|]. split.
  - unfold engine_forward. rewrite Hcache.
    rewrite bind_eq, Hpop. cbn [lift]. rewrite ret_eq. cbv beta iota.
    rewrite bind_eq, Hprefill. cbv beta iota.
    rewrite bind_eq, streamer_put_eq. cbv beta iota.
    rewrite bind_eq, Hlast. cbn [of_option lift]. rewrite ret_eq. cbv beta iota.
    rewrite bind_eq.
    rewrite (generate_loop_run self ctx sid zeos l outs _ _ w3 fuel Hforce Heos);
      [|done|done|cbn; lia|done].
    cbv beta iota. cbn [tokens generated_tokens generated_logits].
    fold toks'. rewrite bind_eq, Hextra. cbv beta iota.
    rewrite bind_eq, streamer_end_eq. cbv beta iota.
    destruct ((if include_prompt_logits ctx then prompt_logits else [])
              ++ (snd <$> outs) ++ [l]) as [|x xs] eqn:Hlogits.
    { apply (f_equal length) in Hlogits. rewrite !length_app in Hlogits.
      cbn in Hlogits. lia. }
    done.
  - rewrite calls_end_world.
    destruct (calls_after_call e inputs sid w3) as [-> _].
    rewrite Hcalls, calls_put_world. lia.
Qed.

Lemma decoding_stops_at_end_of_sequence_witness :
  result_of
    (@engine_forward toy 10 (pipeline true) (prompt3 ++ [ItemId "s"]) no_streamer
       (@World toy (Some (scripted 1 ∅ [5; 6; 7; 8; 2; 9]))
          (Some (scripted 4 ∅ [])) []))
  = Some (Tokens2 [[Some 7; Some 8; Some 2]], [[8; 2]], [Some "s"]).
Proof.
  pose (w0 := @World toy (Some (scripted 1 ∅ [5; 6; 7; 8; 2; 9]))
                (Some (scripted 4 ∅ [])) []).
  pose (tokens0 := [Some 11; Some 12; Some 13; Some 7]).
  pose (w1 := default w0
                (world_of (@prompt_inference toy (pipeline true) prompt3 "s" w0))).
  pose (w2 := default w0
                (world_of (@autoregressive_inference toy (pipeline true)
                             tokens0 "s" w1))).
  pose (w3 := default w0
                (world_of (@autoregressive_inference toy (pipeline true)
                             (tokens0 ++ [Some 8]) "s" w2))).
  assert (@prompt_inference toy (pipeline true) prompt3 "s" w0
          = Ok (tokens0, [[5]; [6]; [7]]) w1) as Hprefill
    by (apply outcome_of_result; vm_compute; reflexivity).
  assert (@autoregressive_inference toy (pipeline true) tokens0 "s" w1
          = Ok (Some 8, [8]) w2) as Hstep1
    by (apply outcome_of_result; vm_compute; reflexivity).
  assert (@autoregressive_inference toy (pipeline true) (tokens0 ++ [Some 8]) "s" w2
          = Ok (Some 2, [2]) w3) as Hstep2
    by (apply outcome_of_result; vm_compute; reflexivity).
  destruct (@decoding_stops_at_end_of_sequence toy (pipeline true)
              (prompt3 ++ [ItemId "s"]) prompt3 no_streamer "s" w0 w1 w3
              tokens0 [[5]; [6]; [7]] [(8, [8])] 2 [2] 10
              eq_refl eq_refl eq_refl eq_refl Hprefill)
    as (t0 & extra & w4 & Hlast & _ & Hrun & _).
  - exists w2. split; [exact Hstep1|]. exists w3. split; [exact Hstep2|reflexivity].
  - repeat constructor. cbn. lia.
  - vm_compute. discriminate.
  - cbn. lia.
  - fold w0. rewrite Hrun. injection Hlast as <-. reflexivity.
Defined.

End DecodeSpec.

(** ** Request inputs *)


Module InputsFacts.
Import Np Py Inputs Notions.

Lemma remove_dups_length_le {A} `{EqDecision A} (l : list A) :
  (length (remove_dups l) ≤ length l)%nat.
Proof.
  induction l as [|x l IH]; [done|]. cbn. case_decide; cbn; lia.
Qed.

Lemma remove_dups_length_eq {A} `{EqDecision A} (l : list A) :
  length (remove_dups l) = length l ↔ NoDup l.
Proof.
  induction l as [|x l IH]; cbn.
  - split; [constructor|done].
  - pose proof (remove_dups_length_le l). case_decide as Hx; cbn.
    + split; [lia|]. intros Hn. by apply NoDup_cons in Hn as [? _].
    + rewrite NoDup_cons. split.
      * intros [=]. split; [done|]. by apply IH.
      * intros [_ Hn]. f_equal. by apply IH.
Qed.

Lemma repeat_inputs_Val (seqs : list string) (n : Z) :
  0 ≤ n → repeat_inputs seqs n = Val (seqs ≫= replicate (Z.to_nat n)).
Proof.
  intros Hn. induction seqs as [|s seqs IH]; [done|].
  cbn. case_decide; [lia|]. by rewrite IH.
Qed.

Lemma occurrences_replicate (x y : string) (n : nat) :
  occurrences x (replicate n y) = if decide (y = x) then n else 0%nat.
Proof.
  unfold occurrences. induction n as [|n IH]; cbn [replicate].
  - by destruct (decide (y = x)).
  - rewrite filter_cons. destruct (decide (y = x)); cbn [length]; by rewrite IH.
Qed.

Lemma cumsum_from_lookup (acc : Z) (row : list Z) (j : nat) (m : Z) :
  Forall (λ x, x = 0 ∨ x = 1) row → row !! j = Some m →
  cumsum_from acc row !! j = Some (acc + Z.of_nat (count_nonzero (take (S j) row))).
Proof.
  unfold count_nonzero.
  intros Hrow. revert acc j m.
  induction Hrow as [|x row Hx Hrow IH]; intros acc j m; [done|].
  destruct j as [|j]; cbn [lookup list_lookup cumsum_from].
  - intros [= ->]. change (take 1 (m :: row)) with (m :: take 0 row).
    rewrite take_0, filter_cons, filter_nil. f_equal.
    destruct Hx as [-> | ->]; case_decide; cbn [length]; lia.
  - intros Hj. rewrite (IH _ _ _ Hj). f_equal.
    change (take (S (S j)) (x :: row)) with (x :: take (S j) row).
    rewrite (filter_cons _ x).
    destruct Hx as [-> | ->]; case_decide; cbn [length]; lia.
Qed.

Lemma length_cumsum_from (acc : Z) (row : list Z) :
  length (cumsum_from acc row) = length row.
Proof. revert acc. induction row as [|x row IH]; intros acc; cbn; [done|]. by rewrite IH. Qed.

End InputsFacts.

Module InputsSpec.
Import Np Py Inputs Notions InputsFacts.

(** X1.  [validate_session_ids] returns the ids, as a list and in their
    order, exactly when there are as many ids as input sequences (one for a
    single string) and no id occurs twice; it raises [ValueError]
    otherwise. *)
Theorem session_ids_accepted_iff_counted_and_distinct
  (session_ids : session_ids_arg) (sequences : sequences_arg) :
  session_ids ≠ NoIds →
  validate_session_ids session_ids (Some sequences)
  = if decide (length (id_list session_ids) = num_sequences sequences
               ∧ NoDup (id_list session_ids))
    then Val (Some (id_list session_ids))
    else Exc ValueError.
Proof.
  intros Hids.
  assert (validate_session_ids session_ids (Some sequences)
          = ((match sequences with
              | OneSequence _ =>
                  if decide (length (id_list session_ids) ≠ 1%nat)
                  then Exc ValueError else Val ()
              | Sequences l =>
                  if decide (length (id_list session_ids) ≠ length l)
                  then Exc ValueError else Val ()
              end);;
             if decide (length (id_list session_ids)
                        ≠ length (remove_dups (id_list session_ids)))
             then Exc ValueError
             else Val (Some (id_list session_ids)))) as ->
    by (by destruct session_ids).
  pose proof (remove_dups_length_eq (id_list session_ids)) as [Hd1 Hd2].
  generalize dependent (id_list session_ids). intros l Hd1 Hd2.
  destruct sequences as [s|ss]; cbn [num_sequences].
  - destruct (decide (length l ≠ 1%nat)) as [Hl|Hl]; cbn.
    + rewrite decide_False; [done|]. intros [? _]. lia.
    + destruct (decide (length l ≠ length (remove_dups l))) as [Hr|Hr].
      * rewrite decide_False; [done|]. intros [_ Hn]. apply Hd2 in Hn. lia.
      * rewrite decide_True; [done|]. split; [lia|]. apply Hd1. lia.
  - destruct (decide (length l ≠ length ss)) as [Hl|Hl]; cbn.
    + rewrite decide_False; [done|]. intros [? _]. lia.
    + destruct (decide (length l ≠ length (remove_dups l))) as [Hr|Hr].
      * rewrite decide_False; [done|]. intros [_ Hn]. apply Hd2 in Hn. lia.
      * rewrite decide_True; [done|]. split; [lia|]. apply Hd1. lia.
Qed.

Lemma session_ids_accepted_iff_counted_and_distinct_witness :
  validate_session_ids (IdList ["a"; "b"]) (Some (Sequences ["x"; "y"]))
  = Val (Some ["a"; "b"])
  ∧ validate_session_ids (IdList ["a"; "a"]) (Some (Sequences ["x"; "y"]))
    = Exc ValueError.
Proof.
  split.
  - by rewrite (session_ids_accepted_iff_counted_and_distinct
                  (IdList ["a"; "b"]) (Sequences ["x"; "y"]) ltac:(done)).
  - by rewrite (session_ids_accepted_iff_counted_and_distinct
                  (IdList ["a"; "a"]) (Sequences ["x"; "y"]) ltac:(done)).
Defined.

(** X2.  For a non-negative count, [repeat_inputs] returns the input
    sequences in their order, each one repeated
    [num_generated_predictions] times in a row, whether it occurs once or
    several times in the input: a sequence that occurs [k] times in the
    input occurs [k * num_generated_predictions] times in the result. *)
Theorem repeat_inputs_repeats_every_occurrence
  (input_sequences : list string) (num_generated_predictions : Z) (seq : string) :
  0 ≤ num_generated_predictions →
  let repeated_seq :=
    input_sequences ≫= replicate (Z.to_nat num_generated_predictions) in
  repeat_inputs input_sequences num_generated_predictions = Val repeated_seq
  ∧ length repeated_seq
    = (length input_sequences * Z.to_nat num_generated_predictions)%nat
  ∧ occurrences seq repeated_seq
    = (occurrences seq input_sequences
       * Z.to_nat num_generated_predictions)%nat.
Proof.
  intros Hn repeated_seq. split; [by apply repeat_inputs_Val|].
  unfold repeated_seq. clear repeated_seq.
  induction input_sequences as [|s seqs [IH1 IH2]]; [done|]. cbn [mbind list_bind].
  split.
  - rewrite length_app, length_replicate. cbn [length]. lia.
  - unfold occurrences in *. rewrite filter_app, length_app, IH2.
    fold (occurrences seq (replicate (Z.to_nat num_generated_predictions) s)).
    rewrite occurrences_replicate, filter_cons.
    case_decide; cbn [length]; lia.
Qed.

Lemma repeat_inputs_repeats_every_occurrence_witness :
  repeat_inputs ["a"; "b"; "a"] 2 = Val ["a"; "a"; "b"; "b"; "a"; "a"]
  ∧ length ["a"; "a"; "b"; "b"; "a"; "a"] = 6%nat
  ∧ occurrences "a" ["a"; "a"; "b"; "b"; "a"; "a"] = 4%nat.
Proof.
  exact (repeat_inputs_repeats_every_occurrence ["a"; "b"; "a"] 2 "a" ltac:(lia)).
Defined.

(** X3.  The positions that [process_inputs] computes from an attention
    mask of zeros and ones: [-1] where the mask is zero, and at a column
    where it is one the number of ones to its left, so the tokens are
    numbered from [0] on whatever the padding. *)
Theorem positions_number_the_attended_tokens
  (attention_mask : list (list Z)) (i j : nat) (mask_row : list Z) (m : Z) :
  Forall (Forall (λ x, x = 0 ∨ x = 1)) attention_mask →
  attention_mask !! i = Some mask_row → mask_row !! j = Some m →
  (positions attention_mask !! i) ≫= (.!! j)
  = Some (if decide (m = 0) then -1
          else Z.of_nat (count_nonzero (take j mask_row))).
Proof.
  intros Hall Hi Hj. unfold positions. rewrite list_lookup_fmap, Hi. cbn.
  unfold positions_row. rewrite lookup_zip_with.
  assert (Forall (λ x, x = 0 ∨ x = 1) mask_row) as Hrow
    by (eapply Forall_lookup_1 in Hall; eauto).
  rewrite (cumsum_from_lookup 0 mask_row j m Hrow Hj), Hj. cbn. f_equal.
  rewrite (take_S_r _ _ _ Hj). unfold count_nonzero.
  rewrite filter_app, length_app, filter_cons, filter_nil.
  eapply Forall_lookup_1 in Hrow; [|exact Hj].
  repeat case_decide; cbn [length]; lia.
Qed.

Lemma positions_number_the_attended_tokens_witness :
  (positions [[0; 0; 1; 1; 1]] !! 0%nat) ≫= (.!! 3%nat) = Some 1
  ∧ positions [[0; 0; 1; 1; 1]] = [[-1; -1; 0; 1; 2]].
Proof.
  split; [|reflexivity].
  exact (positions_number_the_attended_tokens [[0; 0; 1; 1; 1]] 0 3 [0; 0; 1; 1; 1] 1
           ltac:(repeat (apply Forall_cons_2 || apply Forall_nil_2);
                  (by left) || (by right)) eq_refl eq_refl).
Defined.

End InputsSpec.

(** ** The helpers: shapes and padding *)


Module HelpersMore.
Import Np Helpers Notions.

Lemma chunks_shape {A} (n k : nat) (l : list A) :
  length l = (n * k)%nat →
  length (chunks n k l) = n ∧ Forall (λ c, length c = k) (chunks n k l).
Proof.
  revert l. induction n as [|n IH]; intros l Hl; cbn; [by split|].
  destruct (IH (drop k l)) as [IH1 IH2]; [rewrite length_drop; lia|].
  split; [by rewrite IH1|]. constructor; [|done]. rewrite length_take. lia.
Qed.

Lemma length_chunks {A} (n k : nat) (l : list A) : length (chunks n k l) = n.
Proof. revert l. induction n as [|n IH]; intros l; cbn; [done|]. by rewrite IH. Qed.

Lemma length_zero_left (n : nat) (row : list Z) :
  length (zero_left n row) = length row.
Proof. unfold zero_left. rewrite length_app, length_replicate, length_drop. lia. Qed.

Lemma length_tril_row (i : nat) (row : list Z) : length (tril_row i row) = length row.
Proof. unfold tril_row. by rewrite length_imap. Qed.

Lemma chunks_Forall {A} (P : A → Prop) (n k : nat) (l : list A) :
  Forall P l → Forall (Forall P) (chunks n k l).
Proof.
  revert l. induction n as [|n IH]; intros l Hl; cbn; [done|].
  constructor; [by apply Forall_take|]. apply IH. by apply Forall_drop.
Qed.

Lemma has_shape4_reshape (b k : nat) (flat : list Z) t :
  reshape4 b 1 1 k flat = Some t → has_shape4 b 1 1 k t.
Proof.
  unfold reshape4. case_decide as Hl; [|done]. intros [= <-].
  rewrite !Nat.mul_1_r in *.
  destruct (chunks_shape b k flat Hl) as [H1 H2].
  destruct (chunks_shape b 1 (chunks b k flat)) as [H3 H4]; [lia|].
  pose proof (chunks_Forall _ b 1 _ H2) as H5.
  destruct (chunks_shape b 1 (chunks b 1 (chunks b k flat))) as [H6 H7]; [lia|].
  split; [done|].
  apply Forall_and. split; [done|].
  apply chunks_Forall. apply Forall_and. by split.
Qed.

Lemma has_shape4_unzeroed (b l s : nat) unz :
  causal_mask_unzeroed b l s = Some unz → has_shape4 b 1 l s unz.
Proof.
  unfold causal_mask_unzeroed. case_decide as Hs; [done|]. intros [= <-].
  unfold ones4, tril4, concat_last. rewrite !fmap_replicate, !zip_with_replicate.
  split; [by rewrite length_replicate|].
  apply Forall_replicate. split; [done|]. constructor; [|done].
  rewrite zip_with_replicate_l by (by rewrite length_imap, length_replicate).
  split; [by rewrite length_fmap, length_imap, length_replicate|].
  apply Forall_fmap, Forall_lookup. intros i row.
  rewrite list_lookup_imap. intros Hrow.
  apply fmap_Some in Hrow as (r & Hr & ->). apply lookup_replicate in Hr as [-> _].
  cbn. rewrite length_app, length_tril_row, !length_replicate. lia.
Qed.

Lemma has_shape4_zero_left_columns (n b c r k : nat) t :
  has_shape4 b c r k t → has_shape4 b c r k (zero_left_columns n t).
Proof.
  unfold has_shape4, zero_left_columns. intros [Hb Hp].
  split; [by rewrite length_fmap|].
  apply Forall_fmap. eapply Forall_impl; [exact Hp|]. cbn.
  intros plane [Hc Hbl]. split; [by rewrite length_fmap|].
  apply Forall_fmap. eapply Forall_impl; [exact Hbl|]. cbn.
  intros block [Hr Hrows]. split; [by rewrite length_fmap|].
  apply Forall_fmap. eapply Forall_impl; [exact Hrows|]. cbn.
  intros row Hk. by rewrite length_zero_left.
Qed.

End HelpersMore.

Module HelpersMoreSpec.
Import Np Helpers Notions HelpersMore.

(** X4.  Whenever [create_causal_mask] returns, for one input token as for
    several, the mask has the shape
    [[batch_size, 1, input_ids_length, sequence_length]]. *)
Theorem causal_mask_shape (input_ids : ids_arg) (attention_mask : mask_arg)
  (cm : list (list (list (list Z)))) :
  create_causal_mask input_ids attention_mask = Some cm →
  has_shape4 (ids_shape input_ids).1 1 (ids_shape input_ids).2
    (mask_shape attention_mask).1 cm.
Proof.
  unfold create_causal_mask.
  destruct (ids_shape input_ids) as [b l], (mask_shape attention_mask) as [s m].
  cbn [fst snd]. case_decide as Hl.
  - subst l. apply has_shape4_reshape.
  - destruct (causal_mask_unzeroed b l s) as [unz|] eqn:Hu; [|done].
    cbn. intros [= <-].
    by apply has_shape4_zero_left_columns, has_shape4_unzeroed.
Qed.

Lemma causal_mask_shape_witness :
  ∃ cm, create_causal_mask (IdsArray [[1;2;3]; [4;5;6]])
          (MaskArray [[0;1;1;1;1]; [1;1;1;1;1]]) = Some cm
        ∧ has_shape4 2 1 3 5 cm.
Proof.
  eexists. split; [reflexivity|].
  exact (causal_mask_shape (IdsArray [[1;2;3]; [4;5;6]])
           (MaskArray [[0;1;1;1;1]; [1;1;1;1;1]]) _ eq_refl).
Defined.

(** X5.  [pad_to_fixed_length] along axis 1 of an array of [k] columns
    succeeds exactly when [max_len] is at least [k]; every row then has
    [max_len] entries, the first [k] are the row it had, and the others are
    [value]. *)
Theorem padding_keeps_the_rows {A} (array : list (list A)) (k max_len : nat)
  (value : A) :
  rectangular k array → array ≠ [] →
  if decide (k ≤ max_len)%nat then
    ∃ padded_array,
      pad_to_fixed_length array max_len value = Some padded_array
      ∧ rectangular max_len padded_array
      ∧ take k <$> padded_array = array
      ∧ drop k <$> padded_array
        = replicate (length array) (replicate (max_len - k) value)
  else pad_to_fixed_length array max_len value = None.
Proof.
  intros Hrect Hne. unfold pad_to_fixed_length.
  assert (shape1 array = k) as ->.
  { destruct array as [|r rest]; [done|]. by apply Forall_cons in Hrect as [? _]. }
  case_decide as Hk.
  - rewrite decide_False by lia. eexists. split; [done|]. clear Hne.
    induction Hrect as [|row rest Hrow Hrest (IH1 & IH2 & IH3)];
      [split_and!; by try constructor|].
    rewrite !fmap_cons. split_and!.
    + constructor; [|done]. rewrite length_app, length_replicate. lia.
    + f_equal; [|done]. by rewrite take_app_length'.
    + cbn [length replicate]. f_equal; [|done]. by rewrite drop_app_length'.
  - by rewrite decide_True by lia.
Qed.

Lemma padding_keeps_the_rows_witness :
  ∃ padded_array,
    pad_to_fixed_length [[1; 2]; [3; 4]] 4 0 = Some padded_array
    ∧ rectangular 4 padded_array
    ∧ take 2 <$> padded_array = [[1; 2]; [3; 4]]
    ∧ drop 2 <$> padded_array = replicate 2 (replicate (4 - 2) 0).
Proof.
  exact (padding_keeps_the_rows [[1; 2]; [3; 4]] 2 4 0
           ltac:(by repeat constructor) ltac:(done)).
Defined.

End HelpersMoreSpec.

(** ** The prompt, its chunks and the session ids of a batch *)


Module PromptFacts.
Import Np Py SessionStore TextGeneration Notions.

Lemma masked_row_offset (r : nat) (ids : list (list Z)) (ids_row mask_row : list Z)
  (o : nat) :
  ids !! r = Some ids_row → (o + length mask_row ≤ length ids_row)%nat →
  foldr (λ '(c, m) acc,
           if decide (m = 0) then acc
           else
             x ← of_option IndexError (row ← ids !! r; row !! c);
             xs ← acc;
             Val (Some x :: xs))
        (Val []) (imap (λ j m, ((o + j)%nat, m)) mask_row)
  = Val (Some <$> attended (drop o ids_row) mask_row).
Proof.
  intros Hr. revert o. induction mask_row as [|m rest IH]; intros o Hlen.
  - cbn. unfold attended. by rewrite zip_with_nil_r.
  - cbn [imap foldr]. cbn [length] in Hlen.
    rewrite (imap_ext _ (λ j m, ((S o + j)%nat, m))) by (intros; cbn; f_equal; lia).
    rewrite (IH (S o)) by lia.
    destruct (lookup_lt_is_Some_2 ids_row o) as [x Hx]; [lia|].
    rewrite (drop_S _ _ _ Hx). unfold attended. cbn [zip_with].
    rewrite filter_cons. cbn [snd]. rewrite Nat.add_0_r, Hr. cbn. rewrite Hx.
    destruct (decide (m = 0)); [by rewrite decide_False by tauto|].
    by rewrite decide_True.
Qed.

Lemma masked_row_attended (r : nat) (ids : list (list Z)) (ids_row mask_row : list Z) :
  ids !! r = Some ids_row → length ids_row = length mask_row →
  masked_row r ids mask_row = Val (Some <$> attended ids_row mask_row).
Proof.
  intros Hr Hlen.
  pose proof (masked_row_offset r ids ids_row mask_row 0 Hr ltac:(lia)) as Ho.
  rewrite drop_0 in Ho. exact Ho.
Qed.

Lemma masked_rows_attended (pre ids mask : list (list Z)) :
  Forall2 (λ ids_row mask_row, length ids_row = length mask_row) ids mask →
  masked_rows (length pre) (pre ++ ids) mask
  = Val (Some <$> concat (zip_with attended ids mask)).
Proof.
  intros Hshape. revert pre.
  induction Hshape as [|ids_row mask_row ids mask Hlen Hrest IH]; intros pre; [done|].
  cbn [masked_rows zip_with concat].
  rewrite (masked_row_attended _ _ ids_row) by (done || by rewrite list_lookup_middle).
  cbn.
  replace (pre ++ ids_row :: ids) with ((pre ++ [ids_row]) ++ ids)
    by (by rewrite <- app_assoc).
  replace (S (length pre)) with (length (pre ++ [ids_row]))
    by (rewrite length_app; cbn; lia).
  rewrite IH. cbn. by rewrite fmap_app.
Qed.

Lemma attended_left_padded (pads toks : list Z) :
  attended (pads ++ toks)
    (replicate (length pads) 0 ++ replicate (length toks) 1) = toks.
Proof.
  unfold attended.
  rewrite zip_with_app by (by rewrite length_replicate).
  rewrite filter_app, fmap_app.
  assert (filter (λ p : Z * Z, p.2 ≠ 0) (zip pads (replicate (length pads) 0)) = [])
    as ->.
  { induction pads as [|x pads IH]; [done|]. cbn [length replicate zip_with].
    rewrite filter_cons. cbn [snd]. by rewrite decide_False by tauto. }
  cbn. induction toks as [|x toks IH]; [done|]. cbn [length replicate zip_with].
  rewrite filter_cons. cbn [snd]. rewrite decide_True by done. cbn. by rewrite IH.
Qed.

Lemma slice_chunk {A} (l : list A) (i p : nat) :
  slice l (i * p) ((i + 1) * p) = take p (drop (i * p) l).
Proof. unfold slice. f_equal. lia. Qed.

Lemma concat_chunks_take {A} (l : list A) (p n : nat) :
  concat ((λ i, take p (drop (i * p) l)) <$> seq 0 n) = take (n * p) l.
Proof.
  induction n as [|n IH]; [done|].
  rewrite seq_S, fmap_app, concat_app, IH. cbn.
  rewrite app_nil_r, take_take_drop. f_equal. lia.
Qed.

Lemma distribute_zip (ids : list string) (i : nat) (batches : list (list item)) :
  (i + length batches ≤ length ids)%nat →
  distribute (Some ids) i batches
  = Val (zip_with (λ batch s, batch ++ [ItemId s]) batches (drop i ids)).
Proof.
  revert i. induction batches as [|b batches IH]; intros i Hlen; [done|].
  cbn [length] in Hlen. cbn [distribute with_session_id].
  destruct (lookup_lt_is_Some_2 ids i) as [s Hs]; [lia|].
  rewrite Hs. cbn. rewrite IH by lia. cbn. by rewrite (drop_S _ _ _ Hs).
Qed.

End PromptFacts.

Module PromptSpec.
Import Np Py SessionStore TextGeneration Notions PromptFacts BatchFacts.

(** X6.  The prompt that [prompt_inference] reads off the engine inputs is
    made of the input ids at the columns where the attention mask is not
    zero, row after row; for a row padded on the left these are the tokens
    without the padding, whatever the pad token. *)
Theorem prompt_tokens_are_the_attended_ids
  (ids mask : list (list Z)) (rest : list item) :
  Forall2 (λ ids_row mask_row, length ids_row = length mask_row) ids mask →
  prompt_tokens (ItemArray (Arr2 ids) :: ItemArray (Arr2 mask) :: rest)
  = Val (Some <$> concat (zip_with attended ids mask))
  ∧ ∀ pads toks,
      ids = [pads ++ toks] →
      mask = [replicate (length pads) 0 ++ replicate (length toks) 1] →
      prompt_tokens (ItemArray (Arr2 ids) :: ItemArray (Arr2 mask) :: rest)
      = Val (Some <$> toks).
Proof.
  intros Hshape.
  assert (prompt_tokens (ItemArray (Arr2 ids) :: ItemArray (Arr2 mask) :: rest)
          = Val (Some <$> concat (zip_with attended ids mask))) as Hp
    by exact (masked_rows_attended [] ids mask Hshape).
  split; [done|]. intros pads toks -> ->. rewrite Hp. cbn [zip_with concat].
  by rewrite attended_left_padded, app_nil_r.
Qed.

Lemma prompt_tokens_are_the_attended_ids_witness :
  prompt_tokens [ItemArray (Arr2 [[9; 9; 11; 12; 13]]);
                 ItemArray (Arr2 [[0; 0; 1; 1; 1]])]
  = Val [Some 11; Some 12; Some 13].
Proof.
  exact (proj1 (prompt_tokens_are_the_attended_ids
                  [[9; 9; 11; 12; 13]] [[0; 0; 1; 1; 1]] []
                  ltac:(by repeat constructor))).
Defined.

(** X7.  For a positive chunk length [p], the generator of prefill inputs
    cuts the first [len(tokens) // p] chunks of exactly [p] tokens from the
    prompt, in order; the tokens after them, fewer than [p], belong to no
    chunk. *)
Theorem prefill_chunks_are_full_and_in_order
  (self : TextGenerationPipeline) (tokens : list token) :
  0 < prompt_processing_sequence_length self →
  let p := Z.to_nat (prompt_processing_sequence_length self) in
  ∃ batches,
    token_batches self tokens = Val batches
    ∧ length batches = (length tokens / p)%nat
    ∧ Forall (λ token_batch, length token_batch = p) batches
    ∧ concat batches = take (length batches * p) tokens
    ∧ (length tokens - length batches * p < p)%nat.
Proof.
  intros Hp p. unfold token_batches. rewrite decide_False by lia.
  eexists. split; [done|].
  assert (Z.to_nat (Z.of_nat (length tokens) `div` prompt_processing_sequence_length self)
          = (length tokens / p)%nat) as ->.
  { unfold p. rewrite <- (Z2Nat.id (prompt_processing_sequence_length self)) at 1 by lia.
    rewrite <- Nat2Z.inj_div. apply Nat2Z.id. }
  fold p. rewrite length_fmap, length_seq.
  assert (0 < p)%nat as Hp' by (unfold p; lia).
  pose proof (Nat.div_mod_eq (length tokens) p) as Hdiv.
  pose proof (Nat.mod_upper_bound (length tokens) p ltac:(lia)) as Hmod.
  split_and!; [done| | |nia].
  - apply Forall_fmap, Forall_forall. intros i Hi%elem_of_seq. cbn.
    rewrite slice_chunk, length_take, length_drop.
    assert ((i + 1) * p ≤ length tokens / p * p)%nat by (apply Nat.mul_le_mono_r; lia).
    nia.
  - rewrite <- concat_chunks_take. f_equal. apply list_fmap_ext.
    intros j i _. apply slice_chunk.
Qed.

Lemma prefill_chunks_are_full_and_in_order_witness :
  ∃ batches,
    token_batches (Toy.pipeline true)
      (Some <$> [1; 2; 3; 4; 5; 6; 7; 8; 9; 10]) = Val batches
    ∧ length batches = 2%nat
    ∧ Forall (λ token_batch, length token_batch = 4%nat) batches
    ∧ concat batches = take (length batches * 4) (Some <$> [1; 2; 3; 4; 5; 6; 7; 8; 9; 10])
    ∧ (10 - length batches * 4 < 4)%nat.
Proof.
  exact (prefill_chunks_are_full_and_in_order (Toy.pipeline true)
           (Some <$> [1; 2; 3; 4; 5; 6; 7; 8; 9; 10]) ltac:(by vm_compute)).
Defined.

(** X8.  [engine_forward] takes the first string among the engine inputs
    as the session id and removes that entry only: [pop_session_id] returns
    [s] and [rest] exactly when the inputs are [rest] with [s] put in before
    which no entry is a string. *)
Theorem session_id_is_the_first_string
  (engine_inputs rest : list item) (s : string) :
  pop_session_id engine_inputs = Val (s, rest)
  ↔ ∃ before after,
      engine_inputs = before ++ ItemId s :: after
      ∧ rest = before ++ after
      ∧ Forall (λ x, is_str x = false) before.
Proof.
  split.
  - revert rest. induction engine_inputs as [|x inputs IH]; intros rest; [done|].
    destruct x as [a|l|s']; cbn [pop_session_id].
    + destruct (pop_session_id inputs) as [[s0 rest0]|] eqn:Hpop; [|done].
      cbn. intros [= -> <-].
      destruct (IH _ eq_refl) as (before & after & -> & -> & Hb).
      exists (ItemArray a :: before), after. split_and!; try done. by constructor.
    + destruct (pop_session_id inputs) as [[s0 rest0]|] eqn:Hpop; [|done].
      cbn. intros [= -> <-].
      destruct (IH _ eq_refl) as (before & after & -> & -> & Hb).
      exists (ItemIds l :: before), after. split_and!; try done. by constructor.
    + intros [= -> <-]. by exists [], inputs.
  - intros (before & after & -> & -> & Hb).
    induction Hb as [|x before Hx Hb IH]; [done|].
    destruct x as [a|l|s']; [| |done]; cbn [pop_session_id app]; by rewrite IH.
Qed.

Lemma session_id_is_the_first_string_witness :
  pop_session_id [ItemArray (Arr2 [[1]]); ItemId "s"; ItemId "t"]
  = Val ("s", [ItemArray (Arr2 [[1]]); ItemId "t"]).
Proof.
  apply (proj2 (session_id_is_the_first_string
                  [ItemArray (Arr2 [[1]]); ItemId "s"; ItemId "t"]
                  [ItemArray (Arr2 [[1]]); ItemId "t"] "s")).
  exists [ItemArray (Arr2 [[1]])], [ItemId "t"]. split_and!; try done.
  by repeat constructor.
Defined.

(** X9.  [split_engine_inputs] of the pipeline, in full: the sub-batches of
    the generic splitter, the sub-batch [i] with the session id [i] of the
    list appended.  Ids beyond the number of sub-batches are ignored; too few
    ids raise [IndexError], and no list of ids at all raises [TypeError]
    unless there is no sub-batch. *)
Theorem split_engine_inputs_appends_ids_in_order
  (generic_split : list item → Z → pyres (list (list item) * Z))
  (items : list item) (batch_size : Z) (batches : list (list item)) (n : Z) :
  generic_split (filter (λ x, is_list x = false) items) batch_size
  = Val (batches, n) →
  split_engine_inputs generic_split items batch_size
  = match first_list items with
    | Some session_ids =>
        if decide (length batches ≤ length session_ids)%nat
        then Val (zip_with (λ batch s, batch ++ [ItemId s]) batches session_ids, n)
        else Exc IndexError
    | None => if decide (batches = []) then Val ([], n) else Exc TypeError
    end.
Proof.
  intros Hsplit. unfold split_engine_inputs. rewrite Hsplit. cbn.
  destruct (first_list items) as [ids|].
  - case_decide as Hlen.
    + by rewrite distribute_zip, drop_0 by (cbn; lia).
    + by rewrite distribute_short by (cbn; lia).
  - destruct batches; [by rewrite decide_True|]. by rewrite decide_False.
Qed.

Lemma split_engine_inputs_appends_ids_in_order_witness :
  split_engine_inputs data_split_engine_inputs
    [ItemArray (Arr2 [[1]; [2]]); ItemIds ["a"]] 1
  = Exc IndexError.
Proof.
  exact (split_engine_inputs_appends_ids_in_order data_split_engine_inputs
           [ItemArray (Arr2 [[1]; [2]]); ItemIds ["a"]] 1 _ _ eq_refl).
Defined.

End PromptSpec.

(** ** The engines: construction, synchronization, single steps *)


Module EngineFacts.
Import Np Py SessionStore TextGeneration Notions RunFacts DecodeFacts.
Section WithEngine.
Context `{EngineModel}.

Lemma transfer_lookup (store : gmap string session) (provided : option session)
  (k : string) :
  (transfer store provided).1 !! k
  = match provided with
    | Some s =>
        if decide (id s = k)
        then if ts_gt (timestamp_of (store !! k)) (Some (timestamp s))
             then store !! k else Some s
        else store !! k
    | None => store !! k
    end.
Proof.
  unfold transfer. destruct provided as [s|]; [|done].
  case_decide as Hk.
  - subst k. destruct (ts_gt _ _); cbn [fst]; [done|]. by rewrite lookup_insert_eq.
  - destruct (ts_gt _ _); cbn [fst]; [done|]. by rewrite lookup_insert_ne.
Qed.

Lemma transfer_keyed (store : gmap string session) (provided : option session) :
  keyed_by_id store → keyed_by_id (transfer store provided).1.
Proof.
  intros Hk k s. rewrite transfer_lookup.
  destruct provided as [s'|]; [|apply Hk].
  case_decide; [|apply Hk]. destruct (ts_gt _ _); [apply Hk|]. by intros [= <-].
Qed.

End WithEngine.
End EngineFacts.

Module EngineSpec.
Import Np Py SessionStore TextGeneration Notions RunFacts DecodeFacts EngineFacts.

(** X10.  [initialize_engines] builds the single-token engine exactly for
    a model with cache support, and the multitoken engine exactly for a
    model without cache support or with a causal-mask input; so at least
    one of them is built, and the assertion that ends the method cannot
    fail. *)
Theorem at_least_one_engine_is_built `{EngineModel}
  (self : TextGenerationPipeline)
  (engine multitoken_engine : option (NLDecoderEngine internals)) :
  initialize_engines self = Val (engine, multitoken_engine) →
  (is_Some engine ↔ cache_support_enabled self = true)
  ∧ (is_Some multitoken_engine
     ↔ cache_support_enabled self = false ∨ enable_multitoken_prefill self = true)
  ∧ (is_Some engine ∨ is_Some multitoken_engine).
Proof.
  unfold initialize_engines.
  destruct (cache_support_enabled self), (enable_multitoken_prefill self);
    cbn; repeat case_match; cbn; intros [= <- <-];
    split_and!; try split; try (intros [|]); try done; eauto;
    try (by intros [? ?]).
Qed.

Lemma at_least_one_engine_is_built_witness :
  ∃ e m, @initialize_engines Toy.toy (Toy.pipeline true) = Val (Some e, Some m).
Proof.
  destruct (@initialize_engines Toy.toy (Toy.pipeline true)) as [[e m]|x] eqn:Hi;
    [|by vm_compute in Hi].
  destruct (at_least_one_engine_is_built (Toy.pipeline true) e m Hi)
    as ([_ He] & [_ Hm] & _).
  destruct (He eq_refl) as [e' ->], (Hm (or_intror eq_refl)) as [m' ->].
  by exists e', m'.
Defined.

(** X11.  A pipeline that the constructor returns uses the DeepSparse cache
    only with the DeepSparse engine type, whatever was asked for; without
    cache support it generates at most one token; and it starts with no
    engine call made. *)
Theorem constructed_pipeline_invariants `{EngineModel} (args : init_args)
  (self : TextGenerationPipeline) (w : world) :
  init args = Val (self, w) →
  (use_deepsparse_cache self = true
   → arg_use_deepsparse_cache args = true ∧ engine_type self = DEEPSPARSE_ENGINE)
  ∧ (cache_support_enabled self = false
     → ∃ n, max_generated_tokens self = Some n ∧ n ≤ 1)
  ∧ initialize_engines self = Val (engine w, multitoken_engine w)
  ∧ trace w = [].
Proof.
  unfold init. intros Hinit. cbv zeta in Hinit.
  match type of Hinit with
  | context [initialize_engines ?s] => set (self0 := s) in Hinit
  end.
  assert ((cache_support_enabled self0 = false
           → ∃ n, max_generated_tokens self0 = Some n ∧ n ≤ 1)
          ∧ (x ← initialize_engines self0;
             let '(engine, multitoken_engine) := x in
             Val (self0, World engine multitoken_engine []))
            = Val (self, w)) as [Hmax Hrun].
  { cbn [cache_support_enabled max_generated_tokens self0].
    destruct (is_cache_support_enabled args); cbn [negb] in Hinit.
    - split; [done|]. exact Hinit.
    - destruct (arg_max_generated_tokens args) as [n|]; [|done].
      case_decide; [done|]. split; [|exact Hinit].
      intros _. exists n. split; [done|lia]. }
  clear Hinit.
  destruct (initialize_engines self0) as [[e m]|x] eqn:Hi; [|done].
  cbn in Hrun. injection Hrun as <- <-.
  split_and!; try done.
  cbn [use_deepsparse_cache engine_type self0].
  destruct (arg_use_deepsparse_cache args); [|done].
  intros Hd%bool_decide_eq_true. done.
Qed.

Lemma constructed_pipeline_invariants_witness :
  ∃ self w,
    @init Toy.toy
      {| arg_deterministic := true;
         arg_max_generated_tokens := Some 1;
         arg_prompt_processing_sequence_length := 4;
         arg_force_max_tokens := false;
         arg_use_deepsparse_cache := true;
         arg_engine_type := Some "onnxruntime";
         arg_sequence_length := 8;
         causal_mask_input_present := true;
         is_cache_support_enabled := false;
         tokenizer_eos_token_id := Some 2;
         tokenizer_pad_token_id := None;
         tokenizer_has_add_bos_token := false |} = Val (self, w)
    ∧ use_deepsparse_cache self = false
    ∧ trace w = [].
Proof.
  eexists _, _. split; [reflexivity|]. split; [reflexivity|].
  eapply (constructed_pipeline_invariants
            {| arg_deterministic := true;
               arg_max_generated_tokens := Some 1;
               arg_prompt_processing_sequence_length := 4;
               arg_force_max_tokens := false;
               arg_use_deepsparse_cache := true;
               arg_engine_type := Some "onnxruntime";
               arg_sequence_length := 8;
               causal_mask_input_present := true;
               is_cache_support_enabled := false;
               tokenizer_eos_token_id := Some 2;
               tokenizer_pad_token_id := None;
               tokenizer_has_add_bos_token := false |}).
  reflexivity.
Defined.

End EngineSpec.

Module StepSpec.
Import Np Py SessionStore TextGeneration Notions RunFacts DecodeFacts EngineFacts PromptFacts.

Ltac run_cases :=
  unfold lift, attr_of, get_engine, set_engine, log, raise in *;
  unfold mbind, M_bind, mret, M_ret in *;
  repeat (case_match; simplify_eq/=; try done).

(** X12.  After [synchronize_engines], both engines hold for the session
    the newer of the two entries they held (that of the multitoken engine
    when the timestamps are equal, none when there was none); the entries of
    the other sessions are untouched, and no engine has been called.  The
    stores are assumed to keep every entry under its own session id. *)
Theorem engines_agree_after_synchronizing `{EngineModel}
  (session_id : string) (w : world) (e m : NLDecoderEngine internals) :
  engine w = Some e → multitoken_engine w = Some m →
  keyed_by_id (kv_cache_storage e) → keyed_by_id (kv_cache_storage m) →
  ∃ e' m' w',
    synchronize_engines session_id w = Ok () w'
    ∧ engine w' = Some e' ∧ multitoken_engine w' = Some m'
    ∧ kv_cache_storage e' !! session_id
      = newest (kv_cache_storage e !! session_id) (kv_cache_storage m !! session_id)
    ∧ kv_cache_storage m' !! session_id
      = newest (kv_cache_storage e !! session_id) (kv_cache_storage m !! session_id)
    ∧ (∀ k, k ≠ session_id →
         kv_cache_storage e' !! k = kv_cache_storage e !! k
         ∧ kv_cache_storage m' !! k = kv_cache_storage m !! k)
    ∧ ∀ target, calls target w' = calls target w.
Proof.
  intros He Hm Hke Hkm.
  eexists _, _, _. split; [by apply synchronize_engines_eq|].
  unfold synced. cbn [engine multitoken_engine].
  split; [done|]. split; [done|].
  set (es := kv_cache_storage e !! session_id).
  set (ms := kv_cache_storage m !! session_id).
  assert (∀ s, es = Some s → id s = session_id) as Hes by (intros s; apply Hke).
  assert (∀ s, ms = Some s → id s = session_id) as Hms by (intros s; apply Hkm).
  assert (∀ k, (if ts_gt (timestamp_of es) (timestamp_of ms)
                then with_store m (transfer (kv_cache_storage m) es).1
                else m).(kv_cache_storage) !! k
               = if ts_gt (timestamp_of es) (timestamp_of ms)
                 then (transfer (kv_cache_storage m) es).1 !! k
                 else kv_cache_storage m !! k) as Hmk
    by (intros k; by destruct (ts_gt _ _)).
  split_and!.
  - cbn [with_store kv_cache_storage]. rewrite transfer_lookup. unfold newest. fold es.
    destruct ms as [s'|] eqn:Hms'.
    + rewrite decide_True by (by apply Hms). by destruct (ts_gt _ _).
    + destruct es; [done|]. done.
  - rewrite Hmk. unfold newest.
    destruct (ts_gt (timestamp_of es) (timestamp_of ms)) eqn:Hnewer; [|done].
    rewrite transfer_lookup. fold ms.
    destruct es as [s|] eqn:Hes'; [|done].
    rewrite decide_True by (by apply Hes).
    destruct ms as [s'|]; cbn in *; [|done].
    apply bool_decide_eq_true in Hnewer.
    by rewrite bool_decide_eq_false_2 by lia.
  - intros k Hk. rewrite Hmk. cbn [with_store kv_cache_storage].
    rewrite !transfer_lookup. split.
    + destruct ms as [s'|] eqn:Hms'; [|done].
      rewrite decide_False; [done|]. rewrite (Hms s' eq_refl). done.
    + destruct (ts_gt _ _); [|done].
      destruct es as [s|] eqn:Hes'; [|done].
      rewrite decide_False; [done|]. rewrite (Hes s eq_refl). done.
  - intros target.
    exact (f_equal length (invocations_synced target session_id e m w)).
Qed.

Lemma engines_agree_after_synchronizing_witness :
  ∃ e' m' w',
    @synchronize_engines Toy.toy "s"
      (@World Toy.toy (Some (Toy.scripted 1 {["s" := Session "s" 7 3]} []))
         (Some (Toy.scripted 4 {["s" := Session "s" 5 4]} [])) []) = Ok () w'
    ∧ engine w' = Some e' ∧ multitoken_engine w' = Some m'
    ∧ kv_cache_storage e' !! "s" = Some (Session "s" 7 3)
    ∧ kv_cache_storage m' !! "s" = Some (Session "s" 7 3).
Proof.
  assert (∀ k v, keyed_by_id ({[k := Session k v.1 v.2]} : gmap string session))
    as Hkeyed.
  { intros k v k' s [<- <-]%lookup_singleton_Some. done. }
  destruct (engines_agree_after_synchronizing (H:=Toy.toy) "s"
              (@World Toy.toy (Some (Toy.scripted 1 {["s" := Session "s" 7 3]} []))
                 (Some (Toy.scripted 4 {["s" := Session "s" 5 4]} [])) [])
              _ _ eq_refl eq_refl (Hkeyed "s" (7, 3)) (Hkeyed "s" (5, 4)))
    as (e' & m' & w' & Hrun & He & Hm & Hes & Hms & _).
  exists e', m', w'. split_and!; try done.
Defined.

Lemma lookup_all_Exc (f_ids : ndarray) (f_mask : list (list Z)) cm pos
  (names : list string) (x : exn) :
  lookup_all (engine_inputs_map f_ids f_mask cm pos) names = Exc x →
  x = KeyError.
Proof.
  induction names as [|name names IH]; [done|]. cbn [lookup_all].
  destruct (engine_inputs_map f_ids f_mask cm pos name) as [v|y] eqn:Hv.
  - cbn. destruct (lookup_all _ names) as [vs|z]; cbn; [done|].
    intros [= <-]. by apply IH.
  - cbn. intros [= <-]. unfold engine_inputs_map in Hv.
    repeat case_decide; by simplify_eq.
Qed.

(** X13.  What [autoregressive_inference] checks before it calls the
    engine, in this order: without a single-token engine it raises
    [AttributeError]; on an empty list of tokens [IndexError]; for a negative
    [sequence_length] [ValueError]; and when the engine has an input name
    other than [input_ids], [attention_mask], [causal_mask] and [positions]
    [KeyError].  In each case the engine has not been called: the engines,
    their caches and the events are as before. *)
Theorem step_raises_before_the_engine_call `{EngineModel}
  (self : TextGenerationPipeline) (tokens : list token) (session_id : string)
  (w : world) :
  (engine w = None →
   autoregressive_inference self tokens session_id w = Raise AttributeError w)
  ∧ (is_Some (engine w) → tokens = [] →
     autoregressive_inference self tokens session_id w = Raise IndexError w)
  ∧ (is_Some (engine w) → tokens ≠ [] → sequence_length self < 0 →
     autoregressive_inference self tokens session_id w = Raise ValueError w)
  ∧ (∀ e, engine w = Some e → tokens ≠ [] → 0 ≤ sequence_length self →
     ¬ Forall known_name (onnx_input_names_no_cache e) →
     autoregressive_inference self tokens session_id w = Raise KeyError w).
Proof.
  assert (∀ e, engine w = Some e → tokens ≠ [] →
            ∃ t, autoregressive_inference self tokens session_id w
                 = (attention_mask ←
                      lift (ones_from_right (sequence_length self)
                              (Z.min (num_non_blank_cache_entries e session_id + 1)
                                 (sequence_length self)));
                    causal_mask ←
                      lift (ids ← ids_of (token_array [t]);
                            of_option ValueError
                              (Helpers.create_causal_mask ids
                                 (Helpers.MaskArray attention_mask)));
                    e' ← attr_of SingleToken;
                    engine_inputs ←
                      lift (lookup_all
                              (engine_inputs_map (token_array [t]) attention_mask
                                 causal_mask
                                 [[num_non_blank_cache_entries e session_id + 1 - 1]])
                              (onnx_input_names_no_cache e'));
                    call_engine SingleToken engine_inputs (Some session_id)) w)
    as Hstep.
  { intros e He Hne. destruct (last tokens) as [t|] eqn:Hlast.
    2:{ by apply last_None in Hlast. }
    exists t. unfold autoregressive_inference.
    rewrite bind_eq, (attr_of_eq SingleToken w e He). cbv beta iota zeta.
    rewrite Hlast. cbn [of_option lift]. by rewrite bind_eq, ret_eq. }
  split_and!.
  - intros He. unfold autoregressive_inference, attr_of, get_engine.
    rewrite !bind_eq. by rewrite He.
  - intros [e He] ->. unfold autoregressive_inference.
    rewrite bind_eq, (attr_of_eq SingleToken w e He). cbv beta iota zeta.
    by rewrite bind_eq.
  - intros [e He] Hne HS. destruct (Hstep e He Hne) as [t ->].
    unfold ones_from_right. rewrite decide_True by lia. by rewrite bind_eq.
  - intros e He Hne HS Hnames. destruct (Hstep e He Hne) as [t ->].
    destruct (ones_from_right_row (sequence_length self)
                (Z.min (num_non_blank_cache_entries e session_id + 1)
                   (sequence_length self)) HS) as (row & -> & _).
    cbn [lift]. rewrite bind_eq, ret_eq. cbv beta iota.
    rewrite bind_eq, step_causal_mask. cbn [lift]. rewrite ret_eq. cbv beta iota.
    rewrite bind_eq, (attr_of_eq SingleToken w e He). cbv beta iota.
    rewrite bind_eq.
    destruct (lookup_all _ (onnx_input_names_no_cache e)) as [inputs|x] eqn:Hl.
    + exfalso. apply Hnames. by eapply lookup_all_Val_known.
    + by rewrite (lookup_all_Exc _ _ _ _ _ _ Hl).
Qed.

Lemma step_raises_before_the_engine_call_witness :
  @autoregressive_inference Toy.toy (Toy.pipeline true) [] "s"
    (@World Toy.toy (Some (Toy.scripted 1 ∅ [])) None [])
  = Raise IndexError (@World Toy.toy (Some (Toy.scripted 1 ∅ [])) None []).
Proof.
  apply (step_raises_before_the_engine_call (H:=Toy.toy) (Toy.pipeline true) [] "s"
           (@World Toy.toy (Some (Toy.scripted 1 ∅ [])) None []));
    [by eexists | done].
Defined.

(** X14.  The inputs of a single step.  With [c] cache entries for the
    session, [autoregressive_inference] feeds the engine the last token of
    the context as [input_ids], the position [c], and an attention mask of
    [sequence_length] entries whose last [min (c + 1) sequence_length] are
    one and the others zero; the causal mask is that same row, and the
    values come in the order of the engine's input names.  The step returns
    what the engine returns. *)
Theorem single_step_inputs `{EngineModel}
  (self : TextGenerationPipeline) (tokens : list token) (session_id : string)
  (w : world) (e : NLDecoderEngine internals) (z : Z) :
  engine w = Some e → last tokens = Some (Some z) →
  0 < sequence_length self →
  0 ≤ num_non_blank_cache_entries e session_id →
  Forall known_name (onnx_input_names_no_cache e) →
  let c := num_non_blank_cache_entries e session_id in
  let k := Z.to_nat (Z.min (c + 1) (sequence_length self)) in
  let mask :=
    replicate (Z.to_nat (sequence_length self) - k) 0 ++ replicate k 1 in
  ∃ engine_inputs,
    lookup_all (engine_inputs_map (Arr2 [[z]]) [mask] [[[mask]]] [[c]])
      (onnx_input_names_no_cache e) = Val engine_inputs
    ∧ autoregressive_inference self tokens session_id w
      = Ok (invoke e engine_inputs (Some session_id)).2
          (after_call e engine_inputs session_id w).
Proof.
  intros He Hlast HS Hc Hnames c k mask.
  destruct (lookup_all_known (Arr2 [[z]]) [mask] [[[mask]]] [[c]] _ Hnames)
    as [engine_inputs Hin].
  exists engine_inputs. split; [done|].
  assert (ones_from_right (sequence_length self)
            (Z.min (c + 1) (sequence_length self)) = Val [mask]) as Hones.
  { unfold ones_from_right, slice_start. rewrite decide_False by lia.
    rewrite decide_True by lia. unfold mask, k. do 3 f_equal; f_equal; lia. }
  unfold autoregressive_inference.
  rewrite bind_eq, (attr_of_eq SingleToken w e He). cbv beta iota zeta.
  rewrite Hlast. cbn [of_option lift]. rewrite bind_eq, ret_eq. cbv beta iota.
  fold c. rewrite Hones. cbn [lift]. rewrite bind_eq, ret_eq. cbv beta iota.
  rewrite bind_eq, (step_causal_mask (Some z)). cbn [lift].
  rewrite ret_eq. cbv beta iota.
  rewrite bind_eq, (attr_of_eq SingleToken w e He). cbv beta iota.
  replace (c + 1 - 1) with c by lia.
  change (token_array [Some z]) with (Arr2 [[z]]).
  rewrite Hin. cbn [lift]. rewrite bind_eq, ret_eq. cbv beta iota.
  unfold call_engine, after_call, get_engine, set_engine, log.
  unfold mbind, M_bind, mret, M_ret. rewrite He.
  by destruct (invoke e engine_inputs (Some session_id)) as [[store st] out].
Qed.

Lemma single_step_inputs_witness :
  ∃ engine_inputs,
    lookup_all
      (engine_inputs_map (Arr2 [[13]]) [[0; 0; 0; 0; 0; 1; 1; 1]]
         [[[[0; 0; 0; 0; 0; 1; 1; 1]]]] [[2]]) Toy.all_names = Val engine_inputs
    ∧ fst <$> result_of
        (@autoregressive_inference Toy.toy (Toy.pipeline true)
           [Some 11; Some 12; Some 13] "s"
           (@World Toy.toy
              (Some (Toy.scripted 1 {["s" := Session "s" 2 2]} [5])) None []))
      = Some (Some 5).
Proof.
  destruct (single_step_inputs (H:=Toy.toy) (Toy.pipeline true)
              [Some 11; Some 12; Some 13] "s"
              (@World Toy.toy
                 (Some (Toy.scripted 1 {["s" := Session "s" 2 2]} [5])) None [])
              _ 13 eq_refl eq_refl ltac:(by vm_compute) ltac:(by vm_compute)
              ltac:(repeat (apply Forall_cons_2 || apply Forall_nil_2);
                    unfold known_name; auto 6))
    as (engine_inputs & Hin & Hrun).
  exists engine_inputs. split; [exact Hin|]. by rewrite Hrun.
Defined.

(** X15.  Without cache support [engine_forward] is one forward pass:
    one call of the multitoken engine on the inputs as they are and under no
    session id; it returns the engine's token as a 1-d array of one entry,
    the engine's logits as they are and the array [[None]], and it neither
    enters the generation loop nor uses the streamer, whatever the request
    says. *)
Theorem forward_without_cache_is_one_call `{EngineModel}
  (fuel : nat) (self : TextGenerationPipeline) (engine_inputs : list item)
  (ctx : context) (w : world) (m : NLDecoderEngine internals) :
  cache_support_enabled self = false →
  multitoken_engine w = Some m →
  ∃ w',
    engine_forward fuel self engine_inputs ctx w
    = Ok (Tokens1 [(invoke m engine_inputs None).2.1],
          [(invoke m engine_inputs None).2.2], [None]) w'
    ∧ trace w' = trace w ++ [Invoke Multitoken engine_inputs None]
    ∧ engine w' = engine w
    ∧ kv_cache_storage <$> multitoken_engine w'
      = Some (invoke m engine_inputs None).1.1.
Proof.
  intros Hc Hm. unfold engine_forward, call_engine. rewrite Hc.
  unfold get_engine, set_engine, log. unfold mbind, M_bind, mret, M_ret.
  rewrite Hm.
  destruct (invoke m engine_inputs None) as [[store st] [t l]].
  eexists. split; [done|]. done.
Qed.

Lemma forward_without_cache_is_one_call_witness :
  ∃ w',
    @engine_forward Toy.toy 0
      {| engine_type := DEEPSPARSE_ENGINE; sequence_length := 8;
         enable_multitoken_prefill := false; cache_support_enabled := false;
         deterministic := true; max_generated_tokens := Some 1;
         prompt_processing_sequence_length := 4; force_max_tokens := false;
         use_deepsparse_cache := false; eos_token_id := Some 2;
         pad_token_id := Some 2; has_add_bos_token := false |}
      Toy.prompt3 {| streamer := true; include_prompt_logits := true |}
      (@World Toy.toy None (Some (Toy.scripted 4 ∅ [7])) [])
    = Ok (Tokens1 [Some 7], [[7; 7; 7; 7]], [None]) w'
    ∧ trace w' = [Invoke Multitoken Toy.prompt3 None].
Proof.
  destruct (forward_without_cache_is_one_call (H:=Toy.toy) 0
              {| engine_type := DEEPSPARSE_ENGINE; sequence_length := 8;
                 enable_multitoken_prefill := false; cache_support_enabled := false;
                 deterministic := true; max_generated_tokens := Some 1;
                 prompt_processing_sequence_length := 4; force_max_tokens := false;
                 use_deepsparse_cache := false; eos_token_id := Some 2;
                 pad_token_id := Some 2; has_add_bos_token := false |}
              Toy.prompt3 {| streamer := true; include_prompt_logits := true |}
              (@World Toy.toy None (Some (Toy.scripted 4 ∅ [7])) [])
              _ eq_refl eq_refl) as (w' & Hrun & Htrace & _).
  exists w'. split; [exact Hrun|exact Htrace].
Defined.

(** X16.  With cache support [engine_forward] needs the session id among
    its inputs: when no input is a string it raises [StopIteration] before
    it touches an engine. *)
Theorem forward_without_session_id_raises `{EngineModel}
  (fuel : nat) (self : TextGenerationPipeline) (engine_inputs : list item)
  (ctx : context) (w : world) :
  cache_support_enabled self = true →
  Forall (λ x, is_str x = false) engine_inputs →
  engine_forward fuel self engine_inputs ctx w = Raise StopIteration w.
Proof.
  intros Hc Hnone. unfold engine_forward. rewrite Hc.
  assert (pop_session_id engine_inputs = Exc StopIteration) as ->; [|done].
  induction Hnone as [|x inputs Hx Hnone IH]; [done|].
  destruct x as [a|l|s]; [| |done]; cbn [pop_session_id]; by rewrite IH.
Qed.

Lemma forward_without_session_id_raises_witness :
  @engine_forward Toy.toy 10 (Toy.pipeline true) Toy.prompt3 Toy.no_streamer
    (@World Toy.toy None None [])
  = Raise StopIteration (@World Toy.toy None None []).
Proof.
  apply (forward_without_session_id_raises (H:=Toy.toy)); [done|].
  by repeat constructor.
Defined.

End StepSpec.

(** ** The loops: generation and prompt processing *)
Module LoopFacts.
Import Np Py SessionStore TextGeneration Notions RunFacts DecodeFacts EngineFacts PromptFacts.
Section WithEngine.
Context `{EngineModel}.

Ltac run_cases :=
  unfold lift, attr_of, get_engine, set_engine, log, raise in *;
  unfold mbind, M_bind, mret, M_ret in *;
  repeat (case_match; simplify_eq/=; try done).

Lemma call_engine_calls target inputs sid w out w' :
  call_engine target inputs sid w = Ok out w' →
  ∀ t, calls t w' = (calls t w + if bool_decide (target = t) then 1 else 0)%nat.
Proof.
  unfold call_engine. intros Hrun t. run_cases.
  all: unfold calls; cbn [trace]; rewrite invocations_app, length_app;
    f_equal; unfold invocations; rewrite filter_cons, filter_nil; cbn [is_invoke];
    destruct t; by cbn.
Qed.

Lemma prefill_chunk_world self sid idx batch local x w w' :
  prefill_chunk self sid idx batch local w = Ok x w' → w' = w.
Proof. unfold prefill_chunk. intros Hrun. by run_cases. Qed.

Lemma prefill_loop_calls self sid idx batches st w st' w' :
  prefill_loop self sid idx batches st w = Ok st' w' →
  calls Multitoken w' = (calls Multitoken w + length batches)%nat
  ∧ calls SingleToken w' = calls SingleToken w
  ∧ length (prompt_logits st') = (length (prompt_logits st) + length batches)%nat.
Proof.
  revert idx st w. induction batches as [|b batches IH]; intros idx st w; cbn [prefill_loop].
  - intros [= -> ->]. cbn. lia.
  - intros Hrun.
    apply bind_Ok_inv in Hrun as ([inputs local] & w1 & Hchunk & Hrun).
    apply prefill_chunk_world in Hchunk as ->.
    apply bind_Ok_inv in Hrun as ([t l] & w2 & Hcall & Hrun).
    pose proof (call_engine_calls _ _ _ _ _ _ Hcall) as Hcalls.
    apply IH in Hrun as (IH1 & IH2 & IH3).
    rewrite IH1, IH2, IH3, (Hcalls Multitoken), (Hcalls SingleToken).
    rewrite bool_decide_eq_true_2, bool_decide_eq_false_2 by done.
    cbn [prompt_logits length]. rewrite length_app. cbn [length]. lia.
Qed.

Lemma single_token_loop_calls self sid (rest run : list token) nt pl w nt' pl' w' :
  single_token_loop self sid rest run nt pl w = Ok (nt', pl') w' →
  calls SingleToken w' = (calls SingleToken w + length rest)%nat
  ∧ calls Multitoken w' = calls Multitoken w
  ∧ length pl' = (length pl + length rest)%nat.
Proof.
  revert run nt pl w. induction rest as [|t rest IH]; intros run nt pl w;
    cbn [single_token_loop].
  - intros [= -> -> ->]. cbn. lia.
  - intros Hrun.
    apply bind_Ok_inv in Hrun as ([t' l] & w1 & Hstep & Hrun).
    pose proof (autoregressive_inference_calls self (run ++ [t]) sid w) as Hcalls.
    rewrite Hstep in Hcalls. destruct Hcalls as [Hs Hm].
    apply IH in Hrun as (IH1 & IH2 & IH3).
    rewrite IH1, IH2, IH3, Hs, Hm, length_app. cbn. lia.
Qed.

Lemma synchronize_engines_calls sid w w' target :
  synchronize_engines sid w = Ok () w' → calls target w' = calls target w.
Proof.
  intros Hsync. pose proof (synchronize_engines_inv sid w) as Hinv.
  rewrite Hsync in Hinv. destruct Hinv as (e & m & _ & _ & ->).
  unfold calls. by rewrite invocations_synced.
Qed.

End WithEngine.
End LoopFacts.

Module LoopSpec.
Import Np Py SessionStore TextGeneration Notions RunFacts DecodeFacts EngineFacts PromptFacts LoopFacts.

(** X17.  When the generation loop returns, the context and the generated
    tokens have grown by the same tokens, with one array of logits for each;
    and the loop has stopped either because the generated tokens outnumber
    [max_tokens], or because the last token is the end-of-sequence token and
    [force_max_tokens] is off.  With [force_max_tokens] off no token before
    the last is the end-of-sequence token. *)
Theorem generation_stops_at_end_of_sequence_or_at_the_bound `{EngineModel}
  (fuel : nat) (self : TextGenerationPipeline) (ctx : context)
  (session_id : string) (g g' : generation) (w w' : world) :
  generate_loop fuel self ctx session_id g w = Ok g' w' →
  ∃ new,
    tokens g' = tokens g ++ new
    ∧ generated_tokens g' = generated_tokens g ++ new
    ∧ length (generated_logits g') = (length (generated_logits g) + length new)%nat
    ∧ (force_max_tokens self = false
       → Forall (λ t, t ≠ eos_token_id self) (removelast new))
    ∧ (max_tokens self < Z.of_nat (length (generated_tokens g'))
       ∨ (force_max_tokens self = false ∧ last new = Some (eos_token_id self))).
Proof.
  revert g w. induction fuel as [|fuel IH]; intros g w; cbn [generate_loop].
  - case_decide as Hcond; [done|]. intros [= -> ->].
    exists []. rewrite !app_nil_r. split_and!; try done; try (cbn; lia); left; lia.
  - case_decide as Hcond.
    2:{ intros [= -> ->].
        exists []. rewrite !app_nil_r. split_and!; try done; try (cbn; lia); left; lia. }
    intros Hrun.
    apply bind_Ok_inv in Hrun as ([token logits] & w1 & Hstep & Hrun).
    apply bind_Ok_inv in Hrun as ([] & w2 & Hput & Hrun).
    destruct (bool_decide (token = eos_token_id self) && negb (force_max_tokens self))
      eqn:Hstop.
    + injection Hrun as <- <-.
      apply andb_prop in Hstop as [Heos%bool_decide_eq_true Hforce%negb_true_iff].
      exists [token]. cbn [tokens generated_tokens generated_logits].
      rewrite length_app. split_and!; try done.
      right. by rewrite Heos.
    + apply IH in Hrun as (new & Ht & Hg & Hl & Hno & Hend).
      cbn [tokens generated_tokens generated_logits] in *.
      exists (token :: new). rewrite <- !app_assoc in *. cbn [app] in *.
      rewrite length_app in Hl. cbn [length] in *.
      split_and!; try done; [lia| |].
      * intros Hforce. specialize (Hno Hforce).
        destruct new as [|t new]; [cbn; constructor|].
        change (removelast (token :: t :: new)) with (token :: removelast (t :: new)).
        constructor; [|done]. intros ->.
        by rewrite bool_decide_eq_true_2, Hforce in Hstop.
      * destruct Hend as [Hend|[Hforce Heos]]; [by left|]. right. split; [done|].
        by destruct new.
Qed.

Lemma generation_stops_at_end_of_sequence_or_at_the_bound_witness :
  ∃ new,
    [Some 5; Some 6; Some 2] = [Some 5] ++ new
    ∧ last new = Some (eos_token_id (Toy.pipeline true)).
Proof.
  assert (generated_tokens
            <$> result_of
                  (@generate_loop Toy.toy 10 (Toy.pipeline true) Toy.no_streamer "s"
                     {| tokens := [Some 11; Some 5]; generated_tokens := [Some 5];
                        generated_logits := [] |}
                     (@World Toy.toy (Some (Toy.scripted 1 ∅ [6; 2; 9])) None []))
          = Some [Some 5; Some 6; Some 2]) as Hres
    by (vm_compute; reflexivity).
  destruct (@generate_loop Toy.toy 10 (Toy.pipeline true) Toy.no_streamer "s"
              {| tokens := [Some 11; Some 5]; generated_tokens := [Some 5];
                 generated_logits := [] |}
              (@World Toy.toy (Some (Toy.scripted 1 ∅ [6; 2; 9])) None []))
    as [g' w'|x w'|] eqn:Hrun; [|discriminate Hres|discriminate Hres].
  injection Hres as Hres.
  destruct (generation_stops_at_end_of_sequence_or_at_the_bound _ _ _ _ _ _ _ _ Hrun)
    as (new & _ & Hg & _ & _ & Hend).
  rewrite Hres in Hg, Hend. exists new. split; [exact Hg|].
  destruct Hend as [Hend|[_ Hend]]; [|exact Hend].
  exfalso. vm_compute in Hend. discriminate Hend.
Defined.

(** X18.  [prompt_inference] feeds every prompt token to exactly one
    engine, once.  With [n] tokens left after the leading token has been
    dropped or kept, a prompt that is processed in chunks of [p] takes
    [n / p] calls of the multitoken engine and [n mod p] calls of the
    single-token engine; any other prompt takes [n] calls of the
    single-token engine and none of the multitoken engine.  Each call
    contributes one entry to the prompt logits. *)
Theorem every_prompt_token_is_processed_once `{EngineModel}
  (self : TextGenerationPipeline) (engine_inputs : list item)
  (session_id : string) (w w' : world) (tokens out : list token)
  (logits : list (list logit_row)) :
  0 < prompt_processing_sequence_length self →
  prompt_tokens engine_inputs = Val tokens →
  prompt_inference self engine_inputs session_id w = Ok (out, logits) w' →
  let p := Z.to_nat (prompt_processing_sequence_length self) in
  let n := (length out - 1)%nat in
  calls Multitoken w'
  = (calls Multitoken w + if chunked self tokens then n / p else 0)%nat
  ∧ calls SingleToken w'
    = (calls SingleToken w + if chunked self tokens then n `mod` p else n)%nat
  ∧ length logits = (if chunked self tokens then n / p + n `mod` p else n)%nat.
Proof.
  intros Hp Htokens Hrun p n. subst n. unfold prompt_inference in Hrun.
  apply bind_Ok_inv in Hrun as (toks & w0 & Hl & Hrun).
  apply lift_Ok_inv in Hl as [Hl ->]. rewrite Htokens in Hl. injection Hl as <-.
  apply bind_Ok_inv in Hrun as ([tokens1 st] & w2 & Hpre & Hrun).
  cbn zeta in Hrun.
  apply bind_Ok_inv in Hrun as ([] & w3 & Hsync2 & Hrun).
  apply bind_Ok_inv in Hrun as (e2 & w4 & He2 & Hrun).
  apply attr_of_Ok_inv in He2 as [-> He2].
  apply bind_Ok_inv in Hrun as ([nt pl] & w5 & Hloop & Hrun).
  injection Hrun as <- <- <-.
  apply single_token_loop_calls in Hloop as (HcS & HcM & Hlog).
  rewrite HcS, HcM, Hlog.
  rewrite (synchronize_engines_calls _ _ _ SingleToken Hsync2).
  rewrite (synchronize_engines_calls _ _ _ Multitoken Hsync2).
  fold (chunked self tokens) in Hpre.
  destruct (chunked self tokens) eqn:Hchunked.
  - apply bind_Ok_inv in Hpre as ([] & w1 & Hsync & Hpre).
    apply bind_Ok_inv in Hpre as (m1 & w1' & Hm1 & Hpre).
    apply attr_of_Ok_inv in Hm1 as [-> Hm1].
    apply bind_Ok_inv in Hpre as (batches & w1' & Hb & Hpre).
    apply lift_Ok_inv in Hb as [Hb ->].
    apply bind_Ok_inv in Hpre as (st1 & w1' & Hpl & Hpre).
    injection Hpre as <- <- <-.
    pose proof (prefill_loop_processed _ _ _ _ _ _ _ _ Hpl) as Hproc.
    apply prefill_loop_calls in Hpl as (HpM & HpS & Hplog).
    cbn [num_tokens_processed prompt_logits length] in Hproc, Hplog.
    rewrite HpM, HpS, Hplog.
    rewrite (synchronize_engines_calls _ _ _ SingleToken Hsync).
    rewrite (synchronize_engines_calls _ _ _ Multitoken Hsync).
    pose proof (token_batches_length _ _ _ Hp Hb) as Hnb.
    set (tokens1 := if has_session (kv_cache_storage m1) session_id
                    then _remove_bos_token_if_applicable self tokens
                    else tokens) in *.
    assert (prompt_processing_sequence_length self ≤ Z.of_nat (length tokens1)) as Hlen.
    { unfold chunked in Hchunked. apply andb_prop in Hchunked as [Hgt _].
      apply bool_decide_eq_true_1 in Hgt.
      unfold tokens1, _remove_bos_token_if_applicable.
      repeat case_match; rewrite ?length_drop; lia. }
    assert (1 ≤ Z.of_nat (length tokens1) `div` prompt_processing_sequence_length self).
    { apply Z.div_le_lower_bound; lia. }
    rewrite (bool_decide_eq_false_2 (num_tokens_processed st1 = 0)) by nia.
    rewrite andb_false_r.
    rewrite length_app. cbn [length].
    replace (length tokens1 + 1 - 1)%nat with (length tokens1) by lia.
    assert (length batches = (length tokens1 / p)%nat) as Hq.
    { apply Nat2Z.inj. rewrite Hnb, Nat2Z.inj_div. unfold p.
      by rewrite Z2Nat.id by lia. }
    assert (Z.to_nat (num_tokens_processed st1) = (p * (length tokens1 / p))%nat) as Hz.
    { rewrite Hproc, <- Hq. unfold p. lia. }
    rewrite length_drop, Hz, <- Hq.
    pose proof (Nat.div_mod_eq (length tokens1) p) as Hdm. rewrite <- Hq in Hdm.
    split_and!; lia.
  - injection Hpre as <- <- <-. cbn [num_tokens_processed prompt_logits length].
    rewrite bool_decide_eq_true_2 by done. rewrite andb_true_r.
    change (Z.to_nat 0) with 0%nat. rewrite drop_0.
    rewrite length_app. cbn [length].
    split_and!; lia.
Qed.

Lemma every_prompt_token_is_processed_once_witness :
  ∃ w',
    world_of
      (@prompt_inference Toy.toy (Toy.pipeline false)
         [ItemArray (Arr2 [[11; 12; 13; 14; 15; 16]]);
          ItemArray (Arr2 [[1; 1; 1; 1; 1; 1]])] "s"
         (@World Toy.toy (Some (Toy.scripted 1 ∅ [])) (Some (Toy.scripted 4 ∅ [])) []))
    = Some w'
    ∧ calls Multitoken w' = 1%nat ∧ calls SingleToken w' = 2%nat.
Proof.
  pose (w := @World Toy.toy (Some (Toy.scripted 1 ∅ [])) (Some (Toy.scripted 4 ∅ [])) []).
  pose (inputs := [ItemArray (Arr2 [[11; 12; 13; 14; 15; 16]]);
                   ItemArray (Arr2 [[1; 1; 1; 1; 1; 1]])]).
  assert (result_of (@prompt_inference Toy.toy (Toy.pipeline false) inputs "s" w)
          = Some (Some <$> [11; 12; 13; 14; 15; 16; 0], [[0; 0; 0; 0]; [0]; [0]]))
    as Hres by (vm_compute; reflexivity).
  fold w inputs.
  destruct (@prompt_inference Toy.toy (Toy.pipeline false) inputs "s" w)
    as [[out logits] w'|x w'|] eqn:Hrun; [|discriminate Hres|discriminate Hres].
  injection Hres as -> ->.
  exists w'. split; [reflexivity|].
  destruct (every_prompt_token_is_processed_once (Toy.pipeline false) inputs "s" w w'
              (Some <$> [11; 12; 13; 14; 15; 16]) _ _
              ltac:(by vm_compute) eq_refl Hrun) as (HM & HS & _).
  split; [exact HM|exact HS].
Defined.

(** X19.  A pipeline built for a model with cache support but without a
    causal-mask input has no multitoken engine, and then [prompt_inference]
    raises [AttributeError] on every prompt, before any engine is called:
    [synchronize_engines] reads the cache of the multitoken engine whether
    or not there is one. *)
Theorem prompt_needs_the_multitoken_engine `{EngineModel}
  (args : init_args) (self : TextGenerationPipeline) (w : world)
  (engine_inputs : list item) (session_id : string) (tokens : list token) :
  init args = Val (self, w) →
  is_cache_support_enabled args = true →
  causal_mask_input_present args = false →
  prompt_tokens engine_inputs = Val tokens →
  multitoken_engine w = None
  ∧ prompt_inference self engine_inputs session_id w = Raise AttributeError w.
Proof.
  intros Hinit Hc Hm Htokens. unfold init in Hinit. cbv zeta in Hinit.
  rewrite Hc, Hm in Hinit. cbn [negb] in Hinit.
  unfold initialize_engines in Hinit.
  cbn [cache_support_enabled enable_multitoken_prefill andb orb negb] in Hinit.
  rewrite andb_false_r in Hinit. cbn in Hinit. injection Hinit as <- <-.
  split; [done|].
  eapply DecodeSpec.prompt_inference_without_multitoken_engine;
    [exact Htokens | done | reflexivity | reflexivity].
Qed.

Lemma prompt_needs_the_multitoken_engine_witness :
  ∃ self w,
    @init Toy.toy
      {| arg_deterministic := true;
         arg_max_generated_tokens := Some 10;
         arg_prompt_processing_sequence_length := 4;
         arg_force_max_tokens := false;
         arg_use_deepsparse_cache := true;
         arg_engine_type := None;
         arg_sequence_length := 8;
         causal_mask_input_present := false;
         is_cache_support_enabled := true;
         tokenizer_eos_token_id := Some 2;
         tokenizer_pad_token_id := None;
         tokenizer_has_add_bos_token := false |} = Val (self, w)
    ∧ result_of (prompt_inference self Toy.prompt3 "s" w) = None.
Proof.
  eexists _, _. split; [reflexivity|].
  erewrite (proj2 (prompt_needs_the_multitoken_engine
                     {| arg_deterministic := true;
                        arg_max_generated_tokens := Some 10;
                        arg_prompt_processing_sequence_length := 4;
                        arg_force_max_tokens := false;
                        arg_use_deepsparse_cache := true;
                        arg_engine_type := None;
                        arg_sequence_length := 8;
                        causal_mask_input_present := false;
                        is_cache_support_enabled := true;
                        tokenizer_eos_token_id := Some 2;
                        tokenizer_pad_token_id := None;
                        tokenizer_has_add_bos_token := false |}
                     _ _ Toy.prompt3 "s" _ eq_refl eq_refl eq_refl eq_refl)).
  reflexivity.
Defined.

End LoopSpec.

(** ** Joining the outputs of the sub-batches *)
Module JoinFacts.
Import Np Py SessionStore TextGeneration Notions.

Lemma max_len_bound {A} (arrays : list (list (list A))) :
  Forall (λ a, shape1 a ≤ max_len arrays)%nat arrays.
Proof.
  unfold max_len. induction arrays as [|a arrays IH]; [done|].
  cbn [fmap list_fmap foldr]. constructor; [lia|].
  eapply Forall_impl; [exact IH|]. cbn. intros; lia.
Qed.

Lemma rectangular_shape1 {A} (a : list (list A)) :
  a ≠ [] → rectangular (shape1 a) a →
  ∀ len, (shape1 a ≤ len)%nat →
  ∀ value : A,
    (λ row, row ++ replicate (len - shape1 a) value) <$> a = padded len value <$> a
    ∧ shape1 (padded len value <$> a) = len
    ∧ rectangular len (padded len value <$> a).
Proof.
  intros Hne Hrect len Hlen value. split_and!.
  - apply Forall_fmap_ext_1. eapply Forall_impl; [exact Hrect|].
    cbn. intros row Hrow. unfold padded. by rewrite Hrow.
  - destruct a as [|row a]; [done|]. cbn. unfold padded.
    rewrite length_app, length_replicate. unfold shape1 in Hlen. cbn in Hlen. lia.
  - apply Forall_fmap. eapply Forall_impl; [exact Hrect|].
    cbn. intros row Hrow. unfold padded. rewrite length_app, length_replicate. lia.
Qed.

Lemma pad_all_padded {A} (arrays : list (list (list A))) (len : nat) (value : A) :
  Forall (λ a, a ≠ [] ∧ rectangular (shape1 a) a ∧ (shape1 a ≤ len)%nat) arrays →
  pad_all arrays len value = Val (fmap (M:=list) (padded len value) <$> arrays).
Proof.
  induction 1 as [|a arrays (Hne & Hrect & Hlen) Hrest IH]; [done|].
  cbn [pad_all]. unfold Helpers.pad_to_fixed_length.
  rewrite decide_False by lia. cbn [of_option mbind pyres_bind].
  rewrite IH. cbn.
  by destruct (rectangular_shape1 a Hne Hrect len Hlen value) as (-> & _ & _).
Qed.

Lemma concatenate_axis0_padded {A} (arrays : list (list (list A))) (len : nat)
  (value : A) :
  arrays ≠ [] →
  Forall (λ a, a ≠ [] ∧ rectangular (shape1 a) a ∧ (shape1 a ≤ len)%nat) arrays →
  concatenate_axis0 (fmap (M:=list) (padded len value) <$> arrays)
  = Val (padded len value <$> concat arrays)
  ∧ rectangular len (padded len value <$> concat arrays).
Proof.
  intros Hne Hall.
  assert (Forall (λ b, shape1 b = len ∧ rectangular len b)
            (fmap (M:=list) (padded len value) <$> arrays)) as Hshape.
  { apply Forall_fmap. eapply Forall_impl; [exact Hall|]. cbn.
    intros a (Hne' & Hrect & Hlen).
    by destruct (rectangular_shape1 a Hne' Hrect len Hlen value) as (_ & ? & ?). }
  assert (concat (fmap (M:=list) (padded len value) <$> arrays)
          = padded len value <$> concat arrays) as Hconcat.
  { clear. induction arrays as [|a arrays IH]; [done|].
    cbn. by rewrite fmap_app, IH. }
  split.
  - unfold concatenate_axis0.
    destruct (fmap (M:=list) (padded len value) <$> arrays) as [|b bs] eqn:Hb;
      [by destruct arrays|].
    pose proof Hshape as [[Hb1 _] _]%Forall_cons.
    rewrite Hb1, decide_True; [by rewrite Hconcat|].
    eapply Forall_impl; [exact Hshape|]. by intros ? [? _].
  - rewrite <- Hconcat. unfold rectangular. apply Forall_concat.
    eapply Forall_impl; [exact Hshape|]. by intros ? [_ ?].
Qed.

End JoinFacts.

Module JoinSpec.
Import Np Py SessionStore TextGeneration Notions RoundTripFacts JoinFacts.

(** X20.  With cache support, [join_engine_outputs] of one or more batch
    outputs with 2-d arrays of tokens, whatever their numbers of rows and
    their widths.  When the tokenizer has a pad token id it returns the rows
    of all the outputs in order, each token row padded on the right with the
    pad token id up to the widest output and each logits row with zero rows
    likewise, so that both arrays are rectangular; the session ids are
    concatenated in order.  When the pad token id is [None] and the tokens
    are integers it raises [TypeError], whether or not a row needs padding.
    The arrays of every output are assumed to have at least one row. *)
Theorem joined_outputs_are_padded_to_the_widest `{EngineModel}
  (self : TextGenerationPipeline)
  (outputs : list (list (list token) * list (list logit_row)
                   * list (option string)))
  (orig_batch_size : Z) :
  cache_support_enabled self = true → outputs ≠ [] →
  Forall (λ o, o.1.1 ≠ [] ∧ rectangular (shape1 o.1.1) o.1.1
               ∧ o.1.2 ≠ [] ∧ rectangular (shape1 o.1.2) o.1.2) outputs →
  let tokens := (λ o, o.1.1) <$> outputs in
  let logits := (λ o, o.1.2) <$> outputs in
  let batch_outputs : list engine_output :=
    (λ o, (Tokens2 o.1.1, o.1.2, o.2)) <$> outputs in
  match pad_token_id self with
  | Some pad =>
      join_engine_outputs self batch_outputs orig_batch_size
      = Val (Tokens2 (padded (max_len tokens) (Some pad) <$> concat tokens),
             padded (max_len logits) zero_row <$> concat logits,
             concat ((λ o, o.2) <$> outputs))
      ∧ rectangular (max_len tokens)
          (padded (max_len tokens) (Some pad) <$> concat tokens)
      ∧ rectangular (max_len logits)
          (padded (max_len logits) zero_row <$> concat logits)
  | None =>
      Forall (λ a, None ∉ concat a) tokens →
      join_engine_outputs self batch_outputs orig_batch_size = Exc TypeError
  end.
Proof.
  intros Hc Hne Hall tokens logits batch_outputs.
  assert (Forall (λ a, a ≠ [] ∧ rectangular (shape1 a) a
                       ∧ (shape1 a ≤ max_len tokens)%nat) tokens) as Ht.
  { apply Forall_and. split.
    - apply Forall_fmap. eapply Forall_impl; [exact Hall|]. by intros ? (? & ? & _).
    - apply Forall_and. split; [|apply max_len_bound].
      apply Forall_fmap. eapply Forall_impl; [exact Hall|]. by intros ? (? & ? & _). }
  assert (Forall (λ a, a ≠ [] ∧ rectangular (shape1 a) a
                       ∧ (shape1 a ≤ max_len logits)%nat) logits) as Hl.
  { apply Forall_and. split.
    - apply Forall_fmap. eapply Forall_impl; [exact Hall|]. by intros ? (_ & _ & ? & ?).
    - apply Forall_and. split; [|apply max_len_bound].
      apply Forall_fmap. eapply Forall_impl; [exact Hall|]. by intros ? (_ & _ & ? & ?). }
  assert (tokens ≠ []) as Hnt by (unfold tokens; by destruct outputs).
  assert (logits ≠ []) as Hnl by (unfold logits; by destruct outputs).
  assert (unzip3 batch_outputs
          = Val (Tokens2 <$> tokens, logits, (λ o, o.2) <$> outputs)) as Hu.
  { unfold batch_outputs, tokens, logits, unzip3.
    destruct outputs as [|o outputs]; [done|].
    rewrite <- !list_fmap_compose. done. }
  unfold join_engine_outputs. rewrite Hu, Hc. cbn [mbind pyres_bind].
  rewrite as_2d_Tokens2. cbn [mbind pyres_bind].
  destruct (pad_token_id self) as [pad|].
  - destruct (concatenate_axis0_padded tokens (max_len tokens) (Some pad) Hnt Ht)
      as [Hct Hrt].
    destruct (concatenate_axis0_padded logits (max_len logits) zero_row Hnl Hl)
      as [Hcl Hrl].
    split; [|by split].
    rewrite pad_all_tokens_Some, (pad_all_padded tokens _ _ Ht).
    cbn [mbind pyres_bind].
    rewrite (pad_all_padded logits _ _ Hl). cbn [mbind pyres_bind].
    rewrite concatenate_tokens_Tokens2, Hct. cbn [mbind pyres_bind].
    rewrite Hcl. done.
  - intros Hints.
    destruct tokens as [|a rest]; [done|].
    apply Forall_cons in Ht as [(_ & _ & Hwidth) _].
    apply Forall_cons in Hints as [Hint _].
    cbn [pad_all_tokens]. unfold pad_tokens, Helpers.pad_to_fixed_length.
    rewrite decide_False by lia. cbn [of_option mbind pyres_bind].
    by rewrite bool_decide_eq_false_2.
Qed.

Lemma joined_outputs_are_padded_to_the_widest_witness :
  @join_engine_outputs Toy.toy (Toy.pipeline false)
    [(Tokens2 [[Some 5; Some 6; Some 7]; [Some 8; Some 9; Some 2]],
      [[5; 6]; [8; 9]], [Some "a"; Some "b"]);
     (Tokens2 [[Some 4]], [[4]], [Some "c"])] 3
  = Val (Tokens2 [[Some 5; Some 6; Some 7]; [Some 8; Some 9; Some 2];
                  [Some 4; Some 2; Some 2]],
         [[5; 6]; [8; 9]; [4; 0]], [Some "a"; Some "b"; Some "c"]).
Proof.
  refine (proj1 (joined_outputs_are_padded_to_the_widest (H:=Toy.toy)
                   (Toy.pipeline false)
                   [([[Some 5; Some 6; Some 7]; [Some 8; Some 9; Some 2]],
                     [[5; 6]; [8; 9]], [Some "a"; Some "b"]);
                    ([[Some 4]], [[4]], [Some "c"])] 3 eq_refl _ _)); [done|].
  repeat (apply Forall_cons_2 || apply Forall_nil_2);
    split_and!; try done; by repeat constructor.
Defined.

End JoinSpec.

(** ** The inputs of a prefill chunk *)
Module PrefillSpec.
Import Np Py SessionStore TextGeneration Notions HelpersFacts RunFacts DecodeFacts.

(** X21.  The inputs of a prefill chunk, for an engine whose inputs are
    [input_ids], [attention_mask], [positions] and [causal_mask] in this
    order and a chunk length [p > 1].  With [c] cache entries for the
    session and [p + c <= sequence_length], the chunk comes with an
    attention mask whose last [p + c] entries are one, the positions
    [c, ..., c + p - 1], and a causal mask in which the token [i] of the
    chunk attends to the [c] cached entries and to the tokens [0..i] of the
    chunk, and to nothing else.  Building the inputs changes nothing in the
    engines. *)
Theorem prefill_chunk_attends_to_cache_and_chunk `{EngineModel}
  (self : TextGenerationPipeline) (session_id : string) (idx : nat)
  (token_batch : list token) (local : option item) (w : world)
  (m : NLDecoderEngine internals) (row : list Z) :
  multitoken_engine w = Some m →
  onnx_input_names_no_cache m
  = ["input_ids"; "attention_mask"; "positions"; "causal_mask"] →
  token_batch = Some <$> row →
  let p := prompt_processing_sequence_length self in
  let c := num_non_blank_cache_entries m session_id in
  let S := sequence_length self in
  1 < p → length row = Z.to_nat p → 0 ≤ c → p + c ≤ S →
  let mask := replicate (Z.to_nat (S - (p + c))) 0 ++ replicate (Z.to_nat (p + c)) 1 in
  ∃ cm,
    prefill_chunk self session_id idx token_batch local w
    = Ok ([ItemArray (Arr2 [row]); ItemArray (Arr2 [mask]);
           ItemArray (Arr2 [arange c (c + p)]); ItemArray (Arr4 cm)],
          Some (ItemArray (Arr2 [arange c (c + p)]))) w
    ∧ ∀ i j, (i < Z.to_nat p)%nat → (j < Z.to_nat S)%nat →
        get4 cm 0 0 i j
        = Some (if decide (Z.to_nat (S - (p + c)) ≤ j ≤ Z.to_nat (S - p) + i)%nat
                then 1 else 0).
Proof.
  intros Hm Hnames -> p c S Hp Hlen Hc HS mask.
  assert (token_array (Some <$> row) = Arr2 [row]) as Hrow.
  { unfold token_array.
    assert (int_row (Some <$> row) = Some row) as ->; [|done].
    clear. induction row as [|z row IH]; [done|]. cbn. by rewrite IH. }
  assert (ones_from_right S (p + c) = Val [mask]) as Hones.
  { unfold ones_from_right, slice_start. rewrite decide_False by lia.
    rewrite decide_True by lia. unfold mask. do 3 f_equal; f_equal; lia. }
  assert (length mask = Z.to_nat S) as Hlmask.
  { unfold mask. rewrite length_app, !length_replicate. lia. }
  destruct (Helpers.create_causal_mask (Helpers.IdsArray [row]) (Helpers.MaskArray [mask]))
    as [cm|] eqn:Hcm.
  2:{ exfalso. unfold Helpers.create_causal_mask, Helpers.causal_mask_unzeroed in Hcm.
      cbn [Helpers.ids_shape Helpers.mask_shape shape0 shape1 List.hd length] in Hcm.
      rewrite decide_False in Hcm by lia.
      rewrite decide_False in Hcm by lia. done. }
  exists cm. split.
  - unfold prefill_chunk.
    rewrite bind_eq, (attr_of_eq Multitoken w m Hm). cbv beta iota zeta.
    rewrite bind_eq, (attr_of_eq Multitoken w m Hm). cbv beta iota zeta.
    rewrite Hnames. fold c.
    assert (prefill_inputs self c idx (Some <$> row) ([], local)
              ["input_ids"; "attention_mask"; "positions"; "causal_mask"]
            = Val ([ItemArray (Arr2 [row]); ItemArray (Arr2 [mask]);
                    ItemArray (Arr2 [arange c (c + p)])],
                   Some (ItemArray (Arr2 [arange c (c + p)])))) as ->.
    { cbn [prefill_inputs].
      assert (prefill_input self c idx (Some <$> row) ([], local) "input_ids"
              = Val ([ItemArray (Arr2 [row])], Some (ItemArray (Arr2 [row])))) as ->.
      { unfold prefill_input. rewrite decide_False by done.
        rewrite decide_True by done. by rewrite Hrow. }
      cbn [mbind pyres_bind].
      assert (prefill_input self c idx (Some <$> row)
                ([ItemArray (Arr2 [row])], Some (ItemArray (Arr2 [row])))
                "attention_mask"
              = Val ([ItemArray (Arr2 [row]); ItemArray (Arr2 [mask])],
                     Some (ItemArray (Arr2 [mask])))) as ->.
      { unfold prefill_input. rewrite !decide_False by done.
        rewrite decide_True by done. fold p S. by rewrite Hones. }
      cbn [mbind pyres_bind].
      assert (prefill_input self c idx (Some <$> row)
                ([ItemArray (Arr2 [row]); ItemArray (Arr2 [mask])],
                 Some (ItemArray (Arr2 [mask])))
                "positions"
              = Val ([ItemArray (Arr2 [row]); ItemArray (Arr2 [mask]);
                      ItemArray (Arr2 [arange c (c + p)])],
                     Some (ItemArray (Arr2 [arange c (c + p)])))) as ->.
      { unfold prefill_input. rewrite !(decide_False (P := _ = _ :> string)) by done.
        rewrite decide_True by done. fold p. by rewrite decide_False by lia. }
      cbn [mbind pyres_bind].
      unfold prefill_input. by rewrite decide_True by done. }
    rewrite bind_eq. cbn [lift]. rewrite ret_eq. cbv beta iota.
    rewrite bind_eq, (attr_of_eq Multitoken w m Hm). cbv beta iota zeta.
    rewrite Hnames, bool_decide_eq_true_2 by set_solver.
    cbn [lookup list_lookup of_option mbind pyres_bind as_ids ids_of as_mask].
    rewrite Hcm. cbn [of_option lift]. rewrite bind_eq, ret_eq. cbv beta iota.
    done.
  - intros i j Hi Hj.
    assert ((Helpers.ids_shape (Helpers.IdsArray [row])).2 ≠ 1%nat) as Hne
      by (cbn; lia).
    rewrite (create_causal_mask_multi_token _ _ _ 0 i j Hne Hcm).
    cbn [Helpers.ids_shape Helpers.mask_shape shape0 shape1 List.hd length fst snd].
    rewrite decide_True by lia. f_equal.
    assert (count_zeros [mask] = Z.to_nat (S - (p + c))) as ->.
    { unfold mask.
      rewrite <- (length_replicate (Z.to_nat (S - (p + c))) (0 : Z)) at 2.
      rewrite <- (count_zeros_left_padded (length (replicate (Z.to_nat (S - (p + c))) (0:Z)))
                   (replicate (Z.to_nat (p + c)) 1)).
      - by rewrite length_replicate.
      - apply Forall_replicate. lia. }
    unfold past_or_lower. rewrite Hlmask, Hlen.
    repeat case_decide; try done; lia.
Qed.

Lemma prefill_chunk_attends_to_cache_and_chunk_witness :
  ∃ cm,
    result_of
      (@prefill_chunk Toy.toy (Toy.pipeline true) "s" 0
         (Some <$> [11; 12; 13; 14]) None
         (@World Toy.toy None
            (Some (Toy.scripted 4 {["s" := Session "s" 1 2]} [])) []))
    = Some ([ItemArray (Arr2 [[11; 12; 13; 14]]);
             ItemArray (Arr2 [[0; 0; 1; 1; 1; 1; 1; 1]]);
             ItemArray (Arr2 [[2; 3; 4; 5]]); ItemArray (Arr4 cm)],
            Some (ItemArray (Arr2 [[2; 3; 4; 5]])))
    ∧ get4 cm 0 0 1 5 = Some 1 ∧ get4 cm 0 0 1 6 = Some 0
    ∧ get4 cm 0 0 1 1 = Some 0.
Proof.
  destruct (prefill_chunk_attends_to_cache_and_chunk (H:=Toy.toy)
              (Toy.pipeline true) "s" 0 (Some <$> [11; 12; 13; 14]) None
              (@World Toy.toy None
                 (Some (Toy.scripted 4 {["s" := Session "s" 1 2]} [])) [])
              _ [11; 12; 13; 14] eq_refl eq_refl eq_refl
              ltac:(by vm_compute) eq_refl ltac:(by vm_compute)
              ltac:(by vm_compute)) as (cm & Hrun & Hget).
  exists cm. rewrite Hrun. split; [reflexivity|].
  split_and!.
  - exact (Hget 1%nat 5%nat ltac:(vm_compute; lia) ltac:(vm_compute; lia)).
  - exact (Hget 1%nat 6%nat ltac:(vm_compute; lia) ltac:(vm_compute; lia)).
  - exact (Hget 1%nat 1%nat ltac:(vm_compute; lia) ltac:(vm_compute; lia)).
Defined.

End PrefillSpec.

(** ** The streamer *)


Module StreamFacts.
Import Np Py SessionStore TextGeneration Notions RunFacts DecodeFacts LoopFacts.
Section WithEngine.
Context `{EngineModel}.

Lemma streamer_calls_app (evs evs' : list event) :
  streamer_calls (evs ++ evs') = streamer_calls evs ++ streamer_calls evs'.
Proof. apply filter_app. Qed.

Lemma streamer_calls_after_call e inputs sid w :
  streamer_calls (trace (after_call e inputs sid w)) = streamer_calls (trace w).
Proof.
  unfold after_call. cbn [trace]. rewrite streamer_calls_app. cbn.
  by rewrite app_nil_r.
Qed.

Lemma streamer_calls_step self tokens sid w out w' :
  autoregressive_inference self tokens sid w = Ok out w' →
  streamer_calls (trace w') = streamer_calls (trace w).
Proof.
  intros Hrun. apply autoregressive_inference_Ok_inv in Hrun
    as (e & z & inputs & _ & _ & _ & _ & _ & _ & ->).
  apply streamer_calls_after_call.
Qed.

Lemma streamer_calls_synchronize sid w w' :
  synchronize_engines sid w = Ok () w' →
  streamer_calls (trace w') = streamer_calls (trace w).
Proof.
  intros Hsync. pose proof (synchronize_engines_inv sid w) as Hinv.
  rewrite Hsync in Hinv. destruct Hinv as (e & m & _ & _ & ->).
  unfold synced. cbn [trace]. rewrite !streamer_calls_app.
  destruct (ts_gt _ _); cbn; by rewrite app_nil_r.
Qed.

Lemma streamer_calls_call_engine target inputs sid w out w' :
  call_engine target inputs sid w = Ok out w' →
  streamer_calls (trace w') = streamer_calls (trace w).
Proof.
  unfold call_engine. intros Hrun.
  unfold lift, attr_of, get_engine, set_engine, log, raise in *;
  unfold mbind, M_bind, mret, M_ret in *;
  repeat (case_match; simplify_eq/=; try done).
  all: rewrite streamer_calls_app; cbn; by rewrite app_nil_r.
Qed.

Lemma streamer_calls_prefill_loop self sid idx batches st w st' w' :
  prefill_loop self sid idx batches st w = Ok st' w' →
  streamer_calls (trace w') = streamer_calls (trace w).
Proof.
  revert idx st w. induction batches as [|b batches IH]; intros idx st w; cbn [prefill_loop].
  - by intros [= -> ->].
  - intros Hrun.
    apply bind_Ok_inv in Hrun as ([inputs local] & w1 & Hchunk & Hrun).
    apply prefill_chunk_world in Hchunk as ->.
    apply bind_Ok_inv in Hrun as ([t l] & w2 & Hcall & Hrun).
    apply IH in Hrun. rewrite Hrun. by eapply streamer_calls_call_engine.
Qed.

Lemma streamer_calls_single_token_loop self sid (rest run : list token) nt pl w out w' :
  single_token_loop self sid rest run nt pl w = Ok out w' →
  streamer_calls (trace w') = streamer_calls (trace w).
Proof.
  revert run nt pl w. induction rest as [|t rest IH]; intros run nt pl w;
    cbn [single_token_loop].
  - by intros [= <- <-].
  - intros Hrun.
    apply bind_Ok_inv in Hrun as ([t' l] & w1 & Hstep & Hrun).
    apply IH in Hrun. rewrite Hrun. by eapply streamer_calls_step.
Qed.

Lemma streamer_calls_prompt_inference self inputs sid w out w' :
  prompt_inference self inputs sid w = Ok out w' →
  streamer_calls (trace w') = streamer_calls (trace w).
Proof.
  intros Hrun. unfold prompt_inference in Hrun.
  apply bind_Ok_inv in Hrun as (toks & w0 & Hl & Hrun).
  apply lift_Ok_inv in Hl as [Hl ->].
  apply bind_Ok_inv in Hrun as ([tokens1 st] & w2 & Hpre & Hrun).
  cbn zeta in Hrun.
  apply bind_Ok_inv in Hrun as ([] & w3 & Hsync2 & Hrun).
  apply bind_Ok_inv in Hrun as (e2 & w4 & He2 & Hrun).
  apply attr_of_Ok_inv in He2 as [-> He2].
  apply bind_Ok_inv in Hrun as ([nt pl] & w5 & Hloop & Hrun).
  injection Hrun as <- <-.
  rewrite (streamer_calls_single_token_loop _ _ _ _ _ _ _ _ _ Hloop).
  rewrite (streamer_calls_synchronize _ _ _ Hsync2).
  destruct (_ && _).
  - apply bind_Ok_inv in Hpre as ([] & w1 & Hsync & Hpre).
    apply bind_Ok_inv in Hpre as (m1 & w1' & Hm1 & Hpre).
    apply attr_of_Ok_inv in Hm1 as [-> Hm1].
    apply bind_Ok_inv in Hpre as (batches & w1' & Hb & Hpre).
    apply lift_Ok_inv in Hb as [Hb ->].
    apply bind_Ok_inv in Hpre as (st1 & w1' & Hpl & Hpre).
    injection Hpre as <- <- <-.
    rewrite (streamer_calls_prefill_loop _ _ _ _ _ _ _ _ Hpl).
    by rewrite (streamer_calls_synchronize _ _ _ Hsync).
  - by injection Hpre as <- <- <-.
Qed.

Lemma streamer_calls_put_world ctx toks w :
  streamer_calls (trace (put_world ctx toks w))
  = streamer_calls (trace w) ++ if streamer ctx then [StreamerPut toks] else [].
Proof.
  unfold put_world, logged. destruct (streamer ctx); cbn [trace].
  - by rewrite streamer_calls_app.
  - by rewrite app_nil_r.
Qed.

Lemma streamer_calls_generate_loop fuel self ctx sid g w g' w' :
  generate_loop fuel self ctx sid g w = Ok g' w' →
  ∃ new,
    generated_tokens g' = generated_tokens g ++ new
    ∧ tokens g' = tokens g ++ new
    ∧ streamer_calls (trace w')
      = streamer_calls (trace w)
        ++ if streamer ctx then (λ t, StreamerPut [t]) <$> new else [].
Proof.
  revert g w. induction fuel as [|fuel IH]; intros g w; cbn [generate_loop].
  - case_decide as Hcond; [done|]. intros [= -> ->].
    exists []. rewrite !app_nil_r. split_and!; try done.
    destruct (streamer ctx); cbn; by rewrite app_nil_r.
  - case_decide as Hcond.
    2:{ intros [= -> ->].
        exists []. rewrite !app_nil_r. split_and!; try done.
        destruct (streamer ctx); cbn; by rewrite app_nil_r. }
    intros Hrun.
    apply bind_Ok_inv in Hrun as ([token logits] & w1 & Hstep & Hrun).
    apply bind_Ok_inv in Hrun as ([] & w2 & Hput & Hrun).
    rewrite streamer_put_eq in Hput. injection Hput as <-.
    apply streamer_calls_step in Hstep.
    destruct (bool_decide (token = eos_token_id self) && negb (force_max_tokens self)).
    + injection Hrun as <- <-. exists [token].
      cbn [tokens generated_tokens]. split_and!; try done.
      rewrite streamer_calls_put_world, Hstep. by destruct (streamer ctx).
    + apply IH in Hrun as (new & Hg & Ht & Hs).
      cbn [tokens generated_tokens] in *.
      exists (token :: new). rewrite <- !app_assoc in *. cbn [app] in *.
      split_and!; try done.
      rewrite Hs, streamer_calls_put_world, Hstep, <- app_assoc.
      by destruct (streamer ctx).
Qed.

Lemma trace_step self tokens sid w out w' :
  autoregressive_inference self tokens sid w = Ok out w' →
  ∃ inputs, trace w' = trace w ++ [Invoke SingleToken inputs (Some sid)].
Proof.
  intros Hrun. apply autoregressive_inference_Ok_inv in Hrun
    as (e & z & inputs & _ & _ & _ & _ & _ & _ & ->).
  by exists inputs.
Qed.

Lemma trace_put_world ctx toks w :
  trace (put_world ctx toks w)
  = trace w ++ if streamer ctx then [StreamerPut toks] else [].
Proof.
  unfold put_world, logged. destruct (streamer ctx); cbn [trace]; [done|].
  by rewrite app_nil_r.
Qed.

Lemma trace_generate_loop fuel self ctx sid g w g' w' :
  generate_loop fuel self ctx sid g w = Ok g' w' →
  ∃ new evs,
    generated_tokens g' = generated_tokens g ++ new
    ∧ generation_events ctx sid new evs
    ∧ trace w' = trace w ++ evs.
Proof.
  revert g w. induction fuel as [|fuel IH]; intros g w; cbn [generate_loop].
  - case_decide as Hcond; [done|]. intros [= -> ->].
    exists [], []. by rewrite !app_nil_r.
  - case_decide as Hcond.
    2:{ intros [= -> ->]. exists [], []. by rewrite !app_nil_r. }
    intros Hrun.
    apply bind_Ok_inv in Hrun as ([token logits] & w1 & Hstep & Hrun).
    apply bind_Ok_inv in Hrun as ([] & w2 & Hput & Hrun).
    rewrite streamer_put_eq in Hput. injection Hput as <-.
    apply trace_step in Hstep as [inputs Hstep].
    destruct (bool_decide (token = eos_token_id self) && negb (force_max_tokens self)).
    + injection Hrun as <- <-.
      exists [token], (Invoke SingleToken inputs (Some sid)
                       :: (if streamer ctx then [StreamerPut [token]] else []) ++ []).
      cbn [generated_tokens]. split_and!; [done | by eexists _, _ |].
      rewrite trace_put_world, Hstep, app_nil_r, <- app_assoc. done.
    + apply IH in Hrun as (new & evs & Hg & Hev & Htr).
      cbn [generated_tokens] in Hg.
      exists (token :: new),
             (Invoke SingleToken inputs (Some sid)
              :: (if streamer ctx then [StreamerPut [token]] else []) ++ evs).
      split_and!.
      * rewrite Hg, <- app_assoc. done.
      * by eexists _, _.
      * rewrite Htr, trace_put_world, Hstep, <- !app_assoc. done.
Qed.

End WithEngine.
End StreamFacts.

Module StreamSpec.
Import Np Py SessionStore TextGeneration Notions RunFacts DecodeFacts LoopFacts StreamFacts.

(** X22.  What [engine_forward] tells the streamer, with cache support.
    With [prompt ++ [first]] the tokens that [prompt_inference] returns on
    the engine inputs without the session id, the events after the prompt
    has been processed are, in this order: when there is a streamer, one
    [put] of [prompt ++ [first]]; for each further generated token one call
    of the single-token engine and then, when there is a streamer, the [put]
    of that token; one more call of the single-token engine; and, when there
    is a streamer, [end].  The tokens returned are [first] followed by those
    further tokens.  While the prompt is processed no call of the streamer is
    made, and without a streamer none at all. *)
Theorem streamer_gets_every_token_in_order `{EngineModel}
  (fuel : nat) (self : TextGenerationPipeline) (engine_inputs : list item)
  (ctx : context) (w w' : world) (out : engine_output) :
  cache_support_enabled self = true →
  engine_forward fuel self engine_inputs ctx w = Ok out w' →
  ∃ session_id rest prompt first prompt_logits w1 more evs last_inputs,
    pop_session_id engine_inputs = Val (session_id, rest)
    ∧ prompt_inference self rest session_id w
      = Ok (prompt ++ [first], prompt_logits) w1
    ∧ streamer_calls (trace w1) = streamer_calls (trace w)
    ∧ out.1.1 = Tokens2 [first :: more]
    ∧ generation_events ctx session_id more evs
    ∧ trace w'
      = trace w1
        ++ (if streamer ctx then [StreamerPut (prompt ++ [first])] else [])
        ++ evs
        ++ [Invoke SingleToken last_inputs (Some session_id)]
        ++ (if streamer ctx then [StreamerEnd] else []).
Proof.
  intros Hc Hrun. unfold engine_forward in Hrun. rewrite Hc in Hrun.
  apply bind_Ok_inv in Hrun as ([sid inputs] & w0 & Hpop & Hrun).
  apply lift_Ok_inv in Hpop as [Hpop ->].
  apply bind_Ok_inv in Hrun as ([tokens0 prompt_logits] & w1 & Hprompt & Hrun).
  apply bind_Ok_inv in Hrun as ([] & w2 & Hput & Hrun).
  rewrite streamer_put_eq in Hput. injection Hput as <-.
  apply bind_Ok_inv in Hrun as (last_token & w3 & Hlast & Hrun).
  apply lift_Ok_inv in Hlast as [Hlast ->].
  apply bind_Ok_inv in Hrun as (g & w4 & Hloop & Hrun).
  apply bind_Ok_inv in Hrun as (final & w5 & Hfinal & Hrun).
  apply bind_Ok_inv in Hrun as ([] & w6 & Hend & Hrun).
  rewrite streamer_end_eq in Hend. injection Hend as <-.
  apply bind_Ok_inv in Hrun as (logits & w7 & Hlogits & Hrun).
  apply lift_Ok_inv in Hlogits as [Hlogits ->].
  injection Hrun as <- <-.
  pose proof (prompt_inference_snoc _ _ _ _ _ _ _ Hprompt) as (prompt & nt & ->).
  rewrite last_snoc in Hlast. injection Hlast as <-.
  pose proof (streamer_calls_prompt_inference _ _ _ _ _ _ Hprompt) as Hquiet.
  apply trace_generate_loop in Hloop as (new & evs & Hg & Hev & Htr).
  cbn [generated_tokens] in Hg.
  apply trace_step in Hfinal as [last_inputs Hfinal].
  exists sid, inputs, prompt, nt, prompt_logits, w1, new, evs, last_inputs.
  split_and!; try done.
  - cbn [fst]. by rewrite Hg.
  - unfold end_world, logged.
    destruct (streamer ctx) eqn:Hstreamer; cbn [trace];
      rewrite Hfinal, Htr, trace_put_world, Hstreamer, <- !app_assoc;
      by rewrite ?app_nil_r.
Qed.

Lemma streamer_gets_every_token_in_order_witness :
  ∃ w',
    world_of
      (@engine_forward Toy.toy 10 (Toy.pipeline true)
         (Toy.prompt3 ++ [ItemId "s"])
         {| streamer := true; include_prompt_logits := false |}
         (@World Toy.toy (Some (Toy.scripted 1 ∅ [5; 6; 7; 8; 2; 9]))
            (Some (Toy.scripted 4 ∅ [])) [])) = Some w'
    ∧ streamer_calls (trace w')
      = [StreamerPut [Some 11; Some 12; Some 13; Some 7];
         StreamerPut [Some 8]; StreamerPut [Some 2]; StreamerEnd].
Proof.
  pose (w := @World Toy.toy (Some (Toy.scripted 1 ∅ [5; 6; 7; 8; 2; 9]))
               (Some (Toy.scripted 4 ∅ [])) []).
  pose (ctx := {| streamer := true; include_prompt_logits := false |}).
  assert (result_of (@engine_forward Toy.toy 10 (Toy.pipeline true)
                       (Toy.prompt3 ++ [ItemId "s"]) ctx w)
          = Some (Tokens2 [[Some 7; Some 8; Some 2]], [[8; 2]], [Some "s"])) as Hres
    by (vm_compute; reflexivity).
  assert (streamer_calls
            <$> (trace <$> world_of (@engine_forward Toy.toy 10 (Toy.pipeline true)
                                       (Toy.prompt3 ++ [ItemId "s"]) ctx w))
          = Some [StreamerPut [Some 11; Some 12; Some 13; Some 7];
                  StreamerPut [Some 8]; StreamerPut [Some 2]; StreamerEnd]) as Htr
    by (vm_compute; reflexivity).
  fold w ctx.
  destruct (@engine_forward Toy.toy 10 (Toy.pipeline true)
              (Toy.prompt3 ++ [ItemId "s"]) ctx w)
    as [out w'|x w'|] eqn:Hrun; [|discriminate Hres|discriminate Hres].
  exists w'. split; [reflexivity|].
  destruct (streamer_gets_every_token_in_order 10 (Toy.pipeline true)
              (Toy.prompt3 ++ [ItemId "s"]) ctx w w' out eq_refl Hrun)
    as (sid & rest & prompt & first & logits & w1 & more & evs & last_inputs
        & _ & _ & _ & _ & _ & Htrace).
  cbn in Htr. by injection Htr.
Defined.

End StreamSpec.
